(** * codegen-resolvers: a shallow embedding of the schema-to-code generator

    The development follows the JavaScript sources:
    - [lib/graphql-dispatch.js]  (odispatch, idispatch)
    - the generator entry file   (renderers, resolver shapes, writers)
    - [lib/ModuleBuilder.js]     (import registry and serialisation)
    - [lib/io.js]                (checkOutputDir, writeCode)

    JavaScript strings are modelled as [string] (the identifiers of a GraphQL
    schema are ASCII), thrown exceptions as the [Err] branch of [Result]. *)

From Stdlib Require Import String Ascii List Bool Arith Lia.
From Stdlib Require Import Sorting.Sorted Sorting.Permutation.
From Stdlib Require OrderedTypeEx.
Import ListNotations.

Open Scope list_scope.
Open Scope string_scope.

(* ------------------------------------------------------------------------- *)
(** ** Exceptions *)

(** Every [throw] of the sources, with the data its message interpolates. *)
Inductive Error : Type :=
| UnhandledVariant (node : string)
| MalformedNullableExpr (baseTypeExpr : string)
| MissingTypeName (node : string)
| NotImplemented (node : string)
| ContractViolation (outputFile : string) (symbol : string)
| InvariantViolation (message : string)
| TypeError (message : string)
| ExternalError (message : string).

Inductive Result (A : Type) : Type :=
| Ok (a : A)
| Err (e : Error).
Arguments Ok {A} a.
Arguments Err {A} e.

Definition bindR {A B : Type} (r : Result A) (k : A -> Result B) : Result B :=
  match r with
  | Ok a => k a
  | Err e => Err e
  end.

Fixpoint mapR {A B : Type} (f : A -> Result B) (l : list A) : Result (list B) :=
  match l with
  | [] => Ok []
  | a :: l' =>
      bindR (f a) (fun b => bindR (mapR f l') (fun bs => Ok (b :: bs)))
  end.

(* ------------------------------------------------------------------------- *)
(** ** JavaScript string operations *)

Module JsString.

(** [s.startsWith(p)] *)
Definition startsWith (p s : string) : bool := String.prefix p s.

(** [s.endsWith(suffix)] *)
Definition endsWith (suffix s : string) : bool :=
  let n := String.length s in
  let m := String.length suffix in
  (m <=? n)%nat && String.eqb (String.substring (n - m) m s) suffix.

(** [s.substring(0, n)] *)
Definition substring0 (n : nat) (s : string) : string :=
  String.substring 0 n s.

(** [arr.join(sep)] *)
Fixpoint join (sep : string) (l : list string) : string :=
  match l with
  | [] => ""
  | [x] => x
  | x :: l' => x ++ sep ++ join sep l'
  end.

Definition lowerChar (c : ascii) : ascii :=
  let n := nat_of_ascii c in
  if ((65 <=? n) && (n <=? 90))%nat then ascii_of_nat (n + 32) else c.

(** [s.toLowerCase()] on ASCII text. *)
Fixpoint toLowerCase (s : string) : string :=
  match s with
  | EmptyString => EmptyString
  | String c s' => String (lowerChar c) (toLowerCase s')
  end.

Definition hexDigit (n : nat) : ascii :=
  if (n <? 10)%nat then ascii_of_nat (48 + n) else ascii_of_nat (87 + n).

Definition quote : ascii := "034"%char.
Definition backslash : ascii := "092"%char.
Definition newline : string := String "010"%char EmptyString.

(** The escape that [JSON.stringify] writes for one character. *)
Definition escapeChar (c : ascii) : string :=
  let n := nat_of_ascii c in
  if Ascii.eqb c quote then String backslash (String quote EmptyString)
  else if Ascii.eqb c backslash then String backslash (String backslash EmptyString)
  else if (n =? 8)%nat then String backslash "b"
  else if (n =? 9)%nat then String backslash "t"
  else if (n =? 10)%nat then String backslash "n"
  else if (n =? 12)%nat then String backslash "f"
  else if (n =? 13)%nat then String backslash "r"
  else if (n <? 32)%nat then
    String backslash
      (String "u" (String "0" (String "0"
         (String (hexDigit (n / 16)) (String (hexDigit (n mod 16)) EmptyString)))))
  else String c EmptyString.

Fixpoint escape (s : string) : string :=
  match s with
  | EmptyString => EmptyString
  | String c s' => escapeChar c ++ escape s'
  end.

(** [JSON.stringify(s)] for a string [s]. *)
Definition JSON_stringify (s : string) : string :=
  String quote (escape s ++ String quote EmptyString).

(** Truthiness of a string: only [''] is falsy. *)
Definition truthy (s : string) : bool := negb (String.eqb s "").

End JsString.

(* ------------------------------------------------------------------------- *)
(** ** lodash [sortBy]

    [sortBy] is a stable sort in ascending order of the iteratee's value; on
    strings the order is JavaScript's [<], the lexicographic order of the
    code units. *)

Module Lodash.

Section SortBy.
Context {A K : Type}.
Variable leK : K -> K -> bool.
Variable key : A -> K.

(** [x] stood before every element of [l] in the input: it goes in front
    of the first element whose key is not smaller, so that equal keys keep
    their original order. *)
Fixpoint insertBy (x : A) (l : list A) : list A :=
  match l with
  | [] => [x]
  | y :: l' =>
      if leK (key x) (key y) then x :: y :: l' else y :: insertBy x l'
  end.

Fixpoint sortWith (l : list A) : list A :=
  match l with
  | [] => []
  | x :: l' => insertBy x (sortWith l')
  end.
End SortBy.

End Lodash.

(* ------------------------------------------------------------------------- *)
(** ** lib/graphql-dispatch.js *)

Module GraphqlDispatch.

(** The classes a schema node can be an instance of. *)
Inductive Variant : Type :=
| GraphQLScalarType
| GraphQLObjectType
| GraphQLInterfaceType
| GraphQLUnionType
| GraphQLEnumType
| GraphQLInputObjectType
| GraphQLList
| GraphQLNonNull.

Definition Variant_eqb (a b : Variant) : bool :=
  match a, b with
  | GraphQLScalarType, GraphQLScalarType
  | GraphQLObjectType, GraphQLObjectType
  | GraphQLInterfaceType, GraphQLInterfaceType
  | GraphQLUnionType, GraphQLUnionType
  | GraphQLEnumType, GraphQLEnumType
  | GraphQLInputObjectType, GraphQLInputObjectType
  | GraphQLList, GraphQLList
  | GraphQLNonNull, GraphQLNonNull => true
  | _, _ => false
  end.

(** What the dispatchers read of a node: its class ([instanceof]) and its
    [String(value)]. *)
Class GraphQLNode (N : Type) : Type := {
  classOf : N -> Variant;
  String_ : N -> string
}.

Definition instanceof {N : Type} `{GraphQLNode N} (value : N) (c : Variant) : bool :=
  Variant_eqb (classOf value) c.

Section Dispatch.
Context {N : Type} `{GraphQLNode N}.
Context {OutputT ContextT : Type}.

Definition Handler : Type := N -> ContextT -> Result OutputT.

(** [$Shape<{| ... |}>]: every handler may be absent. *)
Record OutputTypeDispatchers : Type := {
  onScalar : option Handler;
  onNonNull : option Handler;
  onObject : option Handler;
  onList : option Handler;
  onEnum : option Handler;
  onInterface : option Handler;
  onUnion : option Handler;
  default : option Handler
}.

Record InputTypeDispatchers : Type := {
  onScalar_ : option Handler;
  onEnum_ : option Handler;
  onObject_ : option Handler;
  onList_ : option Handler;
  onNonNull_ : option Handler;
  default_ : option Handler
}.

(** [value instanceof C && dispatchers.onC] *)
Definition guarded (value : N) (c : Variant) (h : option Handler) : option Handler :=
  if instanceof value c then h else None.

Definition odispatch (value : N) (dispatchers : OutputTypeDispatchers)
           (context : ContextT) : Result OutputT :=
  match guarded value GraphQLScalarType (onScalar dispatchers) with
  | Some h => h value context
  | None =>
  match guarded value GraphQLNonNull (onNonNull dispatchers) with
  | Some h => h value context
  | None =>
  match guarded value GraphQLObjectType (onObject dispatchers) with
  | Some h => h value context
  | None =>
  match guarded value GraphQLList (onList dispatchers) with
  | Some h => h value context
  | None =>
  match guarded value GraphQLEnumType (onEnum dispatchers) with
  | Some h => h value context
  | None =>
  match guarded value GraphQLInterfaceType (onInterface dispatchers) with
  | Some h => h value context
  | None =>
  match guarded value GraphQLUnionType (onUnion dispatchers) with
  | Some h => h value context
  | None =>
      match default dispatchers with
      | None => Err (UnhandledVariant (String_ value))
      | Some h => h value context
      end
  end end end end end end end.

(** Calling an absent [default] is the runtime's own [TypeError]. *)
Definition idispatch (value : N) (dispatchers : InputTypeDispatchers)
           (context : ContextT) : Result OutputT :=
  match guarded value GraphQLScalarType (onScalar_ dispatchers) with
  | Some h => h value context
  | None =>
  match guarded value GraphQLEnumType (onEnum_ dispatchers) with
  | Some h => h value context
  | None =>
  match guarded value GraphQLInputObjectType (onObject_ dispatchers) with
  | Some h => h value context
  | None =>
  match guarded value GraphQLList (onList_ dispatchers) with
  | Some h => h value context
  | None =>
  match guarded value GraphQLNonNull (onNonNull_ dispatchers) with
  | Some h => h value context
  | None =>
      match default_ dispatchers with
      | None => Err (TypeError "dispatchers.default is not a function")
      | Some h => h value context
      end
  end end end end end.
End Dispatch.

Arguments OutputTypeDispatchers : clear implicits.
Arguments InputTypeDispatchers : clear implicits.
Arguments Handler : clear implicits.

End GraphqlDispatch.
Import GraphqlDispatch.

(** A reference to a type, as a field or an argument holds it: the class of
    the referenced node with its [name], or a wrapper around another
    reference. *)
Inductive TypeRef : Type :=
| Scalar (name : string)
| Object (name : string)
| Interface (name : string)
| Union (name : string)
| Enum (name : string)
| InputObject (name : string)
| List (ofType : TypeRef)
| NonNull (ofType : TypeRef).

Definition TypeRef_class (t : TypeRef) : Variant :=
  match t with
  | Scalar _ => GraphQLScalarType
  | Object _ => GraphQLObjectType
  | Interface _ => GraphQLInterfaceType
  | Union _ => GraphQLUnionType
  | Enum _ => GraphQLEnumType
  | InputObject _ => GraphQLInputObjectType
  | List _ => GraphQLList
  | NonNull _ => GraphQLNonNull
  end.

(** [String(node)]: the name, [[inner]] for a list, [inner!] for a non-null. *)
Fixpoint TypeRef_toString (t : TypeRef) : string :=
  match t with
  | Scalar n | Object n | Interface n | Union n | Enum n | InputObject n => n
  | List t' => "[" ++ TypeRef_toString t' ++ "]"
  | NonNull t' => TypeRef_toString t' ++ "!"
  end.

#[export] Instance TypeRef_node : GraphQLNode TypeRef :=
  {| classOf := TypeRef_class; String_ := TypeRef_toString |}.

(** [node.name] ([undefined] on the wrappers). *)
Definition name_of (t : TypeRef) : option string :=
  match t with
  | Scalar n | Object n | Interface n | Union n | Enum n | InputObject n => Some n
  | List _ | NonNull _ => None
  end.

Definition nonOptional (baseTypeExpr : string) : Result string :=
  if negb (JsString.endsWith " | null" baseTypeExpr) then
    Err (MalformedNullableExpr baseTypeExpr)
  else
    Ok (JsString.substring0 (String.length baseTypeExpr - 7) baseTypeExpr).

(** A value a reference renderer holds at run time: a string, or what a
    property inherited from [Object.prototype] yields, a native function or
    (for [__proto__]) the prototype object itself. *)
Inductive JsValue : Type :=
| StringValue (s : string)
| NativeFunction (name : string)
| PrototypeObject.

(** [String(v)]: the conversion of a template literal and of [join]. *)
Definition JsValue_toString (v : JsValue) : string :=
  match v with
  | StringValue s => s
  | NativeFunction name => "function " ++ name ++ "() { [native code] }"
  | PrototypeObject => "[object Object]"
  end.

(** [Boolean(v)]: of these values only the empty string is falsy. *)
Definition JsValue_truthy (v : JsValue) : bool :=
  match v with
  | StringValue s => JsString.truthy s
  | NativeFunction _ | PrototypeObject => true
  end.

(** [nonOptional(baseType)] on the value a renderer returned.  The parameter
    is annotated as a string, but the annotation is erased: a function or an
    object has no [endsWith], and calling [undefined] throws. *)
Definition nonOptionalValue (baseTypeExpr : JsValue) : Result JsValue :=
  match baseTypeExpr with
  | StringValue s => bindR (nonOptional s) (fun base => Ok (StringValue base))
  | NativeFunction _ | PrototypeObject =>
      Err (TypeError "baseTypeExpr.endsWith is not a function")
  end.

(** The own properties of the table of the builtin scalars. *)
Definition FLOW_SCALARS : list (string * string) :=
  [ ("ID", "string | number | null");
    ("String", "string | null");
    ("Int", "number | null");
    ("Float", "number | null");
    ("Boolean", "boolean | null") ].

Fixpoint lookup {V : Type} (k : string) (m : list (string * V)) : option V :=
  match m with
  | [] => None
  | (k', v) :: m' => if String.eqb k' k then Some v else lookup k m'
  end.

(** What the object literal [FLOW_SCALARS] inherits from [Object.prototype]:
    [constructor] is the function [Object], [__proto__] reads the prototype
    object, the other properties are native functions of their own name. *)
Definition Object_prototype : list (string * JsValue) :=
  [ ("constructor", NativeFunction "Object");
    ("__defineGetter__", NativeFunction "__defineGetter__");
    ("__defineSetter__", NativeFunction "__defineSetter__");
    ("hasOwnProperty", NativeFunction "hasOwnProperty");
    ("__lookupGetter__", NativeFunction "__lookupGetter__");
    ("__lookupSetter__", NativeFunction "__lookupSetter__");
    ("isPrototypeOf", NativeFunction "isPrototypeOf");
    ("propertyIsEnumerable", NativeFunction "propertyIsEnumerable");
    ("toString", NativeFunction "toString");
    ("valueOf", NativeFunction "valueOf");
    ("__proto__", PrototypeObject);
    ("toLocaleString", NativeFunction "toLocaleString") ].

(** [FLOW_SCALARS[name]]: an own property, else a property found on the
    prototype chain, else [undefined]. *)
Definition FLOW_SCALARS_get (name : string) : option JsValue :=
  match lookup name FLOW_SCALARS with
  | Some t => Some (StringValue t)
  | None => lookup name Object_prototype
  end.

(** [FLOW_SCALARS[node.name] || `${node.name} | null`] *)
Definition scalarRef (name : string) : JsValue :=
  match FLOW_SCALARS_get name with
  | Some v => if JsValue_truthy v then v else StringValue (name ++ " | null")
  | None => StringValue (name ++ " | null")
  end.

(** The [default] handler of both reference renderers. *)
Definition namedRef (node : TypeRef) : Result JsValue :=
  let name := match name_of node with Some n => n | None => "" end in
  if negb (JsString.truthy name) then Err (MissingTypeName (String_ node))
  else Ok (StringValue (name ++ " | null")).

Definition scalarHandler (node : TypeRef) (_ : unit) : Result JsValue :=
  match name_of node with
  | Some name => Ok (scalarRef name)
  | None => Err (TypeError "name")
  end.

(** The dispatchers call a handler on the dispatched [value] itself, so the
    rendering of [node.ofType] is the recursive call on the wrapped
    reference of [value]. *)
Fixpoint toFlowOutputTypeRef (value : TypeRef) : Result JsValue :=
  let ofTypeRef : Result JsValue :=
    match value with
    | List ofType | NonNull ofType => toFlowOutputTypeRef ofType
    | _ => Err (TypeError "ofType")
    end in
  odispatch value
    {| onScalar := Some scalarHandler;
       onNonNull := Some (fun _ _ =>
         bindR ofTypeRef (fun baseType => nonOptionalValue baseType));
       onObject := None;
       onList := Some (fun _ _ =>
         bindR ofTypeRef (fun inner =>
         Ok (StringValue ("Array<" ++ JsValue_toString inner ++ "> | null"))));
       onEnum := None;
       onInterface := None;
       onUnion := None;
       default := Some (fun node _ => namedRef node) |}
    tt.

Fixpoint toFlowInputTypeRef (value : TypeRef) : Result JsValue :=
  let ofTypeRef : Result JsValue :=
    match value with
    | List ofType | NonNull ofType => toFlowInputTypeRef ofType
    | _ => Err (TypeError "ofType")
    end in
  idispatch value
    {| onScalar_ := Some scalarHandler;
       onEnum_ := None;
       onObject_ := None;
       onList_ := Some (fun _ _ =>
         bindR ofTypeRef (fun inner =>
         Ok (StringValue ("Array<" ++ JsValue_toString inner ++ "> | null"))));
       onNonNull_ := Some (fun _ _ =>
         bindR ofTypeRef (fun baseType => nonOptionalValue baseType));
       default_ := Some (fun node _ => namedRef node) |}
    tt.

(* ------------------------------------------------------------------------- *)
(** ** The schema *)

Record GraphQLArgument : Type := {
  arg_name : string;
  arg_type : TypeRef
}.

Record GraphQLField : Type := {
  field_name : string;
  field_type : TypeRef;
  field_args : list GraphQLArgument
}.

Record GraphQLInputField : Type := {
  input_field_name : string;
  input_field_type : TypeRef
}.

(** [getFields()] returns an object keyed by field name, in declaration
    order: a list of fields read through [Object_keys] and [getField]. *)
Definition FieldMap : Type := list GraphQLField.

Definition Object_keys (fields : FieldMap) : list string :=
  map field_name fields.

(** [fields[name]] *)
Definition getField (name : string) (fields : FieldMap) : option GraphQLField :=
  find (fun f => String.eqb (field_name f) name) fields.

Record InterfaceDef : Type := {
  iface_name : string;
  iface_fields : FieldMap
}.

(** The named types a schema's type map holds. *)
Inductive NamedType : Type :=
| ScalarType (name : string) (description : option string)
| ObjectType (name : string) (interfaces : list InterfaceDef) (fields : FieldMap)
| InterfaceType (iface : InterfaceDef)
| UnionType (name : string) (types : list string)
| EnumType (name : string) (values : list string)
| InputObjectType (name : string) (fields : list GraphQLInputField).

Definition NamedType_class (t : NamedType) : Variant :=
  match t with
  | ScalarType _ _ => GraphQLScalarType
  | ObjectType _ _ _ => GraphQLObjectType
  | InterfaceType _ => GraphQLInterfaceType
  | UnionType _ _ => GraphQLUnionType
  | EnumType _ _ => GraphQLEnumType
  | InputObjectType _ _ => GraphQLInputObjectType
  end.

(** [node.name] *)
Definition type_name (t : NamedType) : string :=
  match t with
  | ScalarType n _ | ObjectType n _ _ | UnionType n _ | EnumType n _
  | InputObjectType n _ => n
  | InterfaceType i => iface_name i
  end.

#[export] Instance NamedType_node : GraphQLNode NamedType :=
  {| classOf := NamedType_class; String_ := type_name |}.

(** The accessors are only called by the handler of the class that has
    them. *)
Definition getInterfaces (t : NamedType) : list InterfaceDef :=
  match t with ObjectType _ ifaces _ => ifaces | _ => [] end.

Definition getFields (t : NamedType) : FieldMap :=
  match t with
  | ObjectType _ _ fields => fields
  | InterfaceType i => iface_fields i
  | _ => []
  end.

Definition getInputFields (t : NamedType) : list GraphQLInputField :=
  match t with InputObjectType _ fields => fields | _ => [] end.

Definition getValues (t : NamedType) : list string :=
  match t with EnumType _ values => values | _ => [] end.

(** [type.getTypes().map(t => t.name)] *)
Definition getTypeNames (t : NamedType) : list string :=
  match t with UnionType _ types => types | _ => [] end.

Definition getDescription (t : NamedType) : option string :=
  match t with ScalarType _ d => d | _ => None end.

(** [schema.getTypeMap()]: type name to type, in insertion order. *)
Definition GraphQLSchema : Type := list (string * NamedType).

Definition getTypeMap (schema : GraphQLSchema) : list (string * NamedType) := schema.

Definition getType (schema : GraphQLSchema) (name : string) : option NamedType :=
  lookup name schema.

(** [new Set([...])] and [set.has(x)] *)
Definition Set_has (x : string) (s : list string) : bool :=
  existsb (String.eqb x) s.

Definition Set_add (x : string) (s : list string) : list string :=
  if Set_has x s then s else s ++ [x].

Definition ROOT_TYPES : list string := ["Query"; "Mutation"].
Definition BUILTINS : list string := ["Boolean"; "Float"; "ID"; "Int"; "String"].

(* ------------------------------------------------------------------------- *)
(** ** Resolver shapes *)

Definition toFlowArgType (args : list GraphQLArgument) : Result string :=
  bindR (mapR (fun arg =>
                 bindR (toFlowInputTypeRef (arg_type arg))
                       (fun t => Ok ("+" ++ arg_name arg ++ ": " ++ JsValue_toString t)))
              args)
        (fun exprs => Ok ("{| " ++ JsString.join ", " exprs ++ " |}")).

(** [[parent, output, args].filter(Boolean)]: [null] and [''] are dropped. *)
Definition filterBoolean (l : list (option string)) : list string :=
  flat_map (fun o => match o with
                     | Some s => if JsString.truthy s then [s] else []
                     | None => []
                     end) l.

(** [output] is kept by [filter(Boolean)] when it is truthy, which it is
    exactly when its string is not empty, and [join] converts it to that
    string. *)
Definition toFieldTypeDefinition (parentObj : NamedType) (field : GraphQLField)
  : Result string :=
  let parent :=
    if Set_has (type_name parentObj) ROOT_TYPES then "null" else type_name parentObj in
  bindR (toFlowOutputTypeRef (field_type field)) (fun output =>
  bindR (if (List.length (field_args field) =? 0)%nat then Ok None
         else bindR (toFlowArgType (field_args field)) (fun a => Ok (Some a)))
        (fun args =>
  Ok (field_name field ++ ": Resolver<"
      ++ JsString.join ","
           (filterBoolean [Some parent; Some (JsValue_toString output); args])
      ++ ">,"))).

(** A line of a resolver shape; [line_key] remembers the field name the line
    was emitted for ([None] for the blank and comment lines). *)
Record Line : Type := {
  line_key : option string;
  line_text : string
}.

Definition plain (text : string) : Line := {| line_key := None; line_text := text |}.

Definition texts (lines : list Line) : list string := map line_text lines.

(** [fields[name]], then [toFieldTypeDefinition(node, field)]. *)
Definition fieldLine (node : NamedType) (fields : FieldMap) (name : string)
  : Result Line :=
  match getField name fields with
  | Some field =>
      bindR (toFieldTypeDefinition node field)
            (fun text => Ok {| line_key := Some name; line_text := text |})
  | None => Err (TypeError "Cannot read properties of undefined")
  end.

(** The [lines] array built for one implemented interface. *)
Definition interfaceLines (node : NamedType) (iface : InterfaceDef)
  : Result (list Line) :=
  let ifields := iface_fields iface in
  bindR (mapR (fieldLine node ifields) (Object_keys ifields)) (fun entries =>
  Ok (plain "" :: plain ("// From " ++ iface_name iface) :: entries)).

(** The [seen] set once the loop over the interfaces is over. *)
Definition seenFields (node : NamedType) : list string :=
  fold_left (fun seen iface =>
               fold_left (fun seen ifieldName => Set_add ifieldName seen)
                         (Object_keys (iface_fields iface)) seen)
            (getInterfaces node) [].

(** One entry of [sections] per implemented interface, before the inner
    [lines.join]. *)
Definition sectionLines (node : NamedType) : Result (list (list Line)) :=
  mapR (interfaceLines node) (getInterfaces node).

(** The lines of the fields of the type itself that are not in [seen]. *)
Definition ownLines (node : NamedType) : Result (list Line) :=
  let fields := getFields node in
  mapR (fieldLine node fields)
       (filter (fun name => negb (Set_has name (seenFields node))) (Object_keys fields)).

Definition objectResolverDefinition (node : NamedType) : Result string :=
  bindR (sectionLines node) (fun sections =>
  bindR (ownLines node) (fun own =>
  Ok (JsString.join JsString.newline
        (("export type " ++ type_name node ++ "Resolver = {|")
           :: map (fun lines => JsString.join JsString.newline (texts lines)) sections
           ++ texts own
           ++ ["|}"])))).

Definition enumDefinition (node : NamedType) : Result string :=
  let def :=
    JsString.join JsString.newline
      (map (fun value => "| " ++ JsString.JSON_stringify value ++ JsString.newline)
           (getValues node)) in
  Ok ("export type " ++ type_name node ++ " = " ++ JsString.newline ++ def).

Definition toResolverTypeDefinition (value : NamedType) : Result string :=
  odispatch value
    {| onScalar := Some (fun _ (_ : unit) => Ok "");
       onNonNull := None;
       onObject := Some (fun node _ => objectResolverDefinition node);
       onList := None;
       onEnum := Some (fun node _ => enumDefinition node);
       onInterface := Some (fun _ _ => Ok "");
       onUnion := Some (fun _ _ => Ok "");
       default := Some (fun node _ => Err (NotImplemented (String_ node))) |}
    tt.

(** [toFlowInputTypeDefinition] *)
Definition toFlowInputTypeDefinition (value : NamedType) : Result string :=
  idispatch value
    {| onScalar_ := None;
       onEnum_ := None;
       onObject_ := Some (fun node (_ : unit) =>
         bindR (mapR (fun field =>
                        bindR (toFlowInputTypeRef (input_field_type field))
                              (fun t => Ok ("+" ++ input_field_name field ++ ": "
                                              ++ JsValue_toString t ++ ",")))
                     (getInputFields node))
               (fun lines => Ok (JsString.join JsString.newline ("{|" :: lines ++ ["|}"]))));
       onList_ := None;
       onNonNull_ := None;
       default_ := Some (fun node _ => Err (MissingTypeName (String_ node))) |}
    tt.

(* ------------------------------------------------------------------------- *)
(** ** The canonical type index *)

Definition sortBy (l : list string) : list string :=
  Lodash.sortWith String.leb (fun s => s) l.

Definition namedTypesFromSchema (schema : GraphQLSchema) : list string :=
  let typeNames :=
    filter (fun name => negb (Set_has name BUILTINS))
      (filter (fun name => negb (JsString.startsWith "__" name))
         (map fst (getTypeMap schema))) in
  sortBy typeNames.

Definition instanceOfType (schema : GraphQLSchema) (typename : string) (c : Variant) : bool :=
  match getType schema typename with
  | Some t => instanceof t c
  | None => false
  end.

Definition isUnionOrInterfaceType (typename : string) (schema : GraphQLSchema) : bool :=
  instanceOfType schema typename GraphQLInterfaceType
  || instanceOfType schema typename GraphQLUnionType.

(** Only keep object types that implement the interface [name]. *)
Definition implementsInterface (schema : GraphQLSchema) (name typename : string) : bool :=
  match getType schema typename with
  | Some (ObjectType _ ifaces _) =>
      existsb (fun iface => String.eqb (iface_name iface) name) ifaces
  | _ => false
  end.

Definition getConcreteSubtypes (schema : GraphQLSchema) (name : string) : list string :=
  match getType schema name with
  | Some (UnionType _ _ as type) => getTypeNames type
  | _ => filter (implementsInterface schema name) (namedTypesFromSchema schema)
  end.

(* ------------------------------------------------------------------------- *)
(** ** lib/ModuleBuilder.js

    The imports and the emitted code of one module.  The registry of keyed
    definitions ([registerDef], [require] and their type twins) and the
    export sets, which the generator never calls, are left out. *)

Module ModuleBuilder.

(** A [Map] keyed by strings, in insertion order. *)
Definition Map_get {V : Type} (k : string) (m : list (string * V)) : option V :=
  lookup k m.

(** [map.set(k, v)]: an existing key keeps its position. *)
Fixpoint Map_set {V : Type} (k : string) (v : V) (m : list (string * V))
  : list (string * V) :=
  match m with
  | [] => [(k, v)]
  | (k', v') :: m' =>
      if String.eqb k' k then (k', v) :: m' else (k', v') :: Map_set k v m'
  end.

Record t : Type := {
  _headerComment : string;
  _defaultImports : list (string * string);
  _namedImports : list (string * list string);
  _namespaceImports : list (string * string);
  _typeImports : list (string * list string);
  _typeDefCode : list string;
  _defCode : list string
}.

(** [new ModuleBuilder(comment)] *)
Definition new (comment : string) : t :=
  {| _headerComment := comment;
     _defaultImports := [];
     _namedImports := [];
     _namespaceImports := [];
     _typeImports := [];
     _typeDefCode := [];
     _defCode := [] |}.

Definition set_defCode (code : list string) (m : t) : t :=
  {| _headerComment := _headerComment m;
     _defaultImports := _defaultImports m;
     _namedImports := _namedImports m;
     _namespaceImports := _namespaceImports m;
     _typeImports := _typeImports m;
     _typeDefCode := _typeDefCode m;
     _defCode := code |}.

(** [emit(code)] with a string. *)
Definition emit (code : string) (m : t) : t :=
  set_defCode (_defCode m ++ [code]) m.

(** [emit(callback)]: the callback receives the builder, may register
    imports on it, and returns the code. *)
Definition emitWith (callback : t -> Result (string * t)) (m : t) : Result t :=
  bindR (callback m) (fun '(code, m') => Ok (emit code m')).

Definition addNamespaceImport (identifier from_ : string) (m : t) : t :=
  {| _headerComment := _headerComment m;
     _defaultImports := _defaultImports m;
     _namedImports := _namedImports m;
     _namespaceImports := Map_set from_ identifier (_namespaceImports m);
     _typeImports := _typeImports m;
     _typeDefCode := _typeDefCode m;
     _defCode := _defCode m |}.

Definition addDefaultImport (identifier from_ : string) (m : t) : t :=
  {| _headerComment := _headerComment m;
     _defaultImports := Map_set from_ identifier (_defaultImports m);
     _namedImports := _namedImports m;
     _namespaceImports := _namespaceImports m;
     _typeImports := _typeImports m;
     _typeDefCode := _typeDefCode m;
     _defCode := _defCode m |}.

(** [names = map.get(from_) || new Set(); names.add(identifier);
    map.set(from_, names)] *)
Definition addToSet (identifier from_ : string) (imports : list (string * list string))
  : list (string * list string) :=
  let names := match Map_get from_ imports with Some s => s | None => [] end in
  Map_set from_ (Set_add identifier names) imports.

Definition addNamedImport (identifier from_ : string) (m : t) : t :=
  {| _headerComment := _headerComment m;
     _defaultImports := _defaultImports m;
     _namedImports := addToSet identifier from_ (_namedImports m);
     _namespaceImports := _namespaceImports m;
     _typeImports := _typeImports m;
     _typeDefCode := _typeDefCode m;
     _defCode := _defCode m |}.

Definition addTypeImport (identifier from_ : string) (m : t) : t :=
  {| _headerComment := _headerComment m;
     _defaultImports := _defaultImports m;
     _namedImports := _namedImports m;
     _namespaceImports := _namespaceImports m;
     _typeImports := addToSet identifier from_ (_typeImports m);
     _typeDefCode := _typeDefCode m;
     _defCode := _defCode m |}.

(** [sortBy([...identifiers], [i => i.toLowerCase()])] *)
Definition sortIdentifiers (identifiers : list string) : list string :=
  Lodash.sortWith String.leb JsString.toLowerCase identifiers.

(** A yielded [[priority, identifier, line]]; the identifier of a set
    import is [sorted[0]], [undefined] for an empty set. *)
Definition ImportTuple : Type := (nat * option string * string)%type.

Definition namedImportTuple (module_ : string) (identifiers : list string) : ImportTuple :=
  let sorted := sortIdentifiers identifiers in
  (1, hd_error sorted,
   "import { " ++ JsString.join ", " sorted ++ " } from " ++ JsString.JSON_stringify module_).

Definition typeImportTuple (module_ : string) (identifiers : list string) : ImportTuple :=
  let sorted := sortIdentifiers identifiers in
  (3, hd_error sorted,
   "import type { " ++ JsString.join ", " sorted ++ " } from "
     ++ JsString.JSON_stringify module_).

Definition namespaceImportTuple (module_ identifier : string) : ImportTuple :=
  (0, Some identifier,
   "import * as " ++ identifier ++ " from " ++ JsString.JSON_stringify module_).

Definition defaultImportTuple (module_ identifier : string) : ImportTuple :=
  (2, Some identifier,
   "import " ++ identifier ++ " from " ++ JsString.JSON_stringify module_).

Definition iterImports (m : t) : list ImportTuple :=
  map (fun '(module_, identifier) => namespaceImportTuple module_ identifier)
      (_namespaceImports m)
  ++ map (fun '(module_, identifiers) => namedImportTuple module_ identifiers)
         (_namedImports m)
  ++ map (fun '(module_, identifier) => defaultImportTuple module_ identifier)
         (_defaultImports m)
  ++ map (fun '(module_, identifiers) => typeImportTuple module_ identifiers)
         (_typeImports m).

(** The two sort criteria of [toString]: compared in turn, ascending. *)
Definition criteria_leb (a b : nat * string) : bool :=
  (fst a <? fst b)%nat || ((fst a =? fst b)%nat && String.leb (snd a) (snd b)).

(** [([priority]) => priority] and [([, m]) => m.toLowerCase()] on one
    tuple; the second throws on [undefined]. *)
Definition criteria (tuple : ImportTuple) : Result (nat * string * string) :=
  match tuple with
  | (priority, Some m, line) => Ok (priority, JsString.toLowerCase m, line)
  | (_, None, _) =>
      Err (TypeError "Cannot read properties of undefined (reading 'toLowerCase')")
  end.

Definition sortImports (keyed : list (nat * string * string)) : list (nat * string * string) :=
  Lodash.sortWith criteria_leb (fun x => fst x) keyed.

Definition importLines (m : t) : Result (list string) :=
  bindR (mapR criteria (iterImports m)) (fun keyed =>
  Ok (map snd (sortImports keyed))).

Definition toString (m : t) : Result string :=
  bindR (importLines m) (fun lines =>
  let typeDefLines := map (fun code => code ++ JsString.newline) (_typeDefCode m) in
  let defLines := map (fun code => code ++ JsString.newline) (_defCode m) in
  Ok (JsString.join JsString.newline
        ([_headerComment m; ""] ++ lines ++ [""] ++ typeDefLines ++ [""] ++ defLines)%list)).

End ModuleBuilder.

(** *** The registry of keyed definitions

    [registerDef], [registerTypeDef], [require] and [requireType], with the
    two maps of producers and the two sets of emitted keys they use.  A
    producer is a function value that receives the builder: what it returns
    or throws, and how it leaves the builder, is given by [call]. *)

Module Registry.

(** What the registry throws itself, and what a producer throws. *)
Inductive Failure : Type :=
| DuplicateDef (key : string)
| DuplicateTypeDef (key : string)
| UnknownDef (key : string)
| UnknownTypeDef (key : string)
| Raised (e : Error).

Section Producers.
Variable Producer : Type.

Record t : Type := {
  module_ : ModuleBuilder.t;
  _defs : list (string * Producer);
  _emittedDefs : list string;
  _typeDefs : list (string * Producer);
  _emittedTypeDefs : list string
}.

(** A method call: the value returned or the exception thrown, and the
    builder afterwards. *)
Definition Call (A : Type) : Type := ((A + Failure) * t)%type.

Variable call : Producer -> t -> Call string.

(** [new ModuleBuilder(comment)] *)
Definition new (comment : string) : t :=
  {| module_ := ModuleBuilder.new comment;
     _defs := [];
     _emittedDefs := [];
     _typeDefs := [];
     _emittedTypeDefs := [] |}.

Definition registerDef (key : string) (callback : Producer) (b : t) : Call unit :=
  match ModuleBuilder.Map_get key (_defs b) with
  | Some _ => (inr (DuplicateDef key), b)
  | None =>
      (inl tt,
       {| module_ := module_ b;
          _defs := ModuleBuilder.Map_set key callback (_defs b);
          _emittedDefs := _emittedDefs b;
          _typeDefs := _typeDefs b;
          _emittedTypeDefs := _emittedTypeDefs b |})
  end.

Definition registerTypeDef (key : string) (callback : Producer) (b : t) : Call unit :=
  match ModuleBuilder.Map_get key (_typeDefs b) with
  | Some _ => (inr (DuplicateTypeDef key), b)
  | None =>
      (inl tt,
       {| module_ := module_ b;
          _defs := _defs b;
          _emittedDefs := _emittedDefs b;
          _typeDefs := ModuleBuilder.Map_set key callback (_typeDefs b);
          _emittedTypeDefs := _emittedTypeDefs b |})
  end.

(** [this._emittedDefs.add(key)] *)
Definition markDef (key : string) (b : t) : t :=
  {| module_ := module_ b;
     _defs := _defs b;
     _emittedDefs := Set_add key (_emittedDefs b);
     _typeDefs := _typeDefs b;
     _emittedTypeDefs := _emittedTypeDefs b |}.

Definition markTypeDef (key : string) (b : t) : t :=
  {| module_ := module_ b;
     _defs := _defs b;
     _emittedDefs := _emittedDefs b;
     _typeDefs := _typeDefs b;
     _emittedTypeDefs := Set_add key (_emittedTypeDefs b) |}.

(** [this._defCode.push(code)] *)
Definition pushDefCode (code : string) (b : t) : t :=
  {| module_ := ModuleBuilder.emit code (module_ b);
     _defs := _defs b;
     _emittedDefs := _emittedDefs b;
     _typeDefs := _typeDefs b;
     _emittedTypeDefs := _emittedTypeDefs b |}.

(** [this._typeDefCode.push(code)] *)
Definition pushTypeDefCode (code : string) (b : t) : t :=
  {| module_ :=
       {| ModuleBuilder._headerComment := ModuleBuilder._headerComment (module_ b);
          ModuleBuilder._defaultImports := ModuleBuilder._defaultImports (module_ b);
          ModuleBuilder._namedImports := ModuleBuilder._namedImports (module_ b);
          ModuleBuilder._namespaceImports := ModuleBuilder._namespaceImports (module_ b);
          ModuleBuilder._typeImports := ModuleBuilder._typeImports (module_ b);
          ModuleBuilder._typeDefCode := ModuleBuilder._typeDefCode (module_ b) ++ [code];
          ModuleBuilder._defCode := ModuleBuilder._defCode (module_ b) |};
     _defs := _defs b;
     _emittedDefs := _emittedDefs b;
     _typeDefs := _typeDefs b;
     _emittedTypeDefs := _emittedTypeDefs b |}.

(** The key is marked as emitted before the producer is called; the code is
    pushed when the producer has returned. *)
Definition require (key : string) (b : t) : Call unit :=
  if Set_has key (_emittedDefs b) then (inl tt, b)
  else
    match ModuleBuilder.Map_get key (_defs b) with
    | None => (inr (UnknownDef key), b)
    | Some callback =>
        match call callback (markDef key b) with
        | (inl code, b') => (inl tt, pushDefCode code b')
        | (inr failure, b') => (inr failure, b')
        end
    end.

Definition requireType (key : string) (b : t) : Call unit :=
  if Set_has key (_emittedTypeDefs b) then (inl tt, b)
  else
    match ModuleBuilder.Map_get key (_typeDefs b) with
    | None => (inr (UnknownTypeDef key), b)
    | Some callback =>
        match call callback (markTypeDef key b) with
        | (inl code, b') => (inl tt, pushTypeDefCode code b')
        | (inr failure, b') => (inr failure, b')
        end
    end.

End Producers.

Arguments module_ {Producer} _.
Arguments _defs {Producer} _.
Arguments _emittedDefs {Producer} _.
Arguments _typeDefs {Producer} _.
Arguments _emittedTypeDefs {Producer} _.
Arguments registerDef {Producer} key callback b.
Arguments registerTypeDef {Producer} key callback b.
Arguments markDef {Producer} key b.
Arguments markTypeDef {Producer} key b.
Arguments pushDefCode {Producer} code b.
Arguments pushTypeDefCode {Producer} code b.
Arguments require {Producer} call key b.
Arguments requireType {Producer} call key b.

End Registry.

(* ------------------------------------------------------------------------- *)
(** ** The file system and lib/io.js

    A file system is the list of its files (path and contents) and of its
    directories.  An [async] function is a state transformer that may throw;
    the state survives a throw, nothing written is rolled back.  The members
    of a [Promise.all] run in array order and the first error ends the call,
    where the source starts them all at once: after a throw the real file
    system can hold files of later members that the model has not written.
    Console output is left out. *)

Record FileSystem : Type := {
  fs_files : list (string * string);
  fs_dirs : list string
}.

Definition IO (A : Type) : Type := FileSystem -> Result A * FileSystem.

Definition ret {A : Type} (a : A) : IO A := fun fs => (Ok a, fs).

Definition throw {A : Type} (e : Error) : IO A := fun fs => (Err e, fs).

Definition lift {A : Type} (r : Result A) : IO A := fun fs => (r, fs).

Definition bindIO {A B : Type} (c : IO A) (k : A -> IO B) : IO B :=
  fun fs =>
    match c fs with
    | (Ok a, fs') => k a fs'
    | (Err e, fs') => (Err e, fs')
    end.

Declare Scope io_scope.
Delimit Scope io_scope with io.
Notation "x <- c ;; k" := (bindIO c (fun x => k))
  (at level 61, c at next level, right associativity) : io_scope.
Notation "c ;;; k" := (bindIO c (fun _ => k))
  (at level 61, right associativity) : io_scope.

(** [await Promise.all(l.map(async x => f x))] *)
Fixpoint mapIO {A B : Type} (f : A -> IO B) (l : list A) : IO (list B) :=
  match l with
  | [] => ret []
  | a :: l' =>
      bindIO (f a) (fun b => bindIO (mapIO f l') (fun bs => ret (b :: bs)))
  end.

Module Path.

(** The directory and the base name of a path that has a slash. *)
Fixpoint splitLast (p : string) : option (string * string) :=
  match p with
  | EmptyString => None
  | String c p' =>
      match splitLast p' with
      | Some (d, b) => Some (String c d, b)
      | None => if Ascii.eqb c "/" then Some (EmptyString, p') else None
      end
  end.

(** [path.dirname(p)], for a path without a trailing slash. *)
Definition dirname (p : string) : string :=
  match splitLast p with
  | Some (EmptyString, _) => "/"
  | Some (d, _) => d
  | None => "."
  end.

Definition isAbsolute (p : string) : bool := JsString.startsWith "/" p.

(** [p.split('/')] *)
Fixpoint split (p : string) : list string :=
  match p with
  | EmptyString => [EmptyString]
  | String c p' =>
      if Ascii.eqb c "/" then EmptyString :: split p'
      else match split p' with
           | h :: t => String c h :: t
           | [] => [String c EmptyString]
           end
  end.

(** Empty and [.] segments are dropped, [..] removes the segment before
    it (none above the root). *)
Definition normalize (segments : list string) : list string :=
  fold_left (fun (stack : list string) seg =>
               if String.eqb seg "" || String.eqb seg "." then stack
               else if String.eqb seg ".." then removelast stack
               else (stack ++ [seg])%list)
            segments [].

(** [path.resolve(dir, f)] in a process whose working directory is [cwd]:
    the arguments are taken from the right until one is absolute, then the
    path is normalised. *)
Definition resolve (cwd dir f : string) : string :=
  let raw :=
    if isAbsolute f then f
    else if isAbsolute dir then dir ++ "/" ++ f
    else cwd ++ "/" ++ dir ++ "/" ++ f in
  "/" ++ JsString.join "/" (normalize (split raw)).

End Path.

Definition existsSync (file : string) : IO bool :=
  fun fs => (Ok (existsb (fun entry => String.eqb (fst entry) file) (fs_files fs)
                 || Set_has file (fs_dirs fs)), fs).

Definition readFile (file : string) : IO string :=
  fun fs =>
    match lookup file (fs_files fs) with
    | Some contents => (Ok contents, fs)
    | None => (Err (ExternalError ("ENOENT: no such file or directory, open '" ++ file ++ "'")), fs)
    end.

Definition writeFile (filename contents : string) : IO unit :=
  fun fs =>
    (Ok tt, {| fs_files := ModuleBuilder.Map_set filename contents (fs_files fs);
               fs_dirs := fs_dirs fs |}).

Definition mkdirp (dir : string) : IO unit :=
  fun fs => (Ok tt, {| fs_files := fs_files fs; fs_dirs := Set_add dir (fs_dirs fs) |}).

Definition entriesOf (dir : string) (paths : list string) : list string :=
  flat_map (fun p => match Path.splitLast p with
                     | Some (d, b) => if String.eqb d dir then [b] else []
                     | None => []
                     end) paths.

Definition readdir (dir : string) : IO (list string) :=
  fun fs =>
    let entries := entriesOf dir (map fst (fs_files fs) ++ fs_dirs fs) in
    if Set_has dir (fs_dirs fs) || negb (Nat.eqb (List.length entries) 0)
    then (Ok entries, fs)
    else (Err (ExternalError ("ENOENT: no such file or directory, scandir '" ++ dir ++ "'")), fs).

(** A regular expression, as the test [f.match(pattern)]. *)
Definition RegExp : Type := string -> bool.

(** [/.*\.js$/] *)
Definition js_pattern : RegExp := fun f => JsString.endsWith ".js" f.

(** [/(index|.*resolver)\.js$/i] *)
Definition resolver_pattern : RegExp :=
  fun f =>
    JsString.endsWith "index.js" (JsString.toLowerCase f)
    || JsString.endsWith "resolver.js" (JsString.toLowerCase f).

(** The [unexpected] files of [checkOutputDir]. *)
Definition unexpectedFiles (cwd dir : string) (pattern : RegExp)
           (expectedFiles entries : list string) : list string :=
  let expected := map (Path.resolve cwd dir) expectedFiles in
  sortBy (filter (fun f => negb (Set_has f expected))
            (filter pattern (map (Path.resolve cwd dir) entries))).

(** [cwd] is the working directory of the process. *)
Definition checkOutputDir (cwd dir : string) (pattern : RegExp)
           (expectedFiles : list string) : IO bool :=
  bindIO (readdir dir) (fun entries =>
  let unexpected := unexpectedFiles cwd dir pattern expectedFiles entries in
  if (0 <? List.length unexpected)%nat then ret false else ret true).

(** [lines] joined by newlines: a template literal, line by line. *)
Definition template (lines : list string) : string :=
  JsString.join JsString.newline lines.

Fixpoint sp (n : nat) : string :=
  match n with
  | O => EmptyString
  | S n' => String " " (sp n')
  end.

Definition dq : string := String JsString.quote EmptyString.

Definition HEADER_COMMENT : string :=
  template
    [ "";
      "    // @flow";
      "";
      "    /**";
      "      * ----------------------- IMPORTANT -------------------------------";
      "      *";
      "      * The contents of this file are AUTOMATICALLY GENERATED.  Please do";
      "      * not edit this file directly.  To modify its contents, make";
      "      * changes to your GraphQL schema definition, and re-run:";
      "      *";
      "      *     $ generate-resolvers.js <schema>";
      "      *";
      "      * -----------------------------------------------------------------";
      "      */";
      "" ].

(* ------------------------------------------------------------------------- *)
(** ** The generator *)

Record ProgramOptions : Type := {
  schemaFile : string;
  verbose : bool
}.

Section Generator.

(** The working directory of the process. *)
Variable cwd : string.

(** [prettier.format(code, ...)] *)
Variable prettify : string -> Result string.

(** The identifiers exported by a module, from its source text: [parse]
    followed by [getExportsFromAST]. *)
Variable exportsOfSource : string -> Result (list string).

(** [buildSchema] of the graphql package. *)
Variable buildSchema : string -> Result GraphQLSchema.

(** [lowerCaseFirst] of lib/strings. *)
Variable lowerCaseFirst : string -> string.

Local Open Scope io_scope.

Definition read (file : string) : IO string := readFile file.

Definition write (filename contents : string) : IO unit :=
  mkdirp (Path.dirname filename) ;;;
  writeFile filename contents.

Definition writeCode (code outputFileName : string) : IO unit :=
  formattedCode <- lift (prettify code) ;;
  write outputFileName formattedCode.

Definition getExportsFromPath (path : string) : IO (list string) :=
  source <- read path ;;
  lift (exportsOfSource source).

(** *** Scalars *)

Definition writeScalarsIndex (schema : GraphQLSchema) (outputFile : string) : IO string :=
  let modelNames :=
    filter (fun name => negb (Set_has name BUILTINS))
      (filter (fun name => instanceOfType schema name GraphQLScalarType)
         (namedTypesFromSchema schema)) in
  (if (0 <? List.length modelNames)%nat then
     let mod_ := ModuleBuilder.new HEADER_COMMENT in
     let mod_ :=
       ModuleBuilder.emit
         (JsString.join JsString.newline
            (map (fun name => "export type { " ++ name ++ " } from './" ++ name ++ "';")
                 modelNames))
         mod_ in
     code <- lift (ModuleBuilder.toString mod_) ;;
     writeCode code outputFile
   else ret tt) ;;;
  ret outputFile.

Definition scalarImplCode (name : string) : string :=
  template
    [ "";
      sp 8 ++ "// TODO: Replace this type alias by the type you want to use internally";
      sp 8 ++ "export type " ++ name ++ " = string;";
      "";
      sp 8 ++ "// Defines how " ++ name ++ " values are serialized back in responses";
      sp 8 ++ "export const serialize: (" ++ name ++ ") => mixed = String;";
      "";
      sp 8 ++ "// TODO: Replace with existing decoder or define your own";
      sp 8 ++ "export const decoder: Decoder<" ++ name ++ "> = string;";
      sp 4 ].

Definition writeScalarImpl (schema : GraphQLSchema) (name outputFile : string) : IO unit :=
  exists_ <- existsSync outputFile ;;
  if exists_ : bool then
    exports <- getExportsFromPath outputFile ;;
    if negb (Set_has name exports) then
      throw (ContractViolation outputFile name)
    else if negb (Set_has "serialize" exports) then
      throw (ContractViolation outputFile "serialize")
    else if negb (Set_has "decoder" exports) then
      throw (ContractViolation outputFile "decoder")
    else ret tt
  else
    let mod_ := ModuleBuilder.new "// @flow" in
    let mod_ := ModuleBuilder.addNamedImport "string" "decoders" mod_ in
    let mod_ := ModuleBuilder.addTypeImport "Decoder" "decoders" mod_ in
    let mod_ := ModuleBuilder.emit (scalarImplCode name) mod_ in
    code <- lift (ModuleBuilder.toString mod_) ;;
    writeCode code outputFile.

(** The names [writeScalarImpls] writes a scaffold for. *)
Definition scalarNames (schema : GraphQLSchema) : list string :=
  filter (fun model => instanceOfType schema model GraphQLScalarType)
         (namedTypesFromSchema schema).

(** The result of [checkOutputDir] is awaited and dropped: the function
    returns [undefined]. *)
Definition writeScalarImpls (schema : GraphQLSchema) (outputDir : string) : IO unit :=
  index <- writeScalarsIndex schema (Path.resolve cwd outputDir "index.js") ;;
  impls <- mapIO (fun name =>
                    let basename := name ++ ".js" in
                    let filename := Path.resolve cwd outputDir basename in
                    writeScalarImpl schema name filename ;;;
                    ret filename)
                 (scalarNames schema) ;;
  let files := index :: impls in
  _ <- checkOutputDir cwd outputDir js_pattern files ;;
  ret tt.

(** *** Interfaces and unions *)

Definition interfaceImplCode (schema : GraphQLSchema) (name : string) : string :=
  let type := getType schema name in
  let concretes := getConcreteSubtypes schema name in
  let kind :=
    match type with
    | Some (UnionType _ _) => "union"
    | _ => "abstract interface"
    end in
  template
    [ "";
      sp 8 ++ "export function dispatch(value: " ++ name ++ "): " ++ name ++ "$typename {";
      sp 12 ++ "// TODO: Implement how to distinguish which concrete type "
        ++ dq ++ "value" ++ dq ++ " is";
      sp 12 ++ JsString.join (JsString.newline ++ " else " ++ JsString.newline)
                 (map (fun c => "if (TODO) { return " ++ JsString.JSON_stringify c ++ "; }")
                      concretes);
      sp 12 ++ "throw new Error('Unknown concrete type for " ++ kind
        ++ " type " ++ name ++ ".');";
      sp 8 ++ "}";
      sp 2 ].

Definition writeInterfaceImpl (schema : GraphQLSchema) (name outputFile : string) : IO unit :=
  exists_ <- existsSync outputFile ;;
  if exists_ : bool then
    exports <- getExportsFromPath outputFile ;;
    if negb (Set_has "dispatch" exports) then
      throw (ContractViolation outputFile "dispatch")
    else ret tt
  else
    let mod_ := ModuleBuilder.new "// @flow" in
    let mod_ := ModuleBuilder.addTypeImport name "../types" mod_ in
    let mod_ := ModuleBuilder.addTypeImport (name ++ "$typename") "../types" mod_ in
    let mod_ := ModuleBuilder.emit (interfaceImplCode schema name) mod_ in
    code <- lift (ModuleBuilder.toString mod_) ;;
    writeCode code outputFile.

(** The names [writeInterfaceImpls] writes a scaffold for. *)
Definition interfaceNames (schema : GraphQLSchema) : list string :=
  filter (fun name => isUnionOrInterfaceType name schema) (namedTypesFromSchema schema).

Definition writeInterfaceImpls (schema : GraphQLSchema) (outputDir : string) : IO bool :=
  files <- mapIO (fun name =>
                    let basename := name ++ ".js" in
                    let filename := Path.resolve cwd outputDir basename in
                    writeInterfaceImpl schema name filename ;;;
                    ret basename)
                 (interfaceNames schema) ;;
  checkOutputDir cwd outputDir js_pattern files.

(** *** Resolver types *)

(** The two aliases emitted for a union or an interface. *)
Definition interfaceDef (schema : GraphQLSchema) (name : string) : string :=
  let concretes := getConcreteSubtypes schema name in
  template
    [ "";
      sp 16 ++ "export type " ++ name ++ " = " ++ JsString.join " | " concretes ++ ";";
      sp 16 ++ "export type " ++ name ++ "$typename = "
        ++ JsString.join " | " (map JsString.JSON_stringify concretes) ++ ";";
      sp 12 ].

(** [typeNames.map(...).filter(Boolean)] for the input object types. *)
Definition inputTypeDefs (schema : GraphQLSchema) : Result (list string) :=
  bindR (mapR (fun name =>
                 match getType schema name with
                 | Some (InputObjectType _ _ as node) =>
                     bindR (toFlowInputTypeDefinition node) (fun def =>
                     Ok (Some ("type " ++ name ++ " = " ++ def ++ ";" ++ JsString.newline)))
                 | _ => Ok None
                 end)
              (namedTypesFromSchema schema))
        (fun defs => Ok (filterBoolean defs)).

Definition resolverDefs (schema : GraphQLSchema) : Result (list string) :=
  bindR (mapR (fun name =>
                 match getType schema name with
                 | Some (InputObjectType _ _) => Ok None
                 | Some node =>
                     bindR (toResolverTypeDefinition node) (fun def => Ok (Some def))
                 | None => Err (NotImplemented "undefined")
                 end)
              (filter (fun name => negb (instanceOfType schema name GraphQLUnionType))
                      (namedTypesFromSchema schema)))
        (fun defs => Ok (filterBoolean defs)).

Definition scalarTypeNames (schema : GraphQLSchema) : list string :=
  filter (fun name => instanceOfType schema name GraphQLScalarType)
    (filter (fun name => negb (Set_has name BUILTINS)) (namedTypesFromSchema schema)).

Definition modelNames (schema : GraphQLSchema) : list string :=
  filter (fun name => instanceOfType schema name GraphQLObjectType)
    (filter (fun name => negb (Set_has name ROOT_TYPES)) (namedTypesFromSchema schema)).

Definition interfaceDefs (schema : GraphQLSchema) : list string :=
  map (interfaceDef schema) (interfaceNames schema).

Definition resolverTypesCode (interfaceDefs inputTypeDefs resolverDefs : list string)
  : string :=
  let blank := JsString.newline ++ JsString.newline in
  template
    [ "";
      sp 12 ++ "type Resolver<P, T, A = {| ...null |}> = (";
      sp 16 ++ "parent: P,";
      sp 16 ++ "args: A,";
      sp 16 ++ "context: Context,";
      sp 16 ++ "info: GraphQLResolveInfo,";
      sp 12 ++ ") => T | Promise<T>;";
      "";
      sp 12 ++ JsString.join blank interfaceDefs;
      sp 12 ++ JsString.join blank inputTypeDefs;
      sp 12 ++ JsString.join blank resolverDefs;
      sp 8 ].

Definition writeResolverTypes (schema : GraphQLSchema) (outputFile : string) : IO unit :=
  inputs <- lift (inputTypeDefs schema) ;;
  resolvers <- lift (resolverDefs schema) ;;
  let mod_ := ModuleBuilder.new HEADER_COMMENT in
  mod_ <- lift (ModuleBuilder.emitWith
                  (fun mod_ =>
                     let mod_ := ModuleBuilder.addTypeImport "Context" "../context" mod_ in
                     let mod_ := ModuleBuilder.addTypeImport "GraphQLResolveInfo" "graphql" mod_ in
                     let mod_ :=
                       fold_left (fun mod_ imp => ModuleBuilder.addTypeImport imp "../scalars" mod_)
                                 (scalarTypeNames schema) mod_ in
                     let mod_ :=
                       fold_left (fun mod_ imp => ModuleBuilder.addTypeImport imp "../models" mod_)
                                 (modelNames schema) mod_ in
                     Ok (resolverTypesCode (interfaceDefs schema) inputs resolvers, mod_))
                  mod_) ;;
  code <- lift (ModuleBuilder.toString mod_) ;;
  writeCode code outputFile.

(** *** Models and context *)

Definition writeModelsScaffold (schema : GraphQLSchema) (outputFile : string) : IO unit :=
  let modelNames :=
    filter (fun name => negb (Set_has name ROOT_TYPES))
      (filter (fun name => instanceOfType schema name GraphQLObjectType)
         (namedTypesFromSchema schema)) in
  exists_ <- existsSync outputFile ;;
  origCode <- (if negb exists_ then ret ("// @flow" ++ JsString.newline ++ JsString.newline)
               else read outputFile) ;;
  exportedTypes <- (if exists_ : bool then getExportsFromPath outputFile else ret []) ;;
  let missingModelNames :=
    filter (fun name => negb (Set_has name exportedTypes)) modelNames in
  if (0 <? List.length missingModelNames)%nat then
    let code :=
      template
        [ "";
          sp 12 ++ origCode;
          "";
          sp 12 ++ JsString.join JsString.newline
                     (map (fun name =>
                             "export type " ++ name
                               ++ " = TODO; // TODO: Replace this with your own data type")
                          missingModelNames);
          sp 8 ] in
    writeCode code outputFile
  else ret tt.

Definition writeContextScaffold (schema : GraphQLSchema) (outputFile : string) : IO unit :=
  exists_ <- existsSync outputFile ;;
  origCode <- (if negb exists_ then ret ("// @flow" ++ JsString.newline ++ JsString.newline)
               else read outputFile) ;;
  exports <- (if exists_ : bool then getExportsFromPath outputFile else ret []) ;;
  let code := origCode in
  let code :=
    if negb (Set_has "Context" exports) then
      code ++ template
                [ "";
                  "";
                  sp 12 ++ "// TODO: Replace with your custom Context, as desired";
                  sp 12 ++ "export type Context = mixed;";
                  sp 8 ]
    else code in
  let code :=
    if negb (Set_has "makeContext" exports) then
      code ++ template
                [ "";
                  "";
                  sp 12 ++ "export function makeContext(req: express$Request): Context {";
                  sp 16 ++ "// TODO: Implement your own initial context for the current request";
                  sp 16 ++ "return null;";
                  sp 12 ++ "}";
                  sp 8 ]
    else code in
  if negb (String.eqb code origCode) then writeCode code outputFile else ret tt.

(** *** Resolver implementations *)

(** [invariant(condition, message)] *)
Definition invariant (condition : bool) (message : string) : IO unit :=
  if condition then ret tt else throw (InvariantViolation message).

Definition resolverImplField (modelName instName fieldName : string) : string :=
  if Set_has modelName ROOT_TYPES then
    template
      [ fieldName ++ ": (_, args, context) => {";
        sp 26 ++ "// TODO: Replace this with your desired implementation";
        sp 22 ++ "}," ]
  else fieldName ++ ": " ++ instName ++ " => " ++ instName ++ "." ++ fieldName ++ ",".

Definition resolverImplCode (modelName instName : string) (objType : NamedType) : string :=
  let sections :=
    map (fun iface =>
           "" :: ("// From " ++ iface_name iface)
              :: map (fun ifieldName =>
                        ifieldName ++ ": " ++ instName ++ " => " ++ instName ++ "."
                          ++ ifieldName ++ ",")
                     (Object_keys (iface_fields iface)))
        (getInterfaces objType) in
  let seen := seenFields objType in
  let fields := getFields objType in
  JsString.join JsString.newline
    ("{" :: map (fun section => JsString.join JsString.newline section) sections
         ++ "" :: map (resolverImplField modelName instName)
                      (filter (fun name => negb (Set_has name seen)) (Object_keys fields))
         ++ ["}"]).

Definition writeResolverImpl (schema : GraphQLSchema) (modelName outputFile : string)
  : IO unit :=
  exists_ <- existsSync outputFile ;;
  if exists_ : bool then ret tt
  else
    let instName := lowerCaseFirst modelName in
    let resolverTypeName := modelName ++ "Resolver" in
    let resolverInstanceName := lowerCaseFirst resolverTypeName in
    let objType := getType schema modelName in
    invariant (match objType with Some _ => true | None => false end)
              ("Type " ++ modelName ++ " not found in schema") ;;;
    invariant (instanceOfType schema modelName GraphQLObjectType)
              ("Type " ++ modelName ++ " expected to be of GraphQLObjectType") ;;;
    match objType with
    | Some objType =>
        let impl := resolverImplCode modelName instName objType in
        let mod_ := ModuleBuilder.new "// @flow" in
        let mod_ := ModuleBuilder.addTypeImport resolverTypeName "../types" mod_ in
        let mod_ :=
          ModuleBuilder.emit
            ("const " ++ resolverInstanceName ++ ": " ++ resolverTypeName ++ " = "
               ++ impl ++ ";") mod_ in
        let mod_ := ModuleBuilder.emit ("export default " ++ resolverInstanceName ++ ";") mod_ in
        code <- lift (ModuleBuilder.toString mod_) ;;
        writeCode code outputFile
    | None => ret tt
    end.

(** The names [writeResolverImpls] writes a scaffold for, and the root
    resolver map lists. *)
Definition resolverNames (schema : GraphQLSchema) : list string :=
  filter (fun model => instanceOfType schema model GraphQLObjectType)
         (namedTypesFromSchema schema).

Definition scalarDecl (schema : GraphQLSchema) (name : string) : string :=
  let descr :=
    match getType schema name with
    | Some type => match getDescription type with
                   | Some d => if JsString.truthy d then d else ""
                   | None => ""
                   end
    | None => ""
    end in
  name ++ ": makeScalar('" ++ name ++ "', " ++ JsString.JSON_stringify descr ++ ", "
    ++ name ++ ".decoder, " ++ name ++ ".serialize),".

Definition resolverMapCode (resolverDecls interfaceDecls scalarDecls : string) : string :=
  template
    [ "";
      sp 12 ++ "const resolverMap = {";
      sp 16 ++ (if JsString.truthy resolverDecls then "// Resolvers" else "");
      sp 16 ++ resolverDecls;
      "";
      sp 16 ++ (if JsString.truthy interfaceDecls then "// Interfaces" else "");
      sp 16 ++ interfaceDecls;
      "";
      sp 16 ++ (if JsString.truthy scalarDecls then "// Scalars" else "");
      sp 16 ++ scalarDecls;
      sp 12 ++ "};";
      "";
      sp 12 ++ "export default resolverMap;";
      sp 8 ].

Definition rootResolverCallback (schema : GraphQLSchema) (mod_ : ModuleBuilder.t)
  : Result (string * ModuleBuilder.t) :=
  let mod_ :=
    fold_left (fun mod_ name =>
                 ModuleBuilder.addNamespaceImport name ("../scalars/" ++ name)
                   (ModuleBuilder.addNamedImport "makeScalar" "lib/graphql-tools" mod_))
              (scalarNames schema) mod_ in
  let scalarDecls :=
    JsString.join JsString.newline (map (scalarDecl schema) (scalarNames schema)) in
  let mod_ :=
    fold_left (fun mod_ name =>
                 ModuleBuilder.addNamespaceImport name ("../interfaces/" ++ name) mod_)
              (interfaceNames schema) mod_ in
  let interfaceDecls :=
    JsString.join JsString.newline
      (map (fun name => name ++ ": { __resolveType: " ++ name ++ ".dispatch },")
           (interfaceNames schema)) in
  let resolverDecls :=
    JsString.join JsString.newline (map (fun name => name ++ ",") (resolverNames schema)) in
  let mod_ :=
    fold_left (fun mod_ name =>
                 ModuleBuilder.addDefaultImport name ("./" ++ name ++ "Resolver") mod_)
              (resolverNames schema) mod_ in
  Ok (resolverMapCode resolverDecls interfaceDecls scalarDecls, mod_).

Definition writeRootResolverImpl (schema : GraphQLSchema) (outputFile : string) : IO string :=
  let mod_ := ModuleBuilder.new HEADER_COMMENT in
  mod_ <- lift (ModuleBuilder.emitWith (rootResolverCallback schema) mod_) ;;
  code <- lift (ModuleBuilder.toString mod_) ;;
  writeCode code outputFile ;;;
  ret outputFile.

Definition writeResolverImpls (schema : GraphQLSchema) (outputDir : string) : IO bool :=
  index <- writeRootResolverImpl schema (Path.resolve cwd outputDir "index.js") ;;
  impls <- mapIO (fun name =>
                    let basename := name ++ "Resolver.js" in
                    let outputPath := Path.resolve cwd outputDir basename in
                    writeResolverImpl schema name outputPath ;;;
                    ret basename)
                 (resolverNames schema) ;;
  let files := index :: impls in
  checkOutputDir cwd outputDir resolver_pattern files.

(** *** The run *)

(** What a generator resolves to: [undefined] or a boolean. *)
Definition void {A : Type} (c : IO A) : IO (option bool) :=
  _ <- c ;; ret None.

Definition boolean (c : IO bool) : IO (option bool) :=
  b <- c ;; ret (Some b).

(** [rv => rv === undefined || rv] *)
Definition passes (rv : option bool) : bool :=
  match rv with
  | None => true
  | Some b => b
  end.

(** The results of the six generators, in the order of the array. *)
Definition generate (schema : GraphQLSchema) (schemaDir : string)
  : IO (list (option bool)) :=
  r1 <- void (writeResolverTypes schema (Path.resolve cwd schemaDir "types/index.js")) ;;
  r2 <- void (writeContextScaffold schema (Path.resolve cwd schemaDir "context/index.js")) ;;
  r3 <- void (writeModelsScaffold schema (Path.resolve cwd schemaDir "models/index.js")) ;;
  r4 <- void (writeScalarImpls schema (Path.resolve cwd schemaDir "scalars/")) ;;
  r5 <- boolean (writeInterfaceImpls schema (Path.resolve cwd schemaDir "interfaces/")) ;;
  r6 <- boolean (writeResolverImpls schema (Path.resolve cwd schemaDir "resolvers/")) ;;
  ret [r1; r2; r3; r4; r5; r6].

(** [Some 1] when the function ends the process with [process.exit(1)],
    [None] when it returns. *)
Definition runWithOptions (options : ProgramOptions) : IO (option nat) :=
  let schemaFile := schemaFile options in
  let schemaDir := Path.dirname schemaFile in
  source <- read schemaFile ;;
  schema <- lift (buildSchema source) ;;
  results <- generate schema schemaDir ;;
  if negb (forallb passes results) then ret (Some 1) else ret None.

(** The exit code of [run] when a schema file is given: the [catch]
    handler exits with 1, a run that returns ends with 0. *)
Definition run (options : ProgramOptions) (fs : FileSystem) : nat * FileSystem :=
  match runWithOptions options fs with
  | (Ok (Some code), fs') => (code, fs')
  | (Ok None, fs') => (0, fs')
  | (Err _, fs') => (1, fs')
  end.

End Generator.

(* ------------------------------------------------------------------------- *)
(** ** Example inputs *)

(** Mappings that handle scalars only and have no default. *)
Definition scalarsOnly_output : OutputTypeDispatchers TypeRef JsValue unit :=
  {| onScalar := Some scalarHandler; onNonNull := None; onObject := None;
     onList := None; onEnum := None; onInterface := None; onUnion := None;
     default := None |}.

Definition scalarsOnly_input : InputTypeDispatchers TypeRef JsValue unit :=
  {| onScalar_ := Some scalarHandler; onEnum_ := None; onObject_ := None;
     onList_ := None; onNonNull_ := None; default_ := None |}.

(** Fields of the example schemas. *)
Definition userField : GraphQLField :=
  {| field_name := "user"; field_type := Object "User"; field_args := [] |}.

Definition idField : GraphQLField :=
  {| field_name := "id"; field_type := NonNull (Scalar "ID"); field_args := [] |}.

Definition nameField : GraphQLField :=
  {| field_name := "name"; field_type := Scalar "String"; field_args := [] |}.

(** A schema with the root type [Query], two builtin scalars and an
    introspection type. *)
Definition schema_roots : GraphQLSchema :=
  [ ("Query", ObjectType "Query" [] [userField]);
    ("User", ObjectType "User" [] [idField; nameField]);
    ("String", ScalarType "String" None);
    ("ID", ScalarType "ID" None);
    ("__Schema", ObjectType "__Schema" [] []) ].

(** The same types, inserted in another order. *)
Definition schema_roots_permuted : GraphQLSchema :=
  [ ("__Schema", ObjectType "__Schema" [] []);
    ("User", ObjectType "User" [] [idField; nameField]);
    ("ID", ScalarType "ID" None);
    ("Query", ObjectType "Query" [] [userField]);
    ("String", ScalarType "String" None) ].

Definition nodeInterface : InterfaceDef :=
  {| iface_name := "Node"; iface_fields := [idField] |}.

(** A union that declares its members in another order than the
    alphabetical one, and an interface that the same types implement. *)
Definition schema_union : GraphQLSchema :=
  [ ("Cat", ObjectType "Cat" [nodeInterface] [idField; nameField]);
    ("Bird", ObjectType "Bird" [nodeInterface] [idField]);
    ("Node", InterfaceType nodeInterface);
    ("Pet", UnionType "Pet" ["Cat"; "Bird"]) ].

(** An object type that implements two interfaces which both declare [id],
    and redeclares it. *)
Definition entityInterface : InterfaceDef :=
  {| iface_name := "Entity"; iface_fields := [idField] |}.

Definition userType : NamedType :=
  ObjectType "User" [nodeInterface; entityInterface] [idField; nameField].

(** An object type that implements one interface and redeclares its field. *)
Definition catType : NamedType :=
  ObjectType "Cat" [nodeInterface] [idField; nameField].

(** A schema with a custom scalar and an interface, its file, and stand-ins
    for the external collaborators: a formatter that returns its input, and
    an export scanner that reads a module as the list of its exported
    identifiers separated by spaces. *)
Definition schema_scalars : GraphQLSchema :=
  [ ("Query", ObjectType "Query" [] [userField]);
    ("User", ObjectType "User" [nodeInterface] [idField; nameField]);
    ("Node", InterfaceType nodeInterface);
    ("Date", ScalarType "Date" None);
    ("String", ScalarType "String" None);
    ("ID", ScalarType "ID" None) ].

Fixpoint words (source : string) : list string :=
  match source with
  | EmptyString => [EmptyString]
  | String c source' =>
      if Ascii.eqb c " " then EmptyString :: words source'
      else match words source' with
           | w :: ws => String c w :: ws
           | [] => [String c EmptyString]
           end
  end.

Definition exampleScanner (source : string) : Result (list string) := Ok (words source).

Definition exampleOptions : ProgramOptions :=
  {| schemaFile := "/api/schema.graphql"; verbose := false |}.

Definition exampleRun (fs : FileSystem) : nat * FileSystem :=
  run "/" (fun code => Ok code) exampleScanner (fun _ => Ok schema_scalars)
      (fun s => s) exampleOptions fs.

Definition fs_clean : FileSystem :=
  {| fs_files := [("/api/schema.graphql", "scalar Date")]; fs_dirs := ["/api"] |}.

(** A file the run does not produce, in the directory of the scalars. *)
Definition fs_scalar_orphan : FileSystem :=
  {| fs_files := [("/api/schema.graphql", "scalar Date");
                  ("/api/scalars/Old.js", "Old serialize decoder")];
     fs_dirs := ["/api"; "/api/scalars"] |}.

(** The same file in the directory of the interfaces. *)
Definition fs_interface_orphan : FileSystem :=
  {| fs_files := [("/api/schema.graphql", "scalar Date");
                  ("/api/interfaces/Old.js", "dispatch")];
     fs_dirs := ["/api"; "/api/interfaces"] |}.

(** An existing scaffold of the scalar [Date] that exports no [decoder]. *)
Definition fs_no_decoder : FileSystem :=
  {| fs_files := [("/api/schema.graphql", "scalar Date");
                  ("/api/scalars/Date.js", "Date serialize")];
     fs_dirs := ["/api"; "/api/scalars"] |}.

(** Producers of definitions: one that returns its code and one that
    throws. *)
Inductive ExampleProducer : Type :=
| Constant (code : string)
| Throws (e : Error).

Definition exampleCall (producer : ExampleProducer) (b : Registry.t ExampleProducer)
  : Registry.Call ExampleProducer string :=
  match producer with
  | Constant code => (inl code, b)
  | Throws e => (inr (Registry.Raised e), b)
  end.

Definition registry_decoders : Registry.t ExampleProducer :=
  snd (Registry.registerDef "broken" (Throws (TypeError "producer"))
         (snd (Registry.registerDef "decoders" (Constant "const decoders = {};")
                 (Registry.new ExampleProducer "// @flow")))).

(* ------------------------------------------------------------------------- *)
(** ** Vocabulary of the statements *)

Definition isNonNull (t : TypeRef) : bool :=
  match t with NonNull _ => true | _ => false end.

(** A scalar whose name is a property that [FLOW_SCALARS] inherits from
    [Object.prototype]. *)
Definition inheritedScalar (t : TypeRef) : bool :=
  match t with
  | Scalar n => Set_has n (map fst Object_prototype)
  | _ => false
  end.

(** A reference the renderers accept: a named type other than a scalar has
    a non-empty name, and a non-null wrapper wraps a nullable type that is
    not a scalar with an inherited name. *)
Fixpoint wellFormed (t : TypeRef) : bool :=
  match t with
  | Scalar _ => true
  | Object n | Interface n | Union n | Enum n | InputObject n => JsString.truthy n
  | List t' => wellFormed t'
  | NonNull t' => negb (isNonNull t') && negb (inheritedScalar t') && wellFormed t'
  end.

(** The value is a string. *)
Definition isString (v : JsValue) : bool :=
  match v with StringValue _ => true | _ => false end.

(** The handler a partial mapping holds for a class of node. *)
Definition outputHandler {N O C : Type} (d : OutputTypeDispatchers N O C) (c : Variant)
  : option (Handler N O C) :=
  match c with
  | GraphQLScalarType => onScalar d
  | GraphQLNonNull => onNonNull d
  | GraphQLObjectType => onObject d
  | GraphQLList => onList d
  | GraphQLEnumType => onEnum d
  | GraphQLInterfaceType => onInterface d
  | GraphQLUnionType => onUnion d
  | GraphQLInputObjectType => None
  end.

Definition inputHandler {N O C : Type} (d : InputTypeDispatchers N O C) (c : Variant)
  : option (Handler N O C) :=
  match c with
  | GraphQLScalarType => onScalar_ d
  | GraphQLEnumType => onEnum_ d
  | GraphQLInputObjectType => onObject_ d
  | GraphQLList => onList_ d
  | GraphQLNonNull => onNonNull_ d
  | GraphQLObjectType | GraphQLInterfaceType | GraphQLUnionType => None
  end.

(** The lines of a resolver shape that were emitted for the field [f]. *)
Definition keyed (f : string) (l : Line) : bool :=
  match line_key l with
  | Some k => String.eqb k f
  | None => false
  end.

Definition occurrences (f : string) (lines : list Line) : nat :=
  List.length (filter (keyed f) lines).

(** All the lines between the opening and the closing line of a shape. *)
Definition shapeLines (node : NamedType) : Result (list Line) :=
  bindR (sectionLines node) (fun sections =>
  bindR (ownLines node) (fun own => Ok (concat sections ++ own)%list)).

(** The interface declares a field of that name. *)
Definition declares (f : string) (iface : InterfaceDef) : bool :=
  Set_has f (Object_keys (iface_fields iface)).

(** The types of a field and of its arguments are well formed. *)
Definition fieldOk (field : GraphQLField) : bool :=
  wellFormed (field_type field)
  && forallb (fun arg => wellFormed (arg_type arg)) (field_args field).

(** The keys of an object are distinct. *)
Fixpoint distinct (keys : list string) : bool :=
  match keys with
  | [] => true
  | k :: keys' => negb (Set_has k keys') && distinct keys'
  end.

Definition shapeOk (node : NamedType) : bool :=
  forallb (fun iface =>
             forallb fieldOk (iface_fields iface)
             && distinct (Object_keys (iface_fields iface)))
          (getInterfaces node)
  && forallb fieldOk (getFields node).

(** The representation invariant of a [Map] of [Set]s: distinct keys, and
    sets that are never empty and hold no identifier twice. *)
Definition setsOk (imports : list (string * list string)) : bool :=
  distinct (map fst imports)
  && forallb (fun entry => distinct (snd entry)
                           && negb (Nat.eqb (List.length (snd entry)) 0))
             imports.

Definition wfBuilder (m : ModuleBuilder.t) : bool :=
  setsOk (ModuleBuilder._namedImports m) && setsOk (ModuleBuilder._typeImports m).

(** Identifiers in ascending order of their lower-case forms. *)
Definition caseInsensitive (identifiers : list string) : Prop :=
  StronglySorted
    (fun a b => String.leb (JsString.toLowerCase a) (JsString.toLowerCase b) = true)
    identifiers.

(** The sorted tuples of the named-import group. *)
Definition namedGroup (keyed : list (nat * string * string)) : list (nat * string * string) :=
  filter (fun tuple => Nat.eqb (fst (fst tuple)) 1) keyed.

(** Two elements in the order of their sort keys. *)
Definition ordered {A K : Type} (leK : K -> K -> bool) (key : A -> K) (x y : A) : Prop :=
  leK (key x) (key y) = true.

(** Strings in ascending order. *)
Definition alphabetical (l : list string) : Prop :=
  StronglySorted (fun a b => String.leb a b = true) l.

(** The two filters of the canonical type index. *)
Definition notIntrospection (name : string) : bool :=
  negb (JsString.startsWith "__" name).

Definition notBuiltin (name : string) : bool := negb (Set_has name BUILTINS).

(** Lines emitted for the names [keys], one each. *)
Definition emittedFor (keys : list string) (entries : list Line) : Prop :=
  Forall2 (fun name line => line_key line = Some name) keys entries.

(** The text of a line emitted for a field starts with the name of that
    field and the resolver type. *)
Definition signatureLine (line : Line) : Prop :=
  forall f, line_key line = Some f ->
            exists rest, line_text line = f ++ ": Resolver<" ++ rest.

(** The text of a resolver shape: the opening line, the joined sections,
    the lines of the own fields and the closing line. *)
Definition shapeText (name : string) (sections : list (list Line)) (own : list Line)
  : string :=
  JsString.join JsString.newline
    (("export type " ++ name ++ "Resolver = {|")
       :: map (fun lines => JsString.join JsString.newline (texts lines)) sections
       ++ texts own ++ ["|}"]).

(** What the section of one interface holds. *)
Definition sectionOf (node : NamedType) (iface : InterfaceDef) (lines : list Line) : Prop :=
  exists entries,
    lines = plain "" :: plain ("// From " ++ iface_name iface) :: entries
    /\ mapR (fieldLine node (iface_fields iface)) (Object_keys (iface_fields iface))
       = Ok entries
    /\ forall f, In f (Object_keys (iface_fields iface)) -> occurrences f lines = 1.

(** A sequence of [addNamedImport(identifier, from_)] calls. *)
Definition registerAll (registrations : list (string * string)) (m : ModuleBuilder.t)
  : ModuleBuilder.t :=
  fold_left (fun m registration =>
               ModuleBuilder.addNamedImport (fst registration) (snd registration) m)
            registrations m.

(** The identifier is in the set of named imports of the module. *)
Definition registered (identifier from_ : string) (m : ModuleBuilder.t) : Prop :=
  exists identifiers,
    ModuleBuilder.Map_get from_ (ModuleBuilder._namedImports m) = Some identifiers
    /\ In identifier identifiers.

(** The errors of a reference renderer. *)
Definition referenceError (e : Error) : Prop :=
  (exists node, e = MissingTypeName node)
  \/ (exists s, e = MalformedNullableExpr s)
  \/ e = TypeError "baseTypeExpr.endsWith is not a function".

(** The first type argument of a resolver signature. *)
Definition parentType (parentObj : NamedType) : string :=
  if Set_has (type_name parentObj) ROOT_TYPES then "null" else type_name parentObj.

(** The resolver definition of a named type of the schema. *)
Definition definitionOf (schema : GraphQLSchema) (name : string) : Result string :=
  match getType schema name with
  | Some node => toResolverTypeDefinition node
  | None => Err (NotImplemented "undefined")
  end.

(** The definition emitted for an input object type of the schema. *)
Definition inputDefinitionOf (schema : GraphQLSchema) (name : string) : Result string :=
  match getType schema name with
  | Some node =>
      bindR (toFlowInputTypeDefinition node) (fun def =>
      Ok ("type " ++ name ++ " = " ++ def ++ ";" ++ JsString.newline))
  | None => Err (NotImplemented "undefined")
  end.

(** The names of the index whose type gets a resolver definition. *)
Definition hasResolverDefinition (schema : GraphQLSchema) (name : string) : bool :=
  instanceOfType schema name GraphQLObjectType || instanceOfType schema name GraphQLEnumType.

(** The builders that the methods of the class produce from a new one. *)
Inductive Reachable : ModuleBuilder.t -> Prop :=
| Reachable_new (comment : string) : Reachable (ModuleBuilder.new comment)
| Reachable_emit (code : string) (m : ModuleBuilder.t) :
    Reachable m -> Reachable (ModuleBuilder.emit code m)
| Reachable_namespace (identifier from_ : string) (m : ModuleBuilder.t) :
    Reachable m -> Reachable (ModuleBuilder.addNamespaceImport identifier from_ m)
| Reachable_default (identifier from_ : string) (m : ModuleBuilder.t) :
    Reachable m -> Reachable (ModuleBuilder.addDefaultImport identifier from_ m)
| Reachable_named (identifier from_ : string) (m : ModuleBuilder.t) :
    Reachable m -> Reachable (ModuleBuilder.addNamedImport identifier from_ m)
| Reachable_type (identifier from_ : string) (m : ModuleBuilder.t) :
    Reachable m -> Reachable (ModuleBuilder.addTypeImport identifier from_ m).


(** The priority of a sorted import tuple. *)
Definition priorityOf (tuple : nat * string * string) : nat := fst (fst tuple).

(** The file system after [write(filename, contents)]. *)
Definition written (filename contents : string) (fs : FileSystem) : FileSystem :=
  {| fs_files := ModuleBuilder.Map_set filename contents (fs_files fs);
     fs_dirs := Set_add (Path.dirname filename) (fs_dirs fs) |}.

(** The text [writeModelsScaffold] hands to the formatter: the original
    code followed by one alias for each missing model. *)
Definition modelsScaffoldCode (origCode : string) (missingModelNames : list string)
  : string :=
  template
    [ "";
      sp 12 ++ origCode;
      "";
      sp 12 ++ JsString.join JsString.newline
                 (map (fun name =>
                         "export type " ++ name
                           ++ " = TODO; // TODO: Replace this with your own data type")
                      missingModelNames);
      sp 8 ].

(** What a scaffold writer reads of its output file: the code and the
    exports of the file when it exists, the header and no export when it
    does not. *)
Definition scaffoldSource (exportsOfSource : string -> Result (list string))
           (outputFile origCode : string) (exports : list string) (fs : FileSystem)
  : Prop :=
  (existsSync outputFile fs = (Ok false, fs)
   /\ origCode = "// @flow" ++ JsString.newline ++ JsString.newline
   /\ exports = [])
  \/ (lookup outputFile (fs_files fs) = Some origCode
      /\ exportsOfSource origCode = Ok exports).

(** The registrations of the root resolver callback for one scalar, one
    interface or union, and one object type. *)
Definition scalarStep (mod_ : ModuleBuilder.t) (name : string) : ModuleBuilder.t :=
  ModuleBuilder.addNamespaceImport name ("../scalars/" ++ name)
    (ModuleBuilder.addNamedImport "makeScalar" "lib/graphql-tools" mod_).

Definition interfaceStep (mod_ : ModuleBuilder.t) (name : string) : ModuleBuilder.t :=
  ModuleBuilder.addNamespaceImport name ("../interfaces/" ++ name) mod_.

Definition resolverStep (mod_ : ModuleBuilder.t) (name : string) : ModuleBuilder.t :=
  ModuleBuilder.addDefaultImport name ("./" ++ name ++ "Resolver") mod_.

(** One step of the map of [resolverDefs]. *)
Definition resolverDefStep (schema : GraphQLSchema) (name : string)
  : Result (option string) :=
  match getType schema name with
  | Some (InputObjectType _ _) => Ok None
  | Some node => bindR (toResolverTypeDefinition node) (fun def => Ok (Some def))
  | None => Err (NotImplemented "undefined")
  end.

(** One step of the map of [inputTypeDefs]. *)
Definition inputDefStep (schema : GraphQLSchema) (name : string)
  : Result (option string) :=
  match getType schema name with
  | Some (InputObjectType _ _ as node) =>
      bindR (toFlowInputTypeDefinition node) (fun def =>
      Ok (Some ("type " ++ name ++ " = " ++ def ++ ";" ++ JsString.newline)))
  | _ => Ok None
  end.

(* ------------------------------------------------------------------------- *)
(** ** Strings *)

Section StringFacts.

Lemma length_append (a b : string) :
  String.length (a ++ b) = String.length a + String.length b.
Proof.
  induction a as [|c a IH]; simpl; [reflexivity | now rewrite IH].
Qed.

Lemma append_assoc (a b c : string) : (a ++ b) ++ c = a ++ (b ++ c).
Proof.
  induction a as [|x a IH]; simpl; [reflexivity | now rewrite IH].
Qed.

Lemma substring_zero (s : string) : String.substring 0 0 s = "".
Proof. destruct s; reflexivity. Qed.

Lemma substring_all (s : string) : String.substring 0 (String.length s) s = s.
Proof.
  induction s as [|c s IH]; simpl; [reflexivity | now rewrite IH].
Qed.

Lemma substring_skip (a b : string) (m : nat) :
  String.substring (String.length a) m (a ++ b) = String.substring 0 m b.
Proof.
  induction a as [|c a IH]; simpl; [reflexivity | exact IH].
Qed.

Lemma substring_take (a b : string) :
  String.substring 0 (String.length a) (a ++ b) = a.
Proof.
  induction a as [|c a IH]; simpl; [apply substring_zero | now rewrite IH].
Qed.

Lemma endsWith_append (a suffix : string) :
  JsString.endsWith suffix (a ++ suffix) = true.
Proof.
  unfold JsString.endsWith.
  rewrite length_append.
  replace (String.length a + String.length suffix - String.length suffix)
    with (String.length a) by lia.
  rewrite substring_skip, substring_all, String.eqb_refl.
  rewrite andb_true_r. apply Nat.leb_le. lia.
Qed.

Lemma nonOptional_append (base : string) :
  nonOptional (base ++ " | null") = Ok base.
Proof.
  unfold nonOptional. rewrite endsWith_append. simpl negb. cbv iota.
  unfold JsString.substring0. rewrite length_append.
  replace (String.length base + String.length " | null" - 7)
    with (String.length base) by (simpl; lia).
  now rewrite substring_take.
Qed.

Lemma nonOptional_malformed (s : string) :
  JsString.endsWith " | null" s = false ->
  nonOptional s = Err (MalformedNullableExpr s).
Proof. intros H. unfold nonOptional. now rewrite H. Qed.

End StringFacts.

(* ------------------------------------------------------------------------- *)
(** ** The reference renderer *)

Section Renderer.

Lemma render_Scalar (name : string) :
  toFlowOutputTypeRef (Scalar name) = Ok (scalarRef name).
Proof. reflexivity. Qed.

Lemma render_List (inner : TypeRef) :
  toFlowOutputTypeRef (List inner)
  = bindR (toFlowOutputTypeRef inner)
          (fun v => Ok (StringValue ("Array<" ++ JsValue_toString v ++ "> | null"))).
Proof. reflexivity. Qed.

Lemma render_NonNull (inner : TypeRef) :
  toFlowOutputTypeRef (NonNull inner)
  = bindR (toFlowOutputTypeRef inner) nonOptionalValue.
Proof. reflexivity. Qed.

Lemma lookup_absent {V : Type} (k : string) (m : list (string * V)) :
  Set_has k (map fst m) = false -> lookup k m = None.
Proof.
  unfold Set_has. induction m as [|[k' v] m IH]; simpl; [reflexivity|].
  rewrite (String.eqb_sym k k'). destruct (String.eqb k' k); simpl; [discriminate|].
  exact IH.
Qed.

(** A scalar whose name is not inherited renders as a string with the
    suffix. *)
Lemma scalarRef_suffix (name : string) :
  inheritedScalar (Scalar name) = false ->
  exists base, scalarRef name = StringValue (base ++ " | null").
Proof.
  intros Hown. unfold inheritedScalar in Hown.
  unfold scalarRef, FLOW_SCALARS_get. rewrite (lookup_absent _ _ Hown).
  unfold FLOW_SCALARS, lookup.
  repeat match goal with
         | |- context [String.eqb ?a name] => destruct (String.eqb a name)
         end;
    simpl;
    first [ now exists "string | number" | now exists "string" | now exists "number"
          | now exists "boolean" | now exists name ].
Qed.

(** A scalar whose name is inherited renders as the inherited value, which
    is not a string. *)
Lemma scalarRef_inherited (name : string) :
  inheritedScalar (Scalar name) = true ->
  exists v, lookup name Object_prototype = Some v
            /\ scalarRef name = v
            /\ isString v = false.
Proof.
  unfold inheritedScalar, Set_has. intros H.
  apply existsb_exists in H. destruct H as (k & Hin & Hk).
  apply String.eqb_eq in Hk. subst k. simpl in Hin.
  repeat (destruct Hin as [<-|Hin]; [eexists; repeat split; reflexivity|]).
  destruct Hin.
Qed.

Lemma scalarRef_isString (name : string) :
  isString (scalarRef name) = negb (inheritedScalar (Scalar name)).
Proof.
  destruct (inheritedScalar (Scalar name)) eqn:Hi.
  - destruct (scalarRef_inherited name Hi) as (v & _ & -> & Hv). exact Hv.
  - destruct (scalarRef_suffix name Hi) as [base ->]. reflexivity.
Qed.

Lemma namedRef_suffix (t : TypeRef) (n : string) :
  name_of t = Some n -> JsString.truthy n = true ->
  namedRef t = Ok (StringValue (n ++ " | null")).
Proof.
  intros Hn Ht. unfold namedRef. now rewrite Hn, Ht.
Qed.

(** A value is truthy exactly when its string is: [filter(Boolean)] keeps
    the values whose strings [join] then concatenates. *)
Lemma JsValue_truthy_toString (v : JsValue) :
  JsString.truthy (JsValue_toString v) = JsValue_truthy v.
Proof. destruct v; reflexivity. Qed.

Lemma nonOptionalValue_append (base : string) :
  nonOptionalValue (StringValue (base ++ " | null")) = Ok (StringValue base).
Proof. simpl. now rewrite nonOptional_append. Qed.

(** A well-formed reference renders, and the rendering of a nullable one
    that is not a scalar with an inherited name is a string with the
    suffix. *)
Lemma wellFormed_renders (t : TypeRef) :
  wellFormed t = true ->
  exists v, toFlowOutputTypeRef t = Ok v
            /\ (isNonNull t = false -> inheritedScalar t = false ->
                exists base, v = StringValue (base ++ " | null")).
Proof.
  induction t as [n|n|n|n|n|n|t IH|t IH]; simpl wellFormed; intros Hwf.
  - exists (scalarRef n). split; [apply render_Scalar|].
    intros _ Hown. exact (scalarRef_suffix n Hown).
  - exists (StringValue (n ++ " | null")). split; [|intros _ _; now exists n].
    change (toFlowOutputTypeRef (Object n)) with (namedRef (Object n)).
    now apply namedRef_suffix.
  - exists (StringValue (n ++ " | null")). split; [|intros _ _; now exists n].
    change (toFlowOutputTypeRef (Interface n)) with (namedRef (Interface n)).
    now apply namedRef_suffix.
  - exists (StringValue (n ++ " | null")). split; [|intros _ _; now exists n].
    change (toFlowOutputTypeRef (Union n)) with (namedRef (Union n)).
    now apply namedRef_suffix.
  - exists (StringValue (n ++ " | null")). split; [|intros _ _; now exists n].
    change (toFlowOutputTypeRef (Enum n)) with (namedRef (Enum n)).
    now apply namedRef_suffix.
  - exists (StringValue (n ++ " | null")). split; [|intros _ _; now exists n].
    change (toFlowOutputTypeRef (InputObject n)) with (namedRef (InputObject n)).
    now apply namedRef_suffix.
  - destruct (IH Hwf) as (v & Hv & _).
    exists (StringValue ("Array<" ++ JsValue_toString v ++ "> | null")). split.
    + rewrite render_List, Hv. reflexivity.
    + intros _ _. exists ("Array<" ++ JsValue_toString v ++ ">").
      rewrite !append_assoc. reflexivity.
  - apply andb_prop in Hwf. destruct Hwf as [Hwf Hwf'].
    apply andb_prop in Hwf. destruct Hwf as [Hnn Hown].
    apply negb_true_iff in Hnn. apply negb_true_iff in Hown.
    destruct (IH Hwf') as (v & Hv & Hsuf).
    destruct (Hsuf Hnn Hown) as [base ->].
    exists (StringValue base). split; [|discriminate].
    rewrite render_NonNull, Hv. simpl bindR. apply nonOptionalValue_append.
Qed.

(** Only a scalar with an inherited name renders as a value that is not a
    string. *)
Lemma render_isString (t : TypeRef) (v : JsValue) :
  toFlowOutputTypeRef t = Ok v -> isString v = negb (inheritedScalar t).
Proof.
  destruct t as [n|n|n|n|n|n|t|t].
  - rewrite render_Scalar. intros H. injection H as <-. apply scalarRef_isString.
  - change (toFlowOutputTypeRef (Object n)) with (namedRef (Object n)).
    unfold namedRef. destruct (negb _); [discriminate|]. now intros [= <-].
  - change (toFlowOutputTypeRef (Interface n)) with (namedRef (Interface n)).
    unfold namedRef. destruct (negb _); [discriminate|]. now intros [= <-].
  - change (toFlowOutputTypeRef (Union n)) with (namedRef (Union n)).
    unfold namedRef. destruct (negb _); [discriminate|]. now intros [= <-].
  - change (toFlowOutputTypeRef (Enum n)) with (namedRef (Enum n)).
    unfold namedRef. destruct (negb _); [discriminate|]. now intros [= <-].
  - change (toFlowOutputTypeRef (InputObject n)) with (namedRef (InputObject n)).
    unfold namedRef. destruct (negb _); [discriminate|]. now intros [= <-].
  - rewrite render_List. destruct (toFlowOutputTypeRef t); simpl; [|discriminate].
    now intros [= <-].
  - rewrite render_NonNull. destruct (toFlowOutputTypeRef t) as [[s| |]|]; simpl;
      try discriminate.
    destruct (nonOptional s); simpl; [|discriminate]. now intros [= <-].
Qed.

End Renderer.

(** C1: for a well-formed type reference [T] that is neither a non-null
    wrapper nor a scalar whose name [FLOW_SCALARS] inherits from
    [Object.prototype], the output-position rendering of [T] ends with the
    suffix " | null" and the rendering of [NonNull T] is the rendering of
    [T] with the suffix removed; when the rendering of the wrapped reference
    is a string that does not end with the suffix, rendering the wrapper
    throws the malformed-nullable error.  For a scalar with an inherited
    name, such as [constructor], the lookup in the table finds the inherited
    property: the rendering is that value, not a string with the suffix, and
    rendering the non-null wrapper throws a type error instead. *)
Theorem nonnull_strips_nullable_suffix :
  (forall T : TypeRef,
      wellFormed T = true -> isNonNull T = false -> inheritedScalar T = false ->
      exists base,
        toFlowOutputTypeRef T = Ok (StringValue (base ++ " | null"))
        /\ JsString.endsWith " | null" (base ++ " | null") = true
        /\ toFlowOutputTypeRef (NonNull T) = Ok (StringValue base))
  /\ (forall (inner : TypeRef) (s : string),
         toFlowOutputTypeRef inner = Ok (StringValue s) ->
         JsString.endsWith " | null" s = false ->
         toFlowOutputTypeRef (NonNull inner) = Err (MalformedNullableExpr s))
  /\ (forall name : string,
         inheritedScalar (Scalar name) = true ->
         exists v : JsValue,
           lookup name Object_prototype = Some v
           /\ isString v = false
           /\ toFlowOutputTypeRef (Scalar name) = Ok v
           /\ toFlowOutputTypeRef (NonNull (Scalar name))
              = Err (TypeError "baseTypeExpr.endsWith is not a function")).
Proof.
  split; [|split].
  - intros T Hwf Hnn Hown.
    destruct (wellFormed_renders T Hwf) as (v & Hv & Hsuf).
    destruct (Hsuf Hnn Hown) as [base ->].
    exists base. repeat split.
    + exact Hv.
    + apply endsWith_append.
    + rewrite render_NonNull, Hv. simpl bindR. apply nonOptionalValue_append.
  - intros inner s Hs Hend.
    rewrite render_NonNull, Hs. simpl. now rewrite (nonOptional_malformed s Hend).
  - intros name Hin.
    destruct (scalarRef_inherited name Hin) as (v & Hlookup & Href & Hv).
    exists v. split; [exact Hlookup|]. split; [exact Hv|]. split.
    + rewrite render_Scalar. now rewrite Href.
    + rewrite render_NonNull, render_Scalar, Href. simpl.
      destruct v; [discriminate | reflexivity | reflexivity].
Qed.

Lemma nonnull_strips_nullable_suffix_witness :
  (exists base,
      toFlowOutputTypeRef (List (NonNull (Scalar "ID")))
      = Ok (StringValue (base ++ " | null"))
      /\ JsString.endsWith " | null" (base ++ " | null") = true
      /\ toFlowOutputTypeRef (NonNull (List (NonNull (Scalar "ID"))))
         = Ok (StringValue base))
  /\ toFlowOutputTypeRef (NonNull (NonNull (Scalar "Date")))
     = Err (MalformedNullableExpr "Date")
  /\ exists v : JsValue,
       lookup "constructor" Object_prototype = Some v
       /\ isString v = false
       /\ toFlowOutputTypeRef (Scalar "constructor") = Ok v
       /\ toFlowOutputTypeRef (NonNull (Scalar "constructor"))
          = Err (TypeError "baseTypeExpr.endsWith is not a function").
Proof.
  split; [|split].
  - apply (proj1 nonnull_strips_nullable_suffix (List (NonNull (Scalar "ID"))));
      reflexivity.
  - apply (proj1 (proj2 nonnull_strips_nullable_suffix) (NonNull (Scalar "Date")) "Date");
      reflexivity.
  - apply (proj2 (proj2 nonnull_strips_nullable_suffix) "constructor"). reflexivity.
Defined.

(* ------------------------------------------------------------------------- *)
(** ** The dispatchers *)

Section Dispatchers.
Context {N O C : Type} `{GraphQLNode N}.

Lemma odispatch_unhandled (value : N) (d : OutputTypeDispatchers N O C) (context : C) :
  outputHandler d (classOf value) = None ->
  default d = None ->
  odispatch value d context = Err (UnhandledVariant (String_ value)).
Proof.
  intros Hh Hd. unfold odispatch, guarded, instanceof.
  destruct (classOf value); simpl in Hh |- *; rewrite ?Hh, ?Hd; reflexivity.
Qed.

Lemma idispatch_unhandled (value : N) (d : InputTypeDispatchers N O C) (context : C) :
  inputHandler d (classOf value) = None ->
  default_ d = None ->
  idispatch value d context = Err (TypeError "dispatchers.default is not a function").
Proof.
  intros Hh Hd. unfold idispatch, guarded, instanceof.
  destruct (classOf value); simpl in Hh |- *; rewrite ?Hh, ?Hd; reflexivity.
Qed.

End Dispatchers.

(** C5: when the class of the node has no handler in the mapping and the
    mapping has no default handler, [odispatch] throws the unhandled-variant
    error that names the node, while [idispatch] calls the absent default:
    the error is the runtime's [TypeError], which does not name the node. *)
Theorem dispatch_without_default :
  forall (N O C : Type) (node : GraphQLNode N) (value : N) (context : C),
    (forall d : OutputTypeDispatchers N O C,
        outputHandler d (classOf value) = None -> default d = None ->
        odispatch value d context = Err (UnhandledVariant (String_ value)))
    /\ (forall d : InputTypeDispatchers N O C,
           inputHandler d (classOf value) = None -> default_ d = None ->
           idispatch value d context
           = Err (TypeError "dispatchers.default is not a function")
           /\ idispatch value d context <> Err (UnhandledVariant (String_ value))).
Proof.
  intros N O C node value context. split.
  - intros d Hh Hd. now apply odispatch_unhandled.
  - intros d Hh Hd. rewrite (idispatch_unhandled value d context Hh Hd).
    split; [reflexivity | discriminate].
Qed.

Lemma dispatch_without_default_witness :
  odispatch (Enum "Color") scalarsOnly_output tt = Err (UnhandledVariant "Color")
  /\ idispatch (Enum "Color") scalarsOnly_input tt
     = Err (TypeError "dispatchers.default is not a function").
Proof.
  split.
  - exact (proj1 (dispatch_without_default TypeRef JsValue unit _ (Enum "Color") tt)
                 scalarsOnly_output eq_refl eq_refl).
  - exact (proj1 (proj2 (dispatch_without_default TypeRef JsValue unit _ (Enum "Color") tt)
                        scalarsOnly_input eq_refl eq_refl)).
Defined.

(* ------------------------------------------------------------------------- *)
(** ** [sortBy] sorts *)

Section SortFacts.
Context {A K : Type}.
Variable leK : K -> K -> bool.
Variable key : A -> K.

Lemma insertBy_perm (x : A) (l : list A) :
  Permutation (Lodash.insertBy leK key x l) (x :: l).
Proof.
  induction l as [|y l IH]; simpl.
  - apply Permutation_refl.
  - destruct (leK (key x) (key y)).
    + apply Permutation_refl.
    + eapply perm_trans; [apply perm_skip, IH | apply perm_swap].
Qed.

Lemma sortWith_perm (l : list A) : Permutation (Lodash.sortWith leK key l) l.
Proof.
  induction l as [|x l IH]; simpl.
  - apply perm_nil.
  - eapply perm_trans; [apply insertBy_perm | now apply perm_skip].
Qed.

Lemma sortWith_In (l : list A) (x : A) :
  In x (Lodash.sortWith leK key l) <-> In x l.
Proof.
  split; apply Permutation_in;
    [apply sortWith_perm | apply Permutation_sym, sortWith_perm].
Qed.

Lemma sortWith_length (l : list A) :
  List.length (Lodash.sortWith leK key l) = List.length l.
Proof. apply Permutation_length, sortWith_perm. Qed.

Hypothesis leK_total : forall a b, leK a b = true \/ leK b a = true.
Hypothesis leK_trans : forall a b c, leK a b = true -> leK b c = true -> leK a c = true.

Lemma insertBy_sorted (x : A) (l : list A) :
  StronglySorted (ordered leK key) l -> StronglySorted (ordered leK key) (Lodash.insertBy leK key x l).
Proof.
  induction l as [|y l IH]; simpl; intros Hs.
  - constructor; constructor.
  - inversion Hs as [|? ? Hl Hy]; subst.
    destruct (leK (key x) (key y)) eqn:E.
    + constructor; [exact Hs|].
      constructor; [exact E|].
      eapply Forall_impl; [|exact Hy].
      intros z Hz. unfold ordered in *. eapply leK_trans; eassumption.
    + constructor; [now apply IH|].
      eapply Permutation_Forall; [apply Permutation_sym, insertBy_perm|].
      constructor; [|exact Hy].
      unfold ordered. destruct (leK_total (key x) (key y)); congruence.
Qed.

Lemma sortWith_sorted (l : list A) :
  StronglySorted (ordered leK key) (Lodash.sortWith leK key l).
Proof.
  induction l as [|x l IH]; simpl.
  - constructor.
  - now apply insertBy_sorted.
Qed.

End SortFacts.

Section StringOrder.

Lemma leb_lt_eq (a b : string) :
  String.leb a b = true <-> a = b \/ OrderedTypeEx.String_as_OT.lt a b.
Proof.
  unfold String.leb.
  pose proof (OrderedTypeEx.String_as_OT.cmp_eq a b) as Heq.
  pose proof (OrderedTypeEx.String_as_OT.cmp_lt a b) as Hlt.
  unfold OrderedTypeEx.String_as_OT.cmp in *.
  destruct (String.compare a b); split; intros Hx; try reflexivity.
  - left. now apply Heq.
  - right. now apply Hlt.
  - discriminate.
  - destruct Hx as [Hx|Hx]; [apply Heq in Hx | apply Hlt in Hx]; discriminate.
Qed.

Lemma leb_trans (a b c : string) :
  String.leb a b = true -> String.leb b c = true -> String.leb a c = true.
Proof.
  rewrite !leb_lt_eq. intros [->|Hab] [->|Hbc]; auto.
  right. eapply OrderedTypeEx.String_as_OT.lt_trans; eassumption.
Qed.

Lemma sortBy_alphabetical (l : list string) : alphabetical (sortBy l).
Proof.
  apply (sortWith_sorted String.leb (fun s => s)).
  - apply String.leb_total.
  - apply leb_trans.
Qed.

Lemma sortBy_perm (l : list string) : Permutation (sortBy l) l.
Proof. apply sortWith_perm. Qed.

Lemma alphabetical_filter (p : string -> bool) (l : list string) :
  alphabetical l -> alphabetical (filter p l).
Proof.
  induction l as [|x l IH]; simpl; intros Hs; [constructor|].
  inversion Hs as [|? ? Hl Hx]; subst.
  destruct (p x); [|now apply IH].
  constructor; [now apply IH|].
  apply Forall_forall. intros y Hy. apply filter_In in Hy.
  rewrite Forall_forall in Hx. now apply Hx.
Qed.

(** Two sorted lists with the same elements, counted with multiplicity,
    are the same list. *)
Lemma alphabetical_unique (l1 l2 : list string) :
  alphabetical l1 -> alphabetical l2 -> Permutation l1 l2 -> l1 = l2.
Proof.
  revert l2. induction l1 as [|x l1 IH]; intros l2 H1 H2 Hp.
  - apply Permutation_nil in Hp. now subst.
  - destruct l2 as [|y l2].
    + apply Permutation_sym, Permutation_nil in Hp. discriminate.
    + inversion H1 as [|? ? Hs1 Hx]; subst.
      inversion H2 as [|? ? Hs2 Hy]; subst.
      rewrite Forall_forall in Hx, Hy.
      assert (x = y) as ->.
      { assert (In y (x :: l1)) as Hiny
            by (eapply Permutation_in; [apply Permutation_sym, Hp | now left]).
        assert (In x (y :: l2)) as Hinx
            by (eapply Permutation_in; [apply Hp | now left]).
        destruct Hiny as [->|Hiny]; [reflexivity|].
        destruct Hinx as [->|Hinx]; [reflexivity|].
        apply String.leb_antisym; [now apply Hx | now apply Hy]. }
      f_equal. apply IH; trivial.
      eapply Permutation_cons_inv; exact Hp.
Qed.

End StringOrder.

(* ------------------------------------------------------------------------- *)
(** ** The canonical type index *)

(** Closes a permutation goal between two explicit lists. *)
Ltac perm_solve :=
  simpl;
  match goal with
  | |- Permutation [] [] => apply perm_nil
  | |- Permutation (_ :: _) _ =>
      first [ apply perm_skip
            | apply Permutation_cons_app with (l1 := [_]); simpl
            | apply Permutation_cons_app with (l1 := [_; _]); simpl
            | apply Permutation_cons_app with (l1 := [_; _; _]); simpl
            | apply Permutation_cons_app with (l1 := [_; _; _; _]); simpl ];
      perm_solve
  end.

Section TypeIndex.

Lemma filter_perm {A : Type} (p : A -> bool) (l l' : list A) :
  Permutation l l' -> Permutation (filter p l) (filter p l').
Proof.
  induction 1 as [|x l l' Hp IH|x y l|l l' l'' H1 IH1 H2 IH2]; simpl.
  - apply perm_nil.
  - destruct (p x); [now apply perm_skip | exact IH].
  - destruct (p x), (p y); try apply Permutation_refl. apply perm_swap.
  - eapply perm_trans; eassumption.
Qed.

Lemma index_unfold (schema : GraphQLSchema) :
  namedTypesFromSchema schema
  = sortBy (filter notBuiltin (filter notIntrospection (map fst schema))).
Proof. reflexivity. Qed.

Lemma index_In (schema : GraphQLSchema) (name : string) :
  In name (namedTypesFromSchema schema)
  <-> In name (map fst (getTypeMap schema))
      /\ JsString.startsWith "__" name = false
      /\ Set_has name BUILTINS = false.
Proof.
  rewrite index_unfold. unfold sortBy. rewrite sortWith_In, !filter_In.
  unfold notBuiltin, notIntrospection, getTypeMap. rewrite !negb_true_iff. tauto.
Qed.

Lemma index_alphabetical (schema : GraphQLSchema) :
  alphabetical (namedTypesFromSchema schema).
Proof. rewrite index_unfold. apply sortBy_alphabetical. Qed.

Lemma index_no_introspection (schema : GraphQLSchema) (name : string) :
  JsString.startsWith "__" name = true -> ~ In name (namedTypesFromSchema schema).
Proof.
  intros Hs Hin. apply index_In in Hin. destruct Hin as (_ & Hn & _). congruence.
Qed.

End TypeIndex.

(** C3, as stated, fails: the index of a schema with a [Query] type holds the
    reserved root type name. *)
Lemma index_keeps_root_types :
  ~ (forall name : string,
        In name (namedTypesFromSchema schema_roots)
        <-> In name (map fst (getTypeMap schema_roots))
            /\ ~ In name ROOT_TYPES /\ ~ In name BUILTINS).
Proof.
  intros H. destruct (H "Query") as [Hin _].
  assert (In "Query" (namedTypesFromSchema schema_roots)) as Hq
      by (vm_compute; auto).
  destruct (Hin Hq) as (_ & Hroot & _).
  apply Hroot. simpl. auto.
Qed.

(** C3, amended: the canonical type index holds exactly the names of the
    type map that do not start with "__" and are not one of the five builtin
    scalar names (the root type names [Query] and [Mutation] stay in it), in
    ascending order of the strings; it depends on the names of the schema
    only, not on the order in which the type map holds them. *)
Theorem canonical_index_characterised :
  forall schema : GraphQLSchema,
    (forall name : string,
        In name (namedTypesFromSchema schema)
        <-> In name (map fst (getTypeMap schema))
            /\ JsString.startsWith "__" name = false
            /\ Set_has name BUILTINS = false)
    /\ Permutation (namedTypesFromSchema schema)
         (filter (fun name => negb (Set_has name BUILTINS))
            (filter (fun name => negb (JsString.startsWith "__" name))
               (map fst (getTypeMap schema))))
    /\ alphabetical (namedTypesFromSchema schema)
    /\ (forall schema' : GraphQLSchema,
           Permutation (map fst (getTypeMap schema)) (map fst (getTypeMap schema')) ->
           namedTypesFromSchema schema' = namedTypesFromSchema schema).
Proof.
  intros schema. split; [|split; [|split]].
  - intros name. apply index_In.
  - apply sortBy_perm.
  - apply index_alphabetical.
  - intros schema' Hp. apply alphabetical_unique; try apply index_alphabetical.
    rewrite !index_unfold.
    eapply perm_trans; [apply sortBy_perm|].
    eapply perm_trans; [|apply Permutation_sym, sortBy_perm].
    apply filter_perm, filter_perm, Permutation_sym, Hp.
Qed.

Lemma canonical_index_characterised_witness :
  (In "Query" (namedTypesFromSchema schema_roots)
   <-> In "Query" (map fst (getTypeMap schema_roots))
       /\ JsString.startsWith "__" "Query" = false
       /\ Set_has "Query" BUILTINS = false)
  /\ namedTypesFromSchema schema_roots_permuted = namedTypesFromSchema schema_roots.
Proof.
  split.
  - exact (proj1 (canonical_index_characterised schema_roots) "Query").
  - apply (proj2 (proj2 (proj2 (canonical_index_characterised schema_roots)))).
    vm_compute. perm_solve.
Defined.

(** C10: no name that starts with "__" is in the canonical type index, and
    every list of names the generators emit a definition, a scaffold file
    or a resolver entry for is drawn from the index: none of them holds such
    a name. *)
Theorem introspection_types_never_emitted :
  forall (schema : GraphQLSchema) (name : string),
    JsString.startsWith "__" name = true ->
    ~ In name (namedTypesFromSchema schema)
    /\ ~ In name (scalarNames schema)
    /\ ~ In name (scalarTypeNames schema)
    /\ ~ In name (interfaceNames schema)
    /\ ~ In name (resolverNames schema)
    /\ ~ In name (modelNames schema).
Proof.
  intros schema name Hs.
  pose proof (index_no_introspection schema name Hs) as Hidx.
  unfold scalarNames, scalarTypeNames, interfaceNames, resolverNames, modelNames.
  repeat split; try exact Hidx; intros Hin;
    repeat (apply filter_In in Hin; destruct Hin as [Hin _]); now apply Hidx.
Qed.

Lemma introspection_types_never_emitted_witness :
  ~ In "__Schema" (namedTypesFromSchema schema_roots)
  /\ ~ In "__Schema" (scalarNames schema_roots)
  /\ ~ In "__Schema" (scalarTypeNames schema_roots)
  /\ ~ In "__Schema" (interfaceNames schema_roots)
  /\ ~ In "__Schema" (resolverNames schema_roots)
  /\ ~ In "__Schema" (modelNames schema_roots).
Proof.
  apply (introspection_types_never_emitted schema_roots "__Schema"). reflexivity.
Defined.

(* ------------------------------------------------------------------------- *)
(** ** Concrete subtypes *)

(** C4, as stated, fails: the members of a union are listed in the order of
    its declaration. *)
Lemma union_members_in_declaration_order :
  ~ (forall (schema : GraphQLSchema) (name : string),
        isUnionOrInterfaceType name schema = true ->
        alphabetical (getConcreteSubtypes schema name)).
Proof.
  intros H. specialize (H schema_union "Pet" eq_refl).
  change (getConcreteSubtypes schema_union "Pet") with ["Cat"; "Bird"] in H.
  inversion H as [|? ? _ Hall]; subst.
  inversion Hall as [|? ? Hle _]; subst.
  discriminate Hle.
Qed.

(** C4, amended: the members of the two aliases emitted for an interface are
    the object types of the canonical type index that implement it, in the
    order of the index; the members of the two aliases emitted for a union
    are its member types in the order of the union's declaration. *)
Theorem concrete_subtypes_order :
  forall (schema : GraphQLSchema) (name : string),
    (forall iface : InterfaceDef,
        getType schema name = Some (InterfaceType iface) ->
        getConcreteSubtypes schema name
        = filter (implementsInterface schema name) (namedTypesFromSchema schema)
        /\ alphabetical (getConcreteSubtypes schema name))
    /\ (forall (n : string) (types : list string),
           getType schema name = Some (UnionType n types) ->
           getConcreteSubtypes schema name = types)
    /\ interfaceDef schema name
       = template
           [ "";
             sp 16 ++ "export type " ++ name ++ " = "
               ++ JsString.join " | " (getConcreteSubtypes schema name) ++ ";";
             sp 16 ++ "export type " ++ name ++ "$typename = "
               ++ JsString.join " | "
                    (map JsString.JSON_stringify (getConcreteSubtypes schema name)) ++ ";";
             sp 12 ].
Proof.
  intros schema name. split; [|split].
  - intros iface Ht. unfold getConcreteSubtypes. rewrite Ht.
    split; [reflexivity|]. apply alphabetical_filter, index_alphabetical.
  - intros n types Ht. unfold getConcreteSubtypes. now rewrite Ht.
  - reflexivity.
Qed.

Lemma concrete_subtypes_order_witness :
  (getConcreteSubtypes schema_union "Node" = ["Bird"; "Cat"]
   /\ alphabetical (getConcreteSubtypes schema_union "Node"))
  /\ getConcreteSubtypes schema_union "Pet" = ["Cat"; "Bird"].
Proof.
  split.
  - exact (proj1 (concrete_subtypes_order schema_union "Node") nodeInterface eq_refl).
  - exact (proj1 (proj2 (concrete_subtypes_order schema_union "Pet"))
                 "Pet" ["Cat"; "Bird"] eq_refl).
Defined.

(* ------------------------------------------------------------------------- *)
(** ** Resolver shapes *)

Section InputRenderer.

Lemma renderInput_List (inner : TypeRef) :
  toFlowInputTypeRef (List inner)
  = bindR (toFlowInputTypeRef inner)
          (fun v => Ok (StringValue ("Array<" ++ JsValue_toString v ++ "> | null"))).
Proof. reflexivity. Qed.

Lemma renderInput_NonNull (inner : TypeRef) :
  toFlowInputTypeRef (NonNull inner)
  = bindR (toFlowInputTypeRef inner) nonOptionalValue.
Proof. reflexivity. Qed.

(** The two renderers run the same algorithm. *)
Lemma renderInput_eq (t : TypeRef) : toFlowInputTypeRef t = toFlowOutputTypeRef t.
Proof.
  induction t as [n|n|n|n|n|n|t IH|t IH]; try reflexivity.
  - now rewrite renderInput_List, render_List, IH.
  - now rewrite renderInput_NonNull, render_NonNull, IH.
Qed.

End InputRenderer.

Section MapR.
Context {A B : Type}.
Variable f : A -> Result B.

Lemma mapR_ok (l : list A) :
  (forall a, In a l -> exists b, f a = Ok b) ->
  exists bs, mapR f l = Ok bs /\ Forall2 (fun a b => f a = Ok b) l bs.
Proof.
  induction l as [|a l IH]; intros Hall.
  - exists []. split; [reflexivity | constructor].
  - destruct (Hall a (or_introl eq_refl)) as [b Hb].
    destruct IH as (bs & Hbs & Hf2); [intros x Hx; apply Hall; now right|].
    exists (b :: bs). split; [simpl; now rewrite Hb, Hbs | now constructor].
Qed.

Lemma mapR_Forall2 (l : list A) (bs : list B) :
  mapR f l = Ok bs -> Forall2 (fun a b => f a = Ok b) l bs.
Proof.
  revert bs. induction l as [|a l IH]; simpl; intros bs H.
  - injection H as <-. constructor.
  - destruct (f a) as [b|e] eqn:Hb; simpl in H; [|discriminate].
    destruct (mapR f l) as [bs'|e] eqn:Hbs; simpl in H; [|discriminate].
    injection H as <-. constructor; [exact Hb | now apply IH].
Qed.

End MapR.

Section SeenSet.

Lemma Set_has_In (x : string) (s : list string) : Set_has x s = true <-> In x s.
Proof.
  unfold Set_has. rewrite existsb_exists. split.
  - intros (y & Hy & He). apply String.eqb_eq in He. now subst.
  - intros Hin. exists x. split; [exact Hin | apply String.eqb_refl].
Qed.

Lemma Set_has_app (x : string) (s s' : list string) :
  Set_has x (s ++ s') = Set_has x s || Set_has x s'.
Proof. apply existsb_app. Qed.

Lemma Set_has_add (x y : string) (s : list string) :
  Set_has x (Set_add y s) = String.eqb x y || Set_has x s.
Proof.
  unfold Set_add. destruct (Set_has y s) eqn:Hy.
  - destruct (String.eqb_spec x y) as [->|_]; [now rewrite Hy | reflexivity].
  - rewrite Set_has_app. simpl. rewrite orb_false_r. apply orb_comm.
Qed.

Lemma Set_has_add_all (x : string) (l s : list string) :
  Set_has x (fold_left (fun seen n => Set_add n seen) l s) = Set_has x l || Set_has x s.
Proof.
  revert s. induction l as [|n l IH]; intros s; simpl; [reflexivity|].
  rewrite IH, Set_has_add.
  destruct (String.eqb x n), (Set_has x l), (Set_has x s); reflexivity.
Qed.

Lemma Set_has_seen (x : string) (ifaces : list InterfaceDef) (s : list string) :
  Set_has x
    (fold_left (fun seen iface =>
                  fold_left (fun seen n => Set_add n seen)
                            (Object_keys (iface_fields iface)) seen)
               ifaces s)
  = existsb (declares x) ifaces || Set_has x s.
Proof.
  revert s. induction ifaces as [|i ifaces IH]; intros s; simpl; [reflexivity|].
  rewrite IH, Set_has_add_all. unfold declares.
  destruct (Set_has x (Object_keys (iface_fields i))), (existsb _ ifaces), (Set_has x s);
    reflexivity.
Qed.

Lemma seenFields_declares (node : NamedType) (x : string) :
  Set_has x (seenFields node) = existsb (declares x) (getInterfaces node).
Proof.
  unfold seenFields. rewrite Set_has_seen. simpl. apply orb_false_r.
Qed.

Lemma distinct_NoDup (keys : list string) : distinct keys = true -> NoDup keys.
Proof.
  induction keys as [|k keys IH]; simpl; intros H; [constructor|].
  apply andb_prop in H. destruct H as [Hk Hd].
  constructor; [|now apply IH].
  intros Hin. apply Set_has_In in Hin. rewrite Hin in Hk. discriminate.
Qed.

End SeenSet.

Section Occurrences.

Lemma occurrences_app (f : string) (l l' : list Line) :
  occurrences f (l ++ l') = occurrences f l + occurrences f l'.
Proof. unfold occurrences. now rewrite filter_app, length_app. Qed.

Lemma occurrences_plain (f text : string) (l : list Line) :
  occurrences f (plain text :: l) = occurrences f l.
Proof. reflexivity. Qed.

Lemma occurrences_emittedFor (f : string) (keys : list string) (entries : list Line) :
  emittedFor keys entries ->
  occurrences f entries = count_occ string_dec keys f.
Proof.
  induction 1 as [|name line keys entries Hk _ IH]; [reflexivity|].
  unfold occurrences in *. simpl. unfold keyed at 1. rewrite Hk.
  destruct (string_dec name f) as [->|Hne].
  - rewrite String.eqb_refl. simpl. now rewrite IH.
  - apply String.eqb_neq in Hne. now rewrite Hne.
Qed.

Lemma count_occ_declared (f : string) (keys : list string) :
  NoDup keys -> count_occ string_dec keys f = if Set_has f keys then 1 else 0.
Proof.
  intros Hnd. destruct (Set_has f keys) eqn:Hf.
  - apply Set_has_In in Hf. now apply NoDup_count_occ'.
  - apply count_occ_not_In. intros Hin. apply Set_has_In in Hin. congruence.
Qed.

End Occurrences.

Section ShapeLines.

Lemma renderInput_ok (t : TypeRef) :
  wellFormed t = true -> exists s, toFlowInputTypeRef t = Ok s.
Proof.
  intros Hwf. rewrite renderInput_eq.
  destruct (wellFormed_renders t Hwf) as (s & Hs & _). now exists s.
Qed.

Lemma toFlowArgType_ok (args : list GraphQLArgument) :
  forallb (fun arg => wellFormed (arg_type arg)) args = true ->
  exists s, toFlowArgType args = Ok s.
Proof.
  intros Hall. unfold toFlowArgType.
  edestruct (mapR_ok
               (fun arg => bindR (toFlowInputTypeRef (arg_type arg))
                                 (fun t => Ok ("+" ++ arg_name arg ++ ": "
                                                 ++ JsValue_toString t)))
               args) as (exprs & Hexprs & _).
  - intros arg Hin. rewrite forallb_forall in Hall.
    destruct (renderInput_ok (arg_type arg) (Hall arg Hin)) as [s Hs].
    rewrite Hs. simpl. eauto.
  - rewrite Hexprs. simpl. eauto.
Qed.

Lemma toFieldTypeDefinition_ok (parentObj : NamedType) (field : GraphQLField) :
  fieldOk field = true -> exists text, toFieldTypeDefinition parentObj field = Ok text.
Proof.
  intros Hok. apply andb_prop in Hok. destruct Hok as [Hty Hargs].
  destruct (wellFormed_renders _ Hty) as (output & Hout & _).
  unfold toFieldTypeDefinition. rewrite Hout. simpl.
  destruct (List.length (field_args field) =? 0)%nat.
  - simpl. eauto.
  - destruct (toFlowArgType_ok _ Hargs) as [a Ha]. rewrite Ha. simpl. eauto.
Qed.

Lemma getField_some (name : string) (fields : FieldMap) :
  In name (Object_keys fields) ->
  exists field, getField name fields = Some field /\ In field fields.
Proof.
  intros Hin. unfold getField.
  destruct (find (fun f => String.eqb (field_name f) name) fields) as [field|] eqn:Hf.
  - exists field. split; [reflexivity|]. now apply find_some in Hf.
  - exfalso. apply in_map_iff in Hin. destruct Hin as (field & Hname & Hin).
    pose proof (find_none _ _ Hf field Hin) as Hno. simpl in Hno.
    rewrite Hname, String.eqb_refl in Hno. discriminate.
Qed.

Lemma fieldLine_ok (node : NamedType) (fields : FieldMap) (name : string) :
  forallb fieldOk fields = true ->
  In name (Object_keys fields) ->
  exists line, fieldLine node fields name = Ok line /\ line_key line = Some name.
Proof.
  intros Hall Hin.
  destruct (getField_some name fields Hin) as (field & Hget & Hfield).
  rewrite forallb_forall in Hall.
  destruct (toFieldTypeDefinition_ok node field (Hall field Hfield)) as [text Htext].
  unfold fieldLine. rewrite Hget, Htext. simpl. eauto.
Qed.

Lemma fieldLine_key (node : NamedType) (fields : FieldMap) (name : string) (line : Line) :
  fieldLine node fields name = Ok line -> line_key line = Some name.
Proof.
  unfold fieldLine. destruct (getField name fields); [|discriminate].
  destruct (toFieldTypeDefinition node g); simpl; [|discriminate].
  intros H. injection H as <-. reflexivity.
Qed.

Lemma fieldLines_ok (node : NamedType) (fields : FieldMap) (names : list string) :
  forallb fieldOk fields = true ->
  incl names (Object_keys fields) ->
  exists entries, mapR (fieldLine node fields) names = Ok entries
                  /\ emittedFor names entries.
Proof.
  intros Hall Hincl.
  destruct (mapR_ok (fieldLine node fields) names) as (entries & Hentries & Hf2).
  - intros name Hin. destruct (fieldLine_ok node fields name Hall (Hincl _ Hin)) as (l & Hl & _).
    eauto.
  - exists entries. split; [exact Hentries|].
    unfold emittedFor. eapply Forall2_impl; [|exact Hf2].
    intros name line. apply fieldLine_key.
Qed.

Lemma interfaceLines_ok (node : NamedType) (iface : InterfaceDef) :
  forallb fieldOk (iface_fields iface) = true ->
  distinct (Object_keys (iface_fields iface)) = true ->
  exists lines,
    interfaceLines node iface = Ok lines
    /\ sectionOf node iface lines
    /\ forall f, occurrences f lines = if declares f iface then 1 else 0.
Proof.
  intros Hall Hd.
  destruct (fieldLines_ok node (iface_fields iface) (Object_keys (iface_fields iface)) Hall)
    as (entries & Hentries & Hem); [apply incl_refl|].
  assert (forall f, occurrences f
                      (plain "" :: plain ("// From " ++ iface_name iface) :: entries)
                    = if declares f iface then 1 else 0) as Hocc.
  { intros f. rewrite !occurrences_plain, (occurrences_emittedFor f _ _ Hem).
    apply count_occ_declared, distinct_NoDup, Hd. }
  exists (plain "" :: plain ("// From " ++ iface_name iface) :: entries).
  split; [|split].
  - unfold interfaceLines. rewrite Hentries. reflexivity.
  - exists entries. split; [reflexivity|]. split; [exact Hentries|].
    intros f Hin. rewrite Hocc. unfold declares.
    apply Set_has_In in Hin. now rewrite Hin.
  - exact Hocc.
Qed.

Lemma sectionLines_ok (node : NamedType) (ifaces : list InterfaceDef) :
  forallb (fun iface =>
             forallb fieldOk (iface_fields iface)
             && distinct (Object_keys (iface_fields iface))) ifaces = true ->
  exists sections,
    mapR (interfaceLines node) ifaces = Ok sections
    /\ Forall2 (sectionOf node) ifaces sections
    /\ forall f, occurrences f (concat sections)
                 = List.length (filter (declares f) ifaces).
Proof.
  induction ifaces as [|iface ifaces IH]; simpl; intros Hall.
  - exists []. repeat split; constructor.
  - apply andb_prop in Hall. destruct Hall as [Hi Hall].
    apply andb_prop in Hi. destruct Hi as [Hok Hd].
    destruct (interfaceLines_ok node iface Hok Hd) as (lines & Hlines & Hsec & Hocc).
    destruct (IH Hall) as (sections & Hsections & Hf2 & Hcount).
    exists (lines :: sections). split; [|split].
    + now rewrite Hlines, Hsections.
    + now constructor.
    + intros f. simpl concat. rewrite occurrences_app, Hocc, Hcount.
      destruct (declares f iface); reflexivity.
Qed.

Lemma ownLines_ok (node : NamedType) :
  forallb fieldOk (getFields node) = true ->
  exists own,
    ownLines node = Ok own
    /\ forall f, existsb (declares f) (getInterfaces node) = true -> occurrences f own = 0.
Proof.
  intros Hall. unfold ownLines.
  set (names := filter (fun name => negb (Set_has name (seenFields node)))
                       (Object_keys (getFields node))).
  destruct (fieldLines_ok node (getFields node) names Hall) as (own & Hown & Hem).
  - intros name Hin. apply filter_In in Hin. tauto.
  - exists own. split; [exact Hown|].
    intros f Hdecl. rewrite (occurrences_emittedFor f _ _ Hem).
    apply count_occ_not_In. intros Hin. apply filter_In in Hin.
    destruct Hin as [_ Hseen]. rewrite seenFields_declares, Hdecl in Hseen. discriminate.
Qed.

Lemma toFieldTypeDefinition_text (parentObj : NamedType) (field : GraphQLField)
      (text : string) :
  toFieldTypeDefinition parentObj field = Ok text ->
  exists rest, text = field_name field ++ ": Resolver<" ++ rest.
Proof.
  unfold toFieldTypeDefinition.
  destruct (toFlowOutputTypeRef (field_type field)); simpl; [|discriminate].
  destruct (List.length (field_args field) =? 0)%nat; simpl.
  - intros H. injection H as <-. eauto.
  - destruct (toFlowArgType (field_args field)); simpl; [|discriminate].
    intros H. injection H as <-. eauto.
Qed.

Lemma fieldLine_text (node : NamedType) (fields : FieldMap) (name : string) (line : Line) :
  fieldLine node fields name = Ok line -> signatureLine line.
Proof.
  unfold fieldLine, getField.
  destruct (find (fun f => String.eqb (field_name f) name) fields) as [field|] eqn:Hf;
    [|discriminate].
  apply find_some in Hf. destruct Hf as [_ Hname]. apply String.eqb_eq in Hname.
  destruct (toFieldTypeDefinition node field) as [text|] eqn:Ht; simpl; [|discriminate].
  intros H. injection H as <-. intros f Hkey. simpl in Hkey. injection Hkey as <-.
  destruct (toFieldTypeDefinition_text _ _ _ Ht) as [rest ->].
  exists rest. simpl. now rewrite Hname.
Qed.

Lemma fieldLines_text (node : NamedType) (fields : FieldMap) (names : list string)
      (entries : list Line) :
  mapR (fieldLine node fields) names = Ok entries -> Forall signatureLine entries.
Proof.
  intros H. apply mapR_Forall2 in H.
  induction H as [|name line names entries Hline _ IH]; constructor;
    [exact (fieldLine_text _ _ _ _ Hline) | exact IH].
Qed.

Lemma plain_signatureLine (text : string) : signatureLine (plain text).
Proof. intros f Hkey. discriminate Hkey. Qed.

Lemma sections_text (node : NamedType) (ifaces : list InterfaceDef)
      (sections : list (list Line)) :
  Forall2 (sectionOf node) ifaces sections -> Forall signatureLine (concat sections).
Proof.
  induction 1 as [|iface lines ifaces sections Hsec _ IH]; simpl; [constructor|].
  apply Forall_app. split; [|exact IH].
  destruct Hsec as (entries & -> & Hentries & _).
  repeat constructor; try apply plain_signatureLine.
  exact (fieldLines_text _ _ _ _ Hentries).
Qed.

End ShapeLines.

(** C2, as stated, fails: a field declared by two implemented interfaces is
    emitted once for each of them. *)
Lemma shared_interface_field_emitted_twice :
  ~ (forall (node : NamedType) (iface : InterfaceDef) (f : string) (lines : list Line),
        classOf node = GraphQLObjectType ->
        In iface (getInterfaces node) ->
        In f (Object_keys (iface_fields iface)) ->
        shapeLines node = Ok lines ->
        occurrences f lines = 1).
Proof.
  intros H.
  destruct (shapeLines userType) as [lines|e] eqn:Hlines; [|discriminate Hlines].
  specialize (H userType nodeInterface "id" lines eq_refl
                (or_introl eq_refl) (or_introl eq_refl) Hlines).
  vm_compute in Hlines. injection Hlines as <-.
  vm_compute in H. discriminate H.
Qed.

(** C2, amended: for every Object type whose field and argument types are
    well formed (so that every signature renders) and every interface [I]
    it implements, each field declared on [I] is emitted exactly once in the
    section of [I], which opens with the comment naming [I], whether or not
    the Object redeclares the field: no line of the Object's own fields is
    emitted for a name that an implemented interface declares.  The text of
    a line emitted for a field starts with the name of that field.  In the
    whole shape a field name is emitted once for each implemented interface
    that declares it, hence exactly once when a single implemented interface
    does. *)
Theorem interface_fields_in_resolver_shape :
  forall (name : string) (ifaces : list InterfaceDef) (fields : FieldMap),
    shapeOk (ObjectType name ifaces fields) = true ->
    exists (sections : list (list Line)) (own : list Line),
      sectionLines (ObjectType name ifaces fields) = Ok sections
      /\ ownLines (ObjectType name ifaces fields) = Ok own
      /\ toResolverTypeDefinition (ObjectType name ifaces fields)
         = Ok (JsString.join JsString.newline
                 (("export type " ++ name ++ "Resolver = {|")
                    :: map (fun lines => JsString.join JsString.newline (texts lines))
                           sections
                    ++ texts own ++ ["|}"]))
      /\ Forall2 (sectionOf (ObjectType name ifaces fields)) ifaces sections
      /\ Forall signatureLine (concat sections ++ own)
      /\ (forall f : string,
             existsb (declares f) ifaces = true ->
             occurrences f own = 0
             /\ occurrences f (concat sections ++ own)
                = List.length (filter (declares f) ifaces)).
Proof.
  intros name ifaces fields Hok.
  apply andb_prop in Hok. destruct Hok as [Hifaces Hfields].
  destruct (sectionLines_ok (ObjectType name ifaces fields) ifaces Hifaces)
    as (sections & Hsections & Hf2 & Hcount).
  destruct (ownLines_ok (ObjectType name ifaces fields) Hfields) as (own & Hown & Hnone).
  exists sections, own. split; [exact Hsections|]. split; [exact Hown|].
  split; [|split; [|split]].
  - change (toResolverTypeDefinition (ObjectType name ifaces fields))
      with (objectResolverDefinition (ObjectType name ifaces fields)).
    unfold objectResolverDefinition, sectionLines.
    simpl getInterfaces. rewrite Hsections. simpl bindR. rewrite Hown. reflexivity.
  - exact Hf2.
  - apply Forall_app. split; [exact (sections_text _ _ _ Hf2)|].
    exact (fieldLines_text _ _ _ _ Hown).
  - intros f Hdecl. split; [now apply Hnone|].
    rewrite occurrences_app, Hcount, (Hnone f Hdecl). lia.
Qed.

Lemma interface_fields_in_resolver_shape_witness :
  exists (sections : list (list Line)) (own : list Line),
    sectionLines catType = Ok sections
    /\ ownLines catType = Ok own
    /\ Forall2 (sectionOf catType) [nodeInterface] sections
    /\ occurrences "id" own = 0
    /\ occurrences "id" (concat sections ++ own) = 1.
Proof.
  destruct (interface_fields_in_resolver_shape
              "Cat" [nodeInterface] [idField; nameField] eq_refl)
    as (sections & own & Hsections & Hown & _ & Hf2 & _ & Hocc).
  exists sections, own.
  destruct (Hocc "id" eq_refl) as [Hnone Hcount].
  repeat split; assumption.
Defined.

(* ------------------------------------------------------------------------- *)
(** ** The module builder *)

Section MapsAndSets.
Import ModuleBuilder.

Lemma Map_get_set {V : Type} (k k' : string) (v : V) (m : list (string * V)) :
  Map_get k' (Map_set k v m) = if String.eqb k k' then Some v else Map_get k' m.
Proof.
  unfold Map_get. induction m as [|[k0 v0] m IH]; simpl.
  - reflexivity.
  - destruct (String.eqb_spec k0 k) as [->|Hne]; simpl.
    + destruct (String.eqb k k'); reflexivity.
    + rewrite IH. destruct (String.eqb_spec k0 k') as [->|Hne'].
      * apply String.eqb_neq in Hne. rewrite String.eqb_sym in Hne. now rewrite Hne.
      * reflexivity.
Qed.

Lemma Map_set_keys {V : Type} (k : string) (v : V) (m : list (string * V)) :
  map fst (Map_set k v m) = Set_add k (map fst m).
Proof.
  unfold Set_add, Set_has. induction m as [|[k0 v0] m IH]; simpl.
  - reflexivity.
  - rewrite (String.eqb_sym k k0).
    destruct (String.eqb k0 k) eqn:E; simpl; [reflexivity|].
    rewrite IH. now destruct (existsb (String.eqb k) (map fst m)).
Qed.

Lemma Map_set_forallb {V : Type} (p : V -> bool) (k : string) (v : V)
      (m : list (string * V)) :
  forallb (fun entry => p (snd entry)) m = true -> p v = true ->
  forallb (fun entry => p (snd entry)) (Map_set k v m) = true.
Proof.
  intros Hm Hv. induction m as [|[k0 v0] m IH]; simpl in *.
  - now rewrite Hv.
  - apply andb_prop in Hm. destruct Hm as [H0 Hm].
    destruct (String.eqb k0 k); simpl.
    + now rewrite Hv, Hm.
    + now rewrite H0, IH.
Qed.

Lemma Map_set_idem {V : Type} (k : string) (v : V) (m : list (string * V)) :
  Map_set k v (Map_set k v m) = Map_set k v m.
Proof.
  induction m as [|[k0 v0] m IH]; simpl.
  - now rewrite String.eqb_refl.
  - destruct (String.eqb k0 k) eqn:E; simpl; rewrite E; [reflexivity | now rewrite IH].
Qed.

Lemma Map_get_In {V : Type} (k : string) (v : V) (m : list (string * V)) :
  Map_get k m = Some v -> In (k, v) m.
Proof.
  unfold Map_get. induction m as [|[k0 v0] m IH]; simpl; [discriminate|].
  destruct (String.eqb_spec k0 k) as [->|_].
  - intros H. injection H as ->. now left.
  - intros H. right. now apply IH.
Qed.

Lemma distinct_snoc (s : list string) (x : string) :
  distinct s = true -> Set_has x s = false -> distinct (s ++ [x]) = true.
Proof.
  induction s as [|y s IH]; simpl; intros Hd Hx; [reflexivity|].
  apply andb_prop in Hd. destruct Hd as [Hy Hd].
  apply orb_false_elim in Hx. destruct Hx as [Hxy Hx].
  rewrite Set_has_app, IH by assumption.
  apply negb_true_iff in Hy. rewrite Hy. simpl.
  rewrite String.eqb_sym, Hxy. reflexivity.
Qed.

Lemma Set_add_distinct (x : string) (s : list string) :
  distinct s = true -> distinct (Set_add x s) = true.
Proof.
  intros Hd. unfold Set_add. destruct (Set_has x s) eqn:Hx; [exact Hd|].
  now apply distinct_snoc.
Qed.

Lemma Set_add_nonempty (x : string) (s : list string) :
  negb (Nat.eqb (List.length (Set_add x s)) 0) = true.
Proof.
  unfold Set_add. destruct (Set_has x s) eqn:Hx.
  - destruct s; [discriminate Hx | reflexivity].
  - rewrite length_app. simpl. destruct (List.length s); reflexivity.
Qed.

Lemma Set_add_In (x : string) (s : list string) : In x (Set_add x s).
Proof.
  apply Set_has_In. rewrite Set_has_add, String.eqb_refl. reflexivity.
Qed.

Lemma Set_add_idem (x : string) (s : list string) :
  Set_add x (Set_add x s) = Set_add x s.
Proof.
  unfold Set_add at 1.
  now rewrite (proj2 (Set_has_In x (Set_add x s)) (Set_add_In x s)).
Qed.

Lemma distinct_count (x : string) (s : list string) :
  distinct s = true -> In x s -> count_occ string_dec s x = 1.
Proof.
  intros Hd Hin. now apply NoDup_count_occ'; [apply distinct_NoDup|].
Qed.

Lemma addToSet_ok (identifier from_ : string) (imports : list (string * list string)) :
  setsOk imports = true -> setsOk (addToSet identifier from_ imports) = true.
Proof.
  unfold setsOk, addToSet. intros H. apply andb_prop in H. destruct H as [Hk Hs].
  apply andb_true_intro. split.
  - rewrite Map_set_keys. now apply Set_add_distinct.
  - apply (Map_set_forallb
             (fun s => distinct s && negb (Nat.eqb (List.length s) 0))); [exact Hs|].
    rewrite Set_add_nonempty, andb_true_r.
    apply Set_add_distinct.
    destruct (Map_get from_ imports) as [s|] eqn:Hget; [|reflexivity].
    apply Map_get_In in Hget. rewrite forallb_forall in Hs.
    specialize (Hs _ Hget). simpl in Hs. apply andb_prop in Hs. tauto.
Qed.

Lemma addToSet_get (identifier from_ : string) (imports : list (string * list string)) :
  exists names,
    Map_get from_ (addToSet identifier from_ imports) = Some (Set_add identifier names).
Proof.
  unfold addToSet. rewrite Map_get_set, String.eqb_refl. eauto.
Qed.

Lemma addToSet_idem (identifier from_ : string) (imports : list (string * list string)) :
  addToSet identifier from_ (addToSet identifier from_ imports)
  = addToSet identifier from_ imports.
Proof.
  unfold addToSet at 1.
  destruct (addToSet_get identifier from_ imports) as [names Hget]. rewrite Hget.
  rewrite Set_add_idem. unfold addToSet in *.
  rewrite Map_get_set, String.eqb_refl in Hget. injection Hget as Hget.
  rewrite <- Hget. apply Map_set_idem.
Qed.

End MapsAndSets.

Section ImportOrder.
Import ModuleBuilder.

Lemma criteria_leb_total (a b : nat * string) :
  criteria_leb a b = true \/ criteria_leb b a = true.
Proof.
  unfold criteria_leb.
  destruct (Nat.lt_trichotomy (fst a) (fst b)) as [Hlt|[Heq|Hgt]].
  - left. apply Nat.ltb_lt in Hlt. now rewrite Hlt.
  - rewrite Heq, Nat.eqb_refl, Nat.ltb_irrefl. simpl.
    apply String.leb_total.
  - right. apply Nat.ltb_lt in Hgt. now rewrite Hgt.
Qed.

Lemma criteria_leb_trans (a b c : nat * string) :
  criteria_leb a b = true -> criteria_leb b c = true -> criteria_leb a c = true.
Proof.
  unfold criteria_leb. intros Hab Hbc.
  apply orb_true_iff in Hab. apply orb_true_iff in Hbc.
  apply orb_true_iff.
  destruct Hab as [Hab|Hab], Hbc as [Hbc|Hbc];
    rewrite ?andb_true_iff, ?Nat.ltb_lt, ?Nat.eqb_eq in *.
  - left. lia.
  - left. lia.
  - left. lia.
  - right. destruct Hab as [-> Hab], Hbc as [-> Hbc]. split; [reflexivity|].
    eapply leb_trans; eassumption.
Qed.

Lemma sortImports_sorted (keyed : list (nat * string * string)) :
  StronglySorted (fun x y => criteria_leb (fst x) (fst y) = true) (sortImports keyed).
Proof.
  apply (sortWith_sorted criteria_leb (fun x => fst x)).
  - apply criteria_leb_total.
  - apply criteria_leb_trans.
Qed.

Lemma sortIdentifiers_sorted (identifiers : list string) :
  caseInsensitive (sortIdentifiers identifiers).
Proof.
  apply (sortWith_sorted String.leb JsString.toLowerCase).
  - apply String.leb_total.
  - apply leb_trans.
Qed.

Lemma sortIdentifiers_perm (identifiers : list string) :
  Permutation (sortIdentifiers identifiers) identifiers.
Proof. apply sortWith_perm. Qed.

Lemma sortIdentifiers_head (identifiers : list string) :
  negb (Nat.eqb (List.length identifiers) 0) = true ->
  exists first, hd_error (sortIdentifiers identifiers) = Some first.
Proof.
  intros Hne.
  pose proof (sortWith_length String.leb JsString.toLowerCase identifiers) as Hlen.
  fold (sortIdentifiers identifiers) in Hlen.
  destruct (sortIdentifiers identifiers) as [|first rest]; simpl in *.
  - rewrite <- Hlen in Hne. discriminate.
  - eauto.
Qed.

Lemma sorted_filter {A : Type} (R : A -> A -> Prop) (p : A -> bool) (l : list A) :
  StronglySorted R l -> StronglySorted R (filter p l).
Proof.
  induction 1 as [|x l Hs IH Hx]; simpl; [constructor|].
  destruct (p x); [|exact IH].
  constructor; [exact IH|].
  apply Forall_forall. intros y Hy. apply filter_In in Hy.
  rewrite Forall_forall in Hx. now apply Hx.
Qed.

Lemma sorted_weaken {A : Type} (R R' : A -> A -> Prop) (p : A -> Prop) (l : list A) :
  (forall x y, p x -> p y -> R x y -> R' x y) ->
  Forall p l -> StronglySorted R l -> StronglySorted R' l.
Proof.
  intros Himp Hp Hs. induction Hs as [|x l Hs IH Hx]; [constructor|].
  inversion Hp as [|? ? Hpx Hpl]; subst.
  constructor; [now apply IH|].
  rewrite Forall_forall in *. intros y Hy. apply Himp; auto.
Qed.

(** Within the named group the lines follow the lower-case form of their
    first identifier. *)
Lemma namedGroup_sorted (keyed : list (nat * string * string)) :
  StronglySorted (fun x y => String.leb (snd (fst x)) (snd (fst y)) = true)
                 (namedGroup (sortImports keyed)).
Proof.
  unfold namedGroup.
  apply (sorted_weaken (fun x y => criteria_leb (fst x) (fst y) = true) _
                       (fun x => fst (fst x) = 1)).
  - intros x y Hx Hy. unfold criteria_leb. rewrite Hx, Hy. simpl. tauto.
  - apply Forall_forall. intros x Hx. apply filter_In in Hx.
    now apply Nat.eqb_eq.
  - apply sorted_filter, sortImports_sorted.
Qed.

Lemma mapR_In {A B : Type} (f : A -> Result B) (l : list A) (bs : list B) (a : A) :
  mapR f l = Ok bs -> In a l -> exists b, f a = Ok b /\ In b bs.
Proof.
  intros Hm Hin. apply mapR_Forall2 in Hm.
  induction Hm as [|x b l bs Hx _ IH]; [contradiction|].
  destruct Hin as [->|Hin].
  - exists b. split; [exact Hx | now left].
  - destruct (IH Hin) as (b' & Hb' & Hin'). exists b'. split; [exact Hb' | now right].
Qed.

Lemma setsOk_entry (imports : list (string * list string)) (from_ : string)
      (identifiers : list string) :
  setsOk imports = true -> In (from_, identifiers) imports ->
  distinct identifiers = true
  /\ negb (Nat.eqb (List.length identifiers) 0) = true.
Proof.
  unfold setsOk. intros H Hin. apply andb_prop in H. destruct H as [_ Hs].
  rewrite forallb_forall in Hs. specialize (Hs _ Hin). simpl in Hs.
  now apply andb_prop in Hs.
Qed.

Lemma criteria_ok (m : t) :
  wfBuilder m = true ->
  forall tuple, In tuple (iterImports m) -> exists keyed, criteria tuple = Ok keyed.
Proof.
  intros Hwf tuple Hin. apply andb_prop in Hwf. destruct Hwf as [Hnamed Htypes].
  unfold iterImports in Hin. rewrite !in_app_iff, !in_map_iff in Hin.
  destruct Hin as [Hin|[Hin|[Hin|Hin]]]; destruct Hin as ([from_ x] & <- & Hin).
  - simpl. eauto.
  - destruct (setsOk_entry _ _ _ Hnamed Hin) as [_ Hne].
    destruct (sortIdentifiers_head x Hne) as [first Hfirst].
    unfold namedImportTuple, criteria. rewrite Hfirst. eauto.
  - simpl. eauto.
  - destruct (setsOk_entry _ _ _ Htypes Hin) as [_ Hne].
    destruct (sortIdentifiers_head x Hne) as [first Hfirst].
    unfold typeImportTuple, criteria. rewrite Hfirst. eauto.
Qed.

End ImportOrder.

Section NamedImports.
Import ModuleBuilder.

Lemma addNamedImport_idem (identifier from_ : string) (m : t) :
  addNamedImport identifier from_ (addNamedImport identifier from_ m)
  = addNamedImport identifier from_ m.
Proof.
  unfold addNamedImport. simpl. now rewrite addToSet_idem.
Qed.

Lemma addNamedImport_iter (identifier from_ : string) (m : t) (n : nat) :
  Nat.iter (S n) (addNamedImport identifier from_) m = addNamedImport identifier from_ m.
Proof.
  induction n as [|n IH]; [reflexivity|].
  change (Nat.iter (S (S n)) (addNamedImport identifier from_) m)
    with (addNamedImport identifier from_
            (Nat.iter (S n) (addNamedImport identifier from_) m)).
  rewrite IH. apply addNamedImport_idem.
Qed.

Lemma addNamedImport_wf (identifier from_ : string) (m : t) :
  wfBuilder m = true -> wfBuilder (addNamedImport identifier from_ m) = true.
Proof.
  unfold wfBuilder. simpl. intros H. apply andb_prop in H. destruct H as [Hn Ht].
  now rewrite addToSet_ok, Ht.
Qed.

Lemma addTypeImport_wf (identifier from_ : string) (m : t) :
  wfBuilder m = true -> wfBuilder (addTypeImport identifier from_ m) = true.
Proof.
  unfold wfBuilder. simpl. intros H. apply andb_prop in H. destruct H as [Hn Ht].
  now rewrite addToSet_ok, Hn.
Qed.

Lemma new_wf (comment : string) : wfBuilder (new comment) = true.
Proof. reflexivity. Qed.

Lemma namedTuple_In (m : t) (from_ : string) (identifiers : list string) :
  In (from_, identifiers) (_namedImports m) ->
  In (namedImportTuple from_ identifiers) (iterImports m).
Proof.
  intros Hin. unfold iterImports. rewrite !in_app_iff. right. left.
  apply in_map_iff. now exists (from_, identifiers).
Qed.

Lemma mapR_In_inv {A B : Type} (f : A -> Result B) (l : list A) (bs : list B) (b : B) :
  mapR f l = Ok bs -> In b bs -> exists a, In a l /\ f a = Ok b.
Proof.
  intros Hm Hin. apply mapR_Forall2 in Hm.
  induction Hm as [|x y l bs Hx _ IH]; [contradiction|].
  destruct Hin as [->|Hin].
  - exists x. split; [now left | exact Hx].
  - destruct (IH Hin) as (a & Ha & Hfa). exists a. split; [now right | exact Hfa].
Qed.

(** The tuples of priority 1 are those of the named imports. *)
Lemma namedGroup_origin (m : t) (keyed : list (nat * string * string))
      (tuple : nat * string * string) :
  mapR criteria (iterImports m) = Ok keyed ->
  In tuple (namedGroup (sortImports keyed)) ->
  exists from_ identifiers first,
    In (from_, identifiers) (_namedImports m)
    /\ hd_error (sortIdentifiers identifiers) = Some first
    /\ tuple = (1, JsString.toLowerCase first,
                "import { " ++ JsString.join ", " (sortIdentifiers identifiers)
                  ++ " } from " ++ JsString.JSON_stringify from_).
Proof.
  intros Hkeyed Hin. unfold namedGroup in Hin. apply filter_In in Hin.
  destruct Hin as [Hin Hprio]. apply Nat.eqb_eq in Hprio.
  unfold sortImports in Hin. rewrite sortWith_In in Hin.
  destruct (mapR_In_inv _ _ _ _ Hkeyed Hin) as (raw & Hraw & Hcrit).
  unfold iterImports in Hraw. rewrite !in_app_iff, !in_map_iff in Hraw.
  destruct Hraw as [Hraw|[Hraw|[Hraw|Hraw]]]; destruct Hraw as ([from_ x] & <- & Hraw).
  - simpl in Hcrit. injection Hcrit as <-. discriminate Hprio.
  - unfold namedImportTuple, criteria in Hcrit.
    destruct (hd_error (sortIdentifiers x)) as [first|] eqn:Hfirst; [|discriminate].
    injection Hcrit as <-. exists from_, x, first. auto.
  - simpl in Hcrit. injection Hcrit as <-. discriminate Hprio.
  - unfold typeImportTuple, criteria in Hcrit.
    destruct (hd_error (sortIdentifiers x)) as [first|] eqn:Hfirst; [|discriminate].
    injection Hcrit as <-. discriminate Hprio.
Qed.

Lemma namedGroup_holds (m : t) (keyed : list (nat * string * string))
      (from_ : string) (identifiers : list string) :
  wfBuilder m = true ->
  mapR criteria (iterImports m) = Ok keyed ->
  In (from_, identifiers) (_namedImports m) ->
  exists first,
    hd_error (sortIdentifiers identifiers) = Some first
    /\ In (1, JsString.toLowerCase first,
           "import { " ++ JsString.join ", " (sortIdentifiers identifiers)
             ++ " } from " ++ JsString.JSON_stringify from_)
          (namedGroup (sortImports keyed)).
Proof.
  intros Hwf Hkeyed Hin.
  apply andb_prop in Hwf. destruct Hwf as [Hnamed _].
  destruct (setsOk_entry _ _ _ Hnamed Hin) as [_ Hne].
  destruct (sortIdentifiers_head identifiers Hne) as [first Hfirst].
  exists first. split; [exact Hfirst|].
  destruct (mapR_In _ _ _ _ Hkeyed (namedTuple_In m from_ identifiers Hin))
    as (tuple & Hcrit & Htuple).
  unfold namedImportTuple, criteria in Hcrit. rewrite Hfirst in Hcrit.
  injection Hcrit as <-.
  unfold namedGroup. apply filter_In. split; [|reflexivity].
  unfold sortImports. now rewrite sortWith_In.
Qed.

Lemma two_identifiers (a b : string) :
  a <> b -> Set_add b (Set_add a []) = [a; b].
Proof.
  intros Hne. unfold Set_add. simpl.
  apply not_eq_sym, String.eqb_neq in Hne. now rewrite Hne.
Qed.

Lemma toString_two (comment a b from_ : string) :
  a <> b ->
  toString (addNamedImport b from_ (addNamedImport a from_ (new comment)))
  = Ok (JsString.join JsString.newline
          [ comment; "";
            "import { " ++ JsString.join ", " (sortIdentifiers [a; b])
              ++ " } from " ++ JsString.JSON_stringify from_;
            ""; "" ]).
Proof.
  intros Hne.
  unfold toString, importLines, iterImports, addNamedImport, new, addToSet. simpl.
  rewrite !String.eqb_refl. simpl.
  change (Set_add a []) with [a].
  replace (Set_add b [a]) with [a; b] by (symmetry; now apply two_identifiers).
  unfold namedImportTuple.
  destruct (sortIdentifiers_head [a; b] eq_refl) as [first Hfirst].
  simpl mapR. unfold criteria. rewrite Hfirst. reflexivity.
Qed.

End NamedImports.

Section Registrations.
Import ModuleBuilder.

Lemma registered_add (identifier from_ : string) (m : t) :
  registered identifier from_ (addNamedImport identifier from_ m).
Proof.
  destruct (addToSet_get identifier from_ (_namedImports m)) as [names Hget].
  exists (Set_add identifier names). split; [exact Hget | apply Set_add_In].
Qed.

Lemma registered_kept (identifier from_ identifier' from' : string) (m : t) :
  registered identifier from_ m ->
  registered identifier from_ (addNamedImport identifier' from' m).
Proof.
  intros (identifiers & Hget & Hin). unfold registered, addNamedImport. simpl.
  unfold addToSet. rewrite Map_get_set.
  destruct (String.eqb_spec from' from_) as [->|_].
  - rewrite Hget. exists (Set_add identifier' identifiers). split; [reflexivity|].
    apply Set_has_In. rewrite Set_has_add.
    apply Set_has_In in Hin. rewrite Hin. apply orb_true_r.
  - exists identifiers. now split.
Qed.

Lemma registerAll_registered (registrations : list (string * string))
      (identifier from_ : string) (m : t) :
  wfBuilder m = true ->
  registered identifier from_ m \/ In (identifier, from_) registrations ->
  wfBuilder (registerAll registrations m) = true
  /\ registered identifier from_ (registerAll registrations m).
Proof.
  revert m. induction registrations as [|[i f] registrations IH]; intros m Hwf Hreg.
  - destruct Hreg as [Hreg|[]]. now split.
  - simpl. apply IH; [now apply addNamedImport_wf|].
    destruct Hreg as [Hreg|[Heq|Hin]].
    + left. now apply registered_kept.
    + injection Heq as -> ->. left. apply registered_add.
    + now right.
Qed.

Lemma toString_one (comment identifier from_ : string) :
  toString (addNamedImport identifier from_ (new comment))
  = Ok (JsString.join JsString.newline
          [ comment; "";
            "import { " ++ identifier ++ " } from " ++ JsString.JSON_stringify from_;
            ""; "" ]).
Proof. reflexivity. Qed.

Lemma toString_ok (m : t) : wfBuilder m = true -> exists code, toString m = Ok code.
Proof.
  intros Hwf.
  destruct (mapR_ok criteria (iterImports m) (criteria_ok m Hwf)) as (keyed & Hkeyed & _).
  unfold toString, importLines. rewrite Hkeyed. simpl. eauto.
Qed.

End Registrations.

(** C6: after any sequence of named-import registrations, an identifier
    registered for a source module, however many times, is held exactly once
    by the one import line of that module, and the module is serialised;
    registering it again leaves the builder as it is, and on a fresh builder
    the output is the header and the single line [import { x } from "m"].
    Two distinct identifiers registered for one module are serialised as one
    line whose identifiers are sorted on their lower-case forms.  The
    serialised lines of the named-import group follow the lower-case form of
    the first identifier of each line. *)
Theorem named_imports_deduplicated_and_sorted :
  (forall (comment : string) (registrations : list (string * string))
          (identifier from_ : string),
      In (identifier, from_) registrations ->
      exists identifiers code,
        ModuleBuilder.Map_get from_
          (ModuleBuilder._namedImports (registerAll registrations (ModuleBuilder.new comment)))
        = Some identifiers
        /\ count_occ string_dec (ModuleBuilder.sortIdentifiers identifiers) identifier = 1
        /\ NoDup (map fst (ModuleBuilder._namedImports
                             (registerAll registrations (ModuleBuilder.new comment))))
        /\ In (ModuleBuilder.namedImportTuple from_ identifiers)
              (ModuleBuilder.iterImports
                 (registerAll registrations (ModuleBuilder.new comment)))
        /\ ModuleBuilder.toString (registerAll registrations (ModuleBuilder.new comment))
           = Ok code)
  /\ (forall (m : ModuleBuilder.t) (comment identifier from_ : string) (n : nat),
         Nat.iter (S n) (ModuleBuilder.addNamedImport identifier from_) m
         = ModuleBuilder.addNamedImport identifier from_ m
         /\ ModuleBuilder.toString
              (Nat.iter (S n) (ModuleBuilder.addNamedImport identifier from_)
                        (ModuleBuilder.new comment))
            = Ok (JsString.join JsString.newline
                    [ comment; "";
                      "import { " ++ identifier ++ " } from "
                        ++ JsString.JSON_stringify from_;
                      ""; "" ]))
  /\ (forall comment a b from_ : string,
         a <> b ->
         ModuleBuilder.toString
           (ModuleBuilder.addNamedImport b from_
              (ModuleBuilder.addNamedImport a from_ (ModuleBuilder.new comment)))
         = Ok (JsString.join JsString.newline
                 [ comment; "";
                   "import { " ++ JsString.join ", " (ModuleBuilder.sortIdentifiers [a; b])
                     ++ " } from " ++ JsString.JSON_stringify from_;
                   ""; "" ])
         /\ Permutation (ModuleBuilder.sortIdentifiers [a; b]) [a; b]
         /\ caseInsensitive (ModuleBuilder.sortIdentifiers [a; b]))
  /\ (forall m : ModuleBuilder.t,
         wfBuilder m = true ->
         exists keyed : list (nat * string * string),
           mapR ModuleBuilder.criteria (ModuleBuilder.iterImports m) = Ok keyed
           /\ ModuleBuilder.toString m
              = Ok (JsString.join JsString.newline
                      ([ModuleBuilder._headerComment m; ""]
                         ++ map snd (ModuleBuilder.sortImports keyed)
                         ++ [""]
                         ++ map (fun code => (code ++ JsString.newline)%string)
                                (ModuleBuilder._typeDefCode m)
                         ++ [""]
                         ++ map (fun code => (code ++ JsString.newline)%string)
                                (ModuleBuilder._defCode m))%list)
           /\ StronglySorted
                (fun x y => String.leb (snd (fst x)) (snd (fst y)) = true)
                (namedGroup (ModuleBuilder.sortImports keyed))
           /\ (forall tuple,
                  In tuple (namedGroup (ModuleBuilder.sortImports keyed))
                  <-> exists from_ identifiers first,
                      In (from_, identifiers) (ModuleBuilder._namedImports m)
                      /\ hd_error (ModuleBuilder.sortIdentifiers identifiers) = Some first
                      /\ tuple
                         = (1, JsString.toLowerCase first,
                            "import { "
                              ++ JsString.join ", " (ModuleBuilder.sortIdentifiers identifiers)
                              ++ " } from " ++ JsString.JSON_stringify from_))
           /\ (forall from_ identifiers,
                  In (from_, identifiers) (ModuleBuilder._namedImports m) ->
                  caseInsensitive (ModuleBuilder.sortIdentifiers identifiers)
                  /\ NoDup (ModuleBuilder.sortIdentifiers identifiers))).
Proof.
  split; [|split; [|split]].
  - intros comment registrations identifier from_ Hin.
    destruct (registerAll_registered registrations identifier from_
                (ModuleBuilder.new comment) (new_wf comment) (or_intror Hin))
      as (Hwf & identifiers & Hget & Hid).
    destruct (toString_ok _ Hwf) as [code Hcode].
    exists identifiers, code.
    pose proof (Map_get_In _ _ _ Hget) as Hentry.
    pose proof Hwf as Hsets. apply andb_prop in Hsets. destruct Hsets as [Hnamed _].
    destruct (setsOk_entry _ _ _ Hnamed Hentry) as [Hd _].
    split; [exact Hget|]. split; [|split; [|split]].
    + rewrite (proj1 (Permutation_count_occ string_dec _ _)
                     (sortIdentifiers_perm identifiers)).
      now apply distinct_count.
    + unfold setsOk in Hnamed. apply andb_prop in Hnamed.
      apply distinct_NoDup. tauto.
    + now apply namedTuple_In.
    + exact Hcode.
  - intros m comment identifier from_ n.
    split; [apply addNamedImport_iter|].
    rewrite addNamedImport_iter. apply toString_one.
  - intros comment a b from_ Hne.
    split; [now apply toString_two|].
    split; [apply sortIdentifiers_perm | apply sortIdentifiers_sorted].
  - intros m Hwf.
    destruct (mapR_ok ModuleBuilder.criteria (ModuleBuilder.iterImports m)
                      (criteria_ok m Hwf)) as (keyed & Hkeyed & _).
    exists keyed. split; [exact Hkeyed|]. split; [|split; [|split]].
    + unfold ModuleBuilder.toString, ModuleBuilder.importLines. rewrite Hkeyed.
      reflexivity.
    + apply namedGroup_sorted.
    + intros tuple. split.
      * now apply namedGroup_origin.
      * intros (from_ & identifiers & first & Hin & Hfirst & ->).
        destruct (namedGroup_holds m keyed from_ identifiers Hwf Hkeyed Hin)
          as (first' & Hfirst' & Hheld).
        rewrite Hfirst in Hfirst'. injection Hfirst' as <-. exact Hheld.
    + intros from_ identifiers Hin.
      split; [apply sortIdentifiers_sorted|].
      apply andb_prop in Hwf. destruct Hwf as [Hnamed _].
      destruct (setsOk_entry _ _ _ Hnamed Hin) as [Hd _].
      eapply Permutation_NoDup;
        [apply Permutation_sym, sortIdentifiers_perm | now apply distinct_NoDup].
Qed.

Lemma named_imports_deduplicated_and_sorted_witness :
  (exists identifiers code,
      ModuleBuilder.Map_get "decoders"
        (ModuleBuilder._namedImports
           (registerAll [("string", "decoders"); ("array", "decoders");
                         ("makeScalar", "lib/graphql-tools"); ("string", "decoders")]
                        (ModuleBuilder.new "// @flow")))
      = Some identifiers
      /\ count_occ string_dec (ModuleBuilder.sortIdentifiers identifiers) "string" = 1
      /\ ModuleBuilder.toString
           (registerAll [("string", "decoders"); ("array", "decoders");
                         ("makeScalar", "lib/graphql-tools"); ("string", "decoders")]
                        (ModuleBuilder.new "// @flow"))
         = Ok code)
  /\ ModuleBuilder.toString
       (ModuleBuilder.addNamedImport "array" "decoders"
          (ModuleBuilder.addNamedImport "String" "decoders" (ModuleBuilder.new "// @flow")))
     = Ok (JsString.join JsString.newline
             [ "// @flow"; "";
               "import { "
                 ++ JsString.join ", " (ModuleBuilder.sortIdentifiers ["String"; "array"])
                 ++ " } from " ++ JsString.JSON_stringify "decoders";
               ""; "" ])
  /\ exists keyed : list (nat * string * string),
       mapR ModuleBuilder.criteria
            (ModuleBuilder.iterImports
               (ModuleBuilder.addNamedImport "string" "decoders"
                  (ModuleBuilder.new "// @flow")))
       = Ok keyed.
Proof.
  split; [|split].
  - destruct (proj1 named_imports_deduplicated_and_sorted "// @flow"
                    [("string", "decoders"); ("array", "decoders");
                     ("makeScalar", "lib/graphql-tools"); ("string", "decoders")]
                    "string" "decoders" (or_introl eq_refl))
      as (identifiers & code & Hget & Hcount & _ & _ & Hcode).
    exists identifiers, code. repeat split; assumption.
  - apply (proj1 (proj2 (proj2 named_imports_deduplicated_and_sorted))). discriminate.
  - destruct (proj2 (proj2 (proj2 named_imports_deduplicated_and_sorted))
                    (ModuleBuilder.addNamedImport "string" "decoders"
                       (ModuleBuilder.new "// @flow")) eq_refl)
      as (keyed & Hkeyed & _).
    exists keyed. exact Hkeyed.
Defined.

(* ------------------------------------------------------------------------- *)
(** ** The orphan check and the exit code *)

Section OrphanCheck.

Lemma filter_empty {A : Type} (p : A -> bool) (l : list A) :
  filter p l = [] <-> forall x, In x l -> p x = false.
Proof.
  induction l as [|a l IH]; simpl.
  - split; [intros _ x [] | reflexivity].
  - destruct (p a) eqn:Ha.
    + split; [discriminate|]. intros H. rewrite (H a (or_introl eq_refl)) in Ha.
      discriminate.
    + rewrite IH. split.
      * intros H x [<-|Hx]; auto.
      * intros H x Hx. apply H. now right.
Qed.

Lemma unexpectedFiles_empty (cwd dir : string) (pattern : RegExp)
      (expectedFiles entries : list string) :
  List.length (unexpectedFiles cwd dir pattern expectedFiles entries) = 0
  <-> forall entry,
      In entry entries ->
      pattern (Path.resolve cwd dir entry) = true ->
      In (Path.resolve cwd dir entry) (map (Path.resolve cwd dir) expectedFiles).
Proof.
  unfold unexpectedFiles, sortBy. rewrite sortWith_length, length_zero_iff_nil, filter_empty.
  split.
  - intros H entry Hin Hp. apply Set_has_In.
    specialize (H (Path.resolve cwd dir entry)).
    rewrite negb_false_iff in H. apply H.
    apply filter_In. split; [now apply in_map | exact Hp].
  - intros H f Hf. apply filter_In in Hf. destruct Hf as [Hf Hp].
    apply in_map_iff in Hf. destruct Hf as (entry & <- & Hin).
    apply negb_false_iff, Set_has_In. now apply H.
Qed.

Lemma checkOutputDir_result (cwd dir : string) (pattern : RegExp)
      (expectedFiles entries : list string) (fs : FileSystem) :
  readdir dir fs = (Ok entries, fs) ->
  checkOutputDir cwd dir pattern expectedFiles fs
  = (Ok (Nat.eqb (List.length (unexpectedFiles cwd dir pattern expectedFiles entries)) 0),
     fs).
Proof.
  intros Hdir. unfold checkOutputDir, bindIO. rewrite Hdir.
  destruct (List.length (unexpectedFiles cwd dir pattern expectedFiles entries));
    reflexivity.
Qed.

End OrphanCheck.

(** C9: when the directory can be listed, the orphan check returns [true]
    exactly when every entry that matches the pattern is one of the expected
    files, and [false] otherwise; whether the expected files are present in
    the directory plays no part: an expected file that is absent from the
    listing leaves the verdict [true], and the check of an empty directory
    is [true] whatever is expected. *)
Theorem orphan_check_one_sided :
  forall (cwd dir : string) (pattern : RegExp) (expectedFiles entries : list string)
         (fs : FileSystem),
    readdir dir fs = (Ok entries, fs) ->
    (checkOutputDir cwd dir pattern expectedFiles fs = (Ok true, fs)
     <-> forall entry,
         In entry entries ->
         pattern (Path.resolve cwd dir entry) = true ->
         In (Path.resolve cwd dir entry) (map (Path.resolve cwd dir) expectedFiles))
    /\ (checkOutputDir cwd dir pattern expectedFiles fs = (Ok true, fs)
        \/ checkOutputDir cwd dir pattern expectedFiles fs = (Ok false, fs))
    /\ (forall absent : string,
           ~ In absent entries ->
           checkOutputDir cwd dir pattern expectedFiles fs = (Ok true, fs) ->
           checkOutputDir cwd dir pattern (absent :: expectedFiles) fs = (Ok true, fs))
    /\ (entries = [] -> checkOutputDir cwd dir pattern expectedFiles fs = (Ok true, fs)).
Proof.
  intros cwd dir pattern expectedFiles entries fs Hdir.
  assert (forall expected,
             checkOutputDir cwd dir pattern expected fs = (Ok true, fs)
             <-> forall entry,
                 In entry entries ->
                 pattern (Path.resolve cwd dir entry) = true ->
                 In (Path.resolve cwd dir entry) (map (Path.resolve cwd dir) expected))
    as Hiff.
  { intros expected. rewrite (checkOutputDir_result _ _ _ _ _ _ Hdir).
    rewrite <- unexpectedFiles_empty. split.
    - intros H. injection H as H. now apply Nat.eqb_eq.
    - intros H. now rewrite H. }
  split; [apply Hiff|]. split; [|split].
  - rewrite (checkOutputDir_result _ _ _ _ _ _ Hdir).
    destruct (Nat.eqb _ 0); auto.
  - intros absent _ Htrue. apply Hiff. intros entry Hin Hp.
    simpl. right. now apply (proj1 (Hiff expectedFiles) Htrue).
  - intros ->. apply Hiff. intros entry [].
Qed.

Lemma orphan_check_one_sided_witness :
  checkOutputDir "/" "/api/scalars" js_pattern ["index.js"; "Date.js"; "Missing.js"]
                 {| fs_files := [("/api/scalars/Date.js", "Date serialize decoder");
                                 ("/api/scalars/notes.txt", "")];
                    fs_dirs := ["/api/scalars"] |}
  = (Ok true,
     {| fs_files := [("/api/scalars/Date.js", "Date serialize decoder");
                     ("/api/scalars/notes.txt", "")];
        fs_dirs := ["/api/scalars"] |}).
Proof.
  apply (proj2 (proj1 (orphan_check_one_sided
                         "/" "/api/scalars" js_pattern
                         ["index.js"; "Date.js"; "Missing.js"]
                         ["Date.js"; "notes.txt"]
                         {| fs_files := [("/api/scalars/Date.js", "Date serialize decoder");
                                         ("/api/scalars/notes.txt", "")];
                            fs_dirs := ["/api/scalars"] |}
                         eq_refl))).
  intros entry [<-|[<-|[]]] Hp.
  - vm_compute. auto.
  - vm_compute in Hp. discriminate Hp.
Defined.

Section ScalarContract.
Variable prettify : string -> Result string.
Variable exportsOfSource : string -> Result (list string).

Lemma existsSync_file (file source : string) (fs : FileSystem) :
  lookup file (fs_files fs) = Some source -> existsSync file fs = (Ok true, fs).
Proof.
  intros Hl. unfold existsSync.
  assert (existsb (fun entry => String.eqb (fst entry) file) (fs_files fs) = true) as ->.
  { induction (fs_files fs) as [|[k v] files IH]; simpl in *; [discriminate|].
    destruct (String.eqb k file); [reflexivity | now apply IH]. }
  reflexivity.
Qed.

Lemma getExportsFromPath_file (file source : string) (exports : list string)
      (fs : FileSystem) :
  lookup file (fs_files fs) = Some source ->
  exportsOfSource source = Ok exports ->
  getExportsFromPath exportsOfSource file fs = (Ok exports, fs).
Proof.
  intros Hl He. unfold getExportsFromPath, bindIO, read, readFile, lift.
  now rewrite Hl, He.
Qed.

(** The outcome of [writeScalarImpl] on an existing file. *)
Lemma writeScalarImpl_existing (schema : GraphQLSchema) (name outputFile source : string)
      (exports : list string) (fs : FileSystem) :
  lookup outputFile (fs_files fs) = Some source ->
  exportsOfSource source = Ok exports ->
  writeScalarImpl prettify exportsOfSource schema name outputFile fs
  = (if negb (Set_has name exports) then Err (ContractViolation outputFile name)
     else if negb (Set_has "serialize" exports)
          then Err (ContractViolation outputFile "serialize")
          else if negb (Set_has "decoder" exports)
               then Err (ContractViolation outputFile "decoder")
               else Ok tt,
     fs).
Proof.
  intros Hl He. unfold writeScalarImpl, bindIO.
  rewrite (existsSync_file _ _ _ Hl), (getExportsFromPath_file _ _ _ _ Hl He).
  destruct (Set_has name exports), (Set_has "serialize" exports),
    (Set_has "decoder" exports); reflexivity.
Qed.

End ScalarContract.

(** C8: when the scaffold file of a scalar exists and the identifiers the
    export scanner reports for it lack the scalar's name, [serialize] or
    [decoder], [writeScalarImpl] throws the error that names the file and
    the first of these that is missing, and leaves the file system as it
    was; a file that exports the name and [serialize] but no [decoder] fails
    on [decoder]. *)
Theorem scalar_contract_violation :
  forall (prettify : string -> Result string)
         (exportsOfSource : string -> Result (list string))
         (schema : GraphQLSchema) (name outputFile source : string)
         (exports : list string) (fs : FileSystem),
    lookup outputFile (fs_files fs) = Some source ->
    exportsOfSource source = Ok exports ->
    (forall required : string,
        In required [name; "serialize"; "decoder"] ->
        Set_has required exports = false ->
        exists symbol : string,
          In symbol [name; "serialize"; "decoder"]
          /\ Set_has symbol exports = false
          /\ writeScalarImpl prettify exportsOfSource schema name outputFile fs
             = (Err (ContractViolation outputFile symbol), fs))
    /\ (Set_has name exports = true ->
        Set_has "serialize" exports = true ->
        Set_has "decoder" exports = false ->
        writeScalarImpl prettify exportsOfSource schema name outputFile fs
        = (Err (ContractViolation outputFile "decoder"), fs)).
Proof.
  intros prettify exportsOfSource schema name outputFile source exports fs Hl He.
  rewrite (writeScalarImpl_existing prettify exportsOfSource schema name outputFile
                                    source exports fs Hl He).
  split.
  - intros required Hin Hmissing.
    destruct (Set_has name exports) eqn:Hname; simpl.
    + destruct (Set_has "serialize" exports) eqn:Hser; simpl.
      * destruct (Set_has "decoder" exports) eqn:Hdec; simpl.
        -- exfalso. simpl in Hin.
           destruct Hin as [<-|[<-|[<-|[]]]]; congruence.
        -- exists "decoder". simpl. auto.
      * exists "serialize". simpl. auto.
    + exists name. simpl. auto.
  - intros -> -> ->. reflexivity.
Qed.

Lemma scalar_contract_violation_witness :
  writeScalarImpl (fun code => Ok code) exampleScanner schema_scalars
                  "Date" "/api/scalars/Date.js" fs_no_decoder
  = (Err (ContractViolation "/api/scalars/Date.js" "decoder"), fs_no_decoder).
Proof.
  apply (proj2 (scalar_contract_violation
                  (fun code => Ok code) exampleScanner schema_scalars
                  "Date" "/api/scalars/Date.js" "Date serialize" ["Date"; "serialize"]
                  fs_no_decoder eq_refl eq_refl));
    reflexivity.
Defined.

Section Results.
Variable cwd : string.
Variable prettify : string -> Result string.
Variable exportsOfSource : string -> Result (list string).
Variable lowerCaseFirst : string -> string.

(** The fourth result of a run, that of the scalar implementations, is
    [undefined] whatever the orphan check found. *)
Lemma generate_scalar_result (schema : GraphQLSchema) (schemaDir : string)
      (fs fs' : FileSystem) (results : list (option bool)) :
  generate cwd prettify exportsOfSource lowerCaseFirst schema schemaDir fs
  = (Ok results, fs') ->
  nth_error results 3 = Some None.
Proof.
  unfold generate, void, boolean. unfold bindIO, ret.
  repeat match goal with
         | |- context [match ?c ?x with _ => _ end] =>
             match type of (c x) with
             | (Result _ * FileSystem)%type =>
                 let r := fresh "r" in
                 let fs1 := fresh "fs" in
                 destruct (c x) as [[r|?] fs1]; try discriminate
             end
         end.
  intros H. injection H as <- _. reflexivity.
Qed.

End Results.

(** C7: a file that the run did not intend to produce, found in the
    directory of the scalar implementations, is seen by the orphan check but
    the result of the check is dropped by [writeScalarImpls]: the result of
    that category is [undefined] in every run, and the run on such a
    directory ends with exit code 0.  The same file in the directory of the
    interface implementations ends the run with exit code 1, and a run
    without orphans and without errors ends with exit code 0. *)
Theorem scalar_orphan_exit_code :
  (forall (cwd : string) (prettify : string -> Result string)
          (exportsOfSource : string -> Result (list string))
          (lowerCaseFirst : string -> string)
          (schema : GraphQLSchema) (schemaDir : string)
          (fs fs' : FileSystem) (results : list (option bool)),
      generate cwd prettify exportsOfSource lowerCaseFirst schema schemaDir fs
      = (Ok results, fs') ->
      nth_error results 3 = Some None)
  /\ fst (exampleRun fs_scalar_orphan) = 0
  /\ fst (checkOutputDir "/" "/api/scalars" js_pattern
            ["/api/scalars/index.js"; "/api/scalars/Date.js"]
            (snd (exampleRun fs_scalar_orphan)))
     = Ok false
  /\ fst (exampleRun fs_interface_orphan) = 1
  /\ fst (exampleRun fs_clean) = 0.
Proof.
  split; [exact generate_scalar_result|].
  repeat split; vm_compute; reflexivity.
Qed.

Lemma scalar_orphan_exit_code_witness :
  nth_error [None; None; None; None; Some true; Some true] 3 = Some (@None bool).
Proof.
  apply (proj1 scalar_orphan_exit_code
               "/" (fun code => Ok code) exampleScanner (fun s => s)
               schema_scalars "/api" fs_scalar_orphan
               (snd (generate "/" (fun code => Ok code) exampleScanner (fun s => s)
                              schema_scalars "/api" fs_scalar_orphan))).
  vm_compute. reflexivity.
Defined.

(* ------------------------------------------------------------------------- *)
(** ** Examples *)

Example query_resolver_shape :
  toResolverTypeDefinition (ObjectType "Query" [] [userField])
  = Ok (template [ "export type QueryResolver = {|";
                   "user: Resolver<null,User | null>,";
                   "|}" ]).
Proof. reflexivity. Qed.

Example user_resolver_shape :
  toResolverTypeDefinition (ObjectType "User" [] [idField; nameField])
  = Ok (template [ "export type UserResolver = {|";
                   "id: Resolver<User,string | number>,";
                   "name: Resolver<User,string | null>,";
                   "|}" ]).
Proof. reflexivity. Qed.

(** The field [id] of the two interfaces is emitted in both sections, and
    not again among the own fields. *)
Example shared_field_resolver_shape :
  toResolverTypeDefinition userType
  = Ok (template [ "export type UserResolver = {|";
                   "";
                   "// From Node";
                   "id: Resolver<User,string | number>,";
                   "";
                   "// From Entity";
                   "id: Resolver<User,string | number>,";
                   "name: Resolver<User,string | null>,";
                   "|}" ]).
Proof. reflexivity. Qed.

Example index_of_schema_roots :
  namedTypesFromSchema schema_roots = ["Query"; "User"].
Proof. reflexivity. Qed.

Example union_aliases :
  interfaceDef schema_union "Pet"
  = template [ "";
               sp 16 ++ "export type Pet = Cat | Bird;";
               sp 16 ++ "export type Pet$typename = "
                 ++ dq ++ "Cat" ++ dq ++ " | " ++ dq ++ "Bird" ++ dq ++ ";";
               sp 12 ].
Proof. reflexivity. Qed.

Example interface_aliases :
  interfaceDef schema_union "Node"
  = template [ "";
               sp 16 ++ "export type Node = Bird | Cat;";
               sp 16 ++ "export type Node$typename = "
                 ++ dq ++ "Bird" ++ dq ++ " | " ++ dq ++ "Cat" ++ dq ++ ";";
               sp 12 ].
Proof. reflexivity. Qed.

Example identifiers_sorted_on_lower_case :
  ModuleBuilder.sortIdentifiers ["String"; "array"; "Boolean"] = ["array"; "Boolean"; "String"].
Proof. reflexivity. Qed.

Example scalar_scaffold_imports :
  ModuleBuilder.importLines
    (ModuleBuilder.addTypeImport "Decoder" "decoders"
       (ModuleBuilder.addNamedImport "string" "decoders" (ModuleBuilder.new "// @flow")))
  = Ok [ "import { string } from " ++ dq ++ "decoders" ++ dq;
         "import type { Decoder } from " ++ dq ++ "decoders" ++ dq ].
Proof. reflexivity. Qed.

(** The run on a scalar scaffold without [decoder]: the contract error ends
    the run with exit code 1 and the scaffold keeps its contents. *)
Example missing_decoder_fails_the_run :
  fst (runWithOptions "/" (fun code => Ok code) exampleScanner
                      (fun _ => Ok schema_scalars) (fun s => s)
                      exampleOptions fs_no_decoder)
  = Err (ContractViolation "/api/scalars/Date.js" "decoder")
  /\ fst (exampleRun fs_no_decoder) = 1
  /\ lookup "/api/scalars/Date.js" (fs_files (snd (exampleRun fs_no_decoder)))
     = Some "Date serialize".
Proof. repeat split; vm_compute; reflexivity. Qed.

(** The files of a first run. *)
Example files_of_a_clean_run :
  map fst (fs_files (snd (exampleRun fs_clean)))
  = [ "/api/schema.graphql";
      "/api/types/index.js";
      "/api/context/index.js";
      "/api/models/index.js";
      "/api/scalars/index.js";
      "/api/scalars/Date.js";
      "/api/interfaces/Node.js";
      "/api/resolvers/index.js";
      "/api/resolvers/QueryResolver.js";
      "/api/resolvers/UserResolver.js" ].
Proof. vm_compute. reflexivity. Qed.

(* ------------------------------------------------------------------------- *)
(** ** Further properties: dispatchers and renderers *)

Section MoreStrings.

Lemma substring_split (s : string) (k : nat) :
  k <= String.length s ->
  String.substring 0 k s ++ String.substring k (String.length s - k) s = s.
Proof.
  revert k. induction s as [|c s IH]; intros k Hk; simpl in Hk.
  - replace k with 0 by lia. reflexivity.
  - destruct k as [|k].
    + simpl. now rewrite substring_all.
    + simpl. rewrite IH by lia. reflexivity.
Qed.

Lemma endsWith_inv (suffix s : string) :
  JsString.endsWith suffix s = true ->
  s = String.substring 0 (String.length s - String.length suffix) s ++ suffix.
Proof.
  unfold JsString.endsWith. intros H. apply andb_prop in H. destruct H as [Hle Heq].
  apply Nat.leb_le in Hle. apply String.eqb_eq in Heq.
  rewrite <- (substring_split s (String.length s - String.length suffix)) at 1 by lia.
  replace (String.length s - (String.length s - String.length suffix))
    with (String.length suffix) by lia.
  now rewrite Heq.
Qed.

Lemma join_cons_nonempty (sep x : string) (l : list string) :
  x <> "" -> JsString.join sep (x :: l) <> "".
Proof.
  intros Hx. destruct x as [|c x]; [contradiction|].
  destruct l; simpl; discriminate.
Qed.

Lemma truthy_iff (s : string) : JsString.truthy s = true <-> s <> "".
Proof.
  unfold JsString.truthy. rewrite negb_true_iff. apply String.eqb_neq.
Qed.

End MoreStrings.

(** X1: [nonOptional] succeeds exactly on the strings that end with
    " | null", and what it returns is the string without that suffix:
    appending the suffix to the result gives the argument back. *)
Theorem nonOptional_round_trip :
  forall s base : string,
    nonOptional s = Ok base <-> s = base ++ " | null".
Proof.
  intros s base. split.
  - unfold nonOptional.
    destruct (JsString.endsWith " | null" s) eqn:Hend; simpl; [|discriminate].
    intros H. injection H as <-.
    apply endsWith_inv in Hend. exact Hend.
  - intros ->. apply nonOptional_append.
Qed.

(** X2: the input-position and the output-position reference renderers
    agree on every type reference, on the rendering and on the exception
    alike, although they go through different dispatchers. *)
Theorem input_and_output_renderers_agree :
  forall t : TypeRef, toFlowInputTypeRef t = toFlowOutputTypeRef t.
Proof.
  induction t as [n|n|n|n|n|n|t IH|t IH].
  - reflexivity.
  - reflexivity.
  - reflexivity.
  - reflexivity.
  - reflexivity.
  - reflexivity.
  - rewrite renderInput_List, render_List. now rewrite IH.
  - rewrite renderInput_NonNull, render_NonNull. now rewrite IH.
Qed.

Section RenderErrors.

Lemma namedRef_error (t : TypeRef) (e : Error) :
  namedRef t = Err e -> referenceError e.
Proof.
  unfold namedRef. destruct (negb (JsString.truthy _)); [|discriminate].
  intros H. injection H as <-. left. eauto.
Qed.

Lemma nonOptional_error (s : string) (e : Error) :
  nonOptional s = Err e -> referenceError e.
Proof.
  unfold nonOptional. destruct (negb (JsString.endsWith " | null" s)); [|discriminate].
  intros H. injection H as <-. right. left. eauto.
Qed.

Lemma nonOptionalValue_error (v : JsValue) (e : Error) :
  nonOptionalValue v = Err e -> referenceError e.
Proof.
  destruct v as [s| |]; simpl.
  - destruct (nonOptional s) eqn:Hs; simpl; [discriminate|].
    intros H. injection H as <-. exact (nonOptional_error _ _ Hs).
  - intros H. injection H as <-. right. right. reflexivity.
  - intros H. injection H as <-. right. right. reflexivity.
Qed.

Lemma nonOptionalValue_typeError (v : JsValue) :
  nonOptionalValue v = Err (TypeError "baseTypeExpr.endsWith is not a function")
  <-> isString v = false.
Proof.
  destruct v as [s| |]; simpl; split; try reflexivity; try discriminate.
  unfold nonOptional. destruct (negb (JsString.endsWith " | null" s)); discriminate.
Qed.

Lemma render_error (t : TypeRef) (e : Error) :
  toFlowOutputTypeRef t = Err e -> referenceError e.
Proof.
  induction t as [n|n|n|n|n|n|t IH|t IH].
  - rewrite render_Scalar. discriminate.
  - apply (namedRef_error (Object n)).
  - apply (namedRef_error (Interface n)).
  - apply (namedRef_error (Union n)).
  - apply (namedRef_error (Enum n)).
  - apply (namedRef_error (InputObject n)).
  - rewrite render_List. destruct (toFlowOutputTypeRef t); simpl; [discriminate|].
    intros H. injection H as <-. now apply IH.
  - rewrite render_NonNull. destruct (toFlowOutputTypeRef t) as [v|e']; simpl.
    + apply nonOptionalValue_error.
    + intros H. injection H as <-. now apply IH.
Qed.

End RenderErrors.

(** X3: a reference renderer throws nothing but the missing-name error, the
    malformed-nullable error and the type error of calling [endsWith] on a
    value that is not a string: its dispatch is exhaustive.  A wrapper
    fails with the error of the reference it wraps.  A scalar never throws
    (also without a name): it renders as a string with the suffix unless its
    name is inherited from [Object.prototype].  Any other named node without
    a name is rejected with the error that names the node.  The type error
    comes from a non-null wrapper around a scalar with an inherited name and
    from nowhere else. *)
Theorem renderer_errors :
  (forall (t : TypeRef) (e : Error),
      toFlowOutputTypeRef t = Err e ->
      (exists node, e = MissingTypeName node)
      \/ (exists s, e = MalformedNullableExpr s)
      \/ e = TypeError "baseTypeExpr.endsWith is not a function")
  /\ (forall (t : TypeRef) (e : Error),
         toFlowOutputTypeRef t = Err e ->
         toFlowOutputTypeRef (List t) = Err e
         /\ toFlowOutputTypeRef (NonNull t) = Err e)
  /\ (forall name : string,
         exists v, toFlowOutputTypeRef (Scalar name) = Ok v
                   /\ (inheritedScalar (Scalar name) = false ->
                       exists base, v = StringValue (base ++ " | null")))
  /\ (forall t : TypeRef,
         name_of t = Some "" ->
         classOf t <> GraphQLScalarType ->
         toFlowOutputTypeRef t = Err (MissingTypeName (String_ t)))
  /\ (forall (t : TypeRef) (v : JsValue),
         toFlowOutputTypeRef t = Ok v ->
         (toFlowOutputTypeRef (NonNull t)
          = Err (TypeError "baseTypeExpr.endsWith is not a function")
          <-> inheritedScalar t = true)).
Proof.
  split; [|split; [|split; [|split]]].
  - intros t e H. exact (render_error t e H).
  - intros t e H. rewrite render_List, render_NonNull, H. split; reflexivity.
  - intros name. exists (scalarRef name). split; [apply render_Scalar|].
    apply scalarRef_suffix.
  - intros t Hname Hclass.
    destruct t as [n|n|n|n|n|n|t|t]; simpl in Hname; try discriminate;
      injection Hname as ->; try reflexivity.
    exfalso. apply Hclass. reflexivity.
  - intros t v Hv. rewrite render_NonNull, Hv. simpl bindR.
    rewrite nonOptionalValue_typeError, (render_isString t v Hv).
    apply negb_false_iff.
Qed.

Lemma renderer_errors_witness :
  ((exists node, MalformedNullableExpr "Date" = MissingTypeName node)
   \/ (exists s, MalformedNullableExpr "Date" = MalformedNullableExpr s)
   \/ MalformedNullableExpr "Date"
      = TypeError "baseTypeExpr.endsWith is not a function")
  /\ toFlowOutputTypeRef (List (Object "")) = Err (MissingTypeName "")
  /\ toFlowOutputTypeRef (Enum "") = Err (MissingTypeName "")
  /\ toFlowOutputTypeRef (NonNull (Scalar "toString"))
     = Err (TypeError "baseTypeExpr.endsWith is not a function").
Proof.
  split; [|split; [|split]].
  - apply (proj1 renderer_errors (NonNull (NonNull (Scalar "Date")))). reflexivity.
  - apply (proj1 (proj2 renderer_errors) (Object "") (MissingTypeName "")). reflexivity.
  - apply (proj1 (proj2 (proj2 (proj2 renderer_errors))) (Enum "")).
    + reflexivity.
    + discriminate.
  - apply (proj2 (proj2 (proj2 (proj2 renderer_errors))) (Scalar "toString")
                 (NativeFunction "toString") eq_refl).
    reflexivity.
Defined.

(** X4: both dispatchers select by the class of the node: when the mapping
    holds a handler for that class, the result is that handler applied to
    the node and the context, whatever the other handlers and the default
    are; without one, the default handler is applied.  A node of a class
    outside the dispatcher's own classes (an input object for [odispatch];
    an object, interface or union for [idispatch]) always goes to the
    default. *)
Theorem dispatch_by_class :
  forall (N O C : Type) (node : GraphQLNode N) (value : N) (context : C),
    (forall d : OutputTypeDispatchers N O C,
        odispatch value d context
        = match outputHandler d (classOf value) with
          | Some h => h value context
          | None =>
              match default d with
              | Some h => h value context
              | None => Err (UnhandledVariant (String_ value))
              end
          end)
    /\ (forall d : InputTypeDispatchers N O C,
           idispatch value d context
           = match inputHandler d (classOf value) with
             | Some h => h value context
             | None =>
                 match default_ d with
                 | Some h => h value context
                 | None => Err (TypeError "dispatchers.default is not a function")
                 end
             end).
Proof.
  intros N O C node value context. split; intros d.
  - unfold odispatch, guarded, instanceof.
    destruct (classOf value); simpl;
      repeat match goal with
             | |- context [match ?h d with _ => _ end] => destruct (h d)
             end; reflexivity.
  - unfold idispatch, guarded, instanceof.
    destruct (classOf value); simpl;
      repeat match goal with
             | |- context [match ?h d with _ => _ end] => destruct (h d)
             end; reflexivity.
Qed.

(* ------------------------------------------------------------------------- *)
(** ** Further properties: resolver shapes and definitions *)

Section FieldSignature.

Lemma toFlowArgType_truthy (args : list GraphQLArgument) (a : string) :
  toFlowArgType args = Ok a -> JsString.truthy a = true.
Proof.
  unfold toFlowArgType. destruct (mapR _ args); simpl; [|discriminate].
  intros H. injection H as <-. reflexivity.
Qed.

Lemma filterBoolean_two (p o : string) :
  JsString.truthy p = true -> JsString.truthy o = true ->
  JsString.join "," (filterBoolean [Some p; Some o; None]) = p ++ "," ++ o.
Proof.
  intros Hp Ho. unfold filterBoolean. simpl. now rewrite Hp, Ho.
Qed.

Lemma filterBoolean_three (p o a : string) :
  JsString.truthy p = true -> JsString.truthy o = true -> JsString.truthy a = true ->
  JsString.join "," (filterBoolean [Some p; Some o; Some a]) = p ++ "," ++ o ++ "," ++ a.
Proof.
  intros Hp Ho Ha. unfold filterBoolean. simpl. now rewrite Hp, Ho, Ha.
Qed.

Lemma mapR_err {A B : Type} (f : A -> Result B) (l : list A) (e : Error) :
  mapR f l = Err e -> exists a, In a l /\ f a = Err e.
Proof.
  induction l as [|a l IH]; simpl; [discriminate|].
  destruct (f a) as [b|e'] eqn:Ha; simpl.
  - destruct (mapR f l) as [bs|e'']; simpl; [discriminate|].
    intros H. injection H as <-. destruct (IH eq_refl) as (x & Hx & Hfx).
    exists x. split; [now right | exact Hfx].
  - intros H. injection H as <-. exists a. split; [now left | exact Ha].
Qed.

Lemma toFlowArgType_error (args : list GraphQLArgument) (e : Error) :
  toFlowArgType args = Err e -> referenceError e.
Proof.
  unfold toFlowArgType.
  destruct (mapR _ args) as [exprs|e'] eqn:Hm; simpl; [discriminate|].
  intros H. injection H as <-.
  apply mapR_err in Hm. destruct Hm as (arg & _ & Harg).
  rewrite renderInput_eq in Harg.
  destruct (toFlowOutputTypeRef (arg_type arg)) as [s|e''] eqn:Hr; simpl in Harg;
    [discriminate|].
  injection Harg as <-. exact (render_error _ _ Hr).
Qed.

Lemma toFieldTypeDefinition_error (parentObj : NamedType) (field : GraphQLField)
      (e : Error) :
  toFieldTypeDefinition parentObj field = Err e -> referenceError e.
Proof.
  unfold toFieldTypeDefinition.
  destruct (toFlowOutputTypeRef (field_type field)) as [output|e'] eqn:Hout; simpl.
  - destruct (List.length (field_args field) =? 0)%nat; simpl; [discriminate|].
    destruct (toFlowArgType (field_args field)) as [a|e'] eqn:Ha; simpl; [discriminate|].
    intros H. injection H as <-. exact (toFlowArgType_error _ _ Ha).
  - intros H. injection H as <-. exact (render_error _ _ Hout).
Qed.

End FieldSignature.

(** X5: the resolver signature of a field.  The parent type is [null] for
    the root types [Query] and [Mutation] and the name of the type
    otherwise; the arguments are left out entirely when the field takes
    none, and are the third type argument otherwise.  An error of the
    output type is thrown before the arguments are looked at. *)
Theorem field_signature :
  forall (parentObj : NamedType) (field : GraphQLField),
    (forall output : JsValue,
        toFlowOutputTypeRef (field_type field) = Ok output ->
        JsValue_toString output <> "" ->
        type_name parentObj <> "" ->
        (field_args field = [] ->
         toFieldTypeDefinition parentObj field
         = Ok (field_name field ++ ": Resolver<" ++ parentType parentObj ++ ","
                 ++ JsValue_toString output ++ ">,"))
        /\ (forall a : string,
               field_args field <> [] ->
               toFlowArgType (field_args field) = Ok a ->
               toFieldTypeDefinition parentObj field
               = Ok (field_name field ++ ": Resolver<" ++ parentType parentObj ++ ","
                       ++ JsValue_toString output ++ "," ++ a ++ ">,")))
    /\ (forall e : Error,
           toFlowOutputTypeRef (field_type field) = Err e ->
           toFieldTypeDefinition parentObj field = Err e).
Proof.
  intros parentObj field. split.
  - intros output Hout Hne Hname.
    assert (JsString.truthy (parentType parentObj) = true) as Hparent.
    { unfold parentType. destruct (Set_has (type_name parentObj) ROOT_TYPES);
        [reflexivity | now apply truthy_iff]. }
    apply truthy_iff in Hne.
    unfold toFieldTypeDefinition. cbv zeta.
    change (if Set_has (type_name parentObj) ROOT_TYPES
            then "null" else type_name parentObj) with (parentType parentObj).
    rewrite Hout. split.
    + intros ->. cbn [List.length Nat.eqb bindR].
      rewrite (filterBoolean_two _ _ Hparent Hne), !append_assoc. reflexivity.
    + intros a Hargs Ha.
      destruct (field_args field) as [|arg args] eqn:Hfa; [contradiction|].
      cbn [List.length Nat.eqb bindR]. rewrite Ha. cbn [bindR].
      rewrite (filterBoolean_three _ _ _ Hparent Hne (toFlowArgType_truthy _ _ Ha)),
        !append_assoc. reflexivity.
  - intros e Hout. unfold toFieldTypeDefinition. now rewrite Hout.
Qed.

Lemma field_signature_witness :
  toFieldTypeDefinition (ObjectType "Query" [] [userField]) userField
  = Ok ("user" ++ ": Resolver<" ++ "null" ++ "," ++ "User | null" ++ ">,")
  /\ toFieldTypeDefinition
       catType
       {| field_name := "name"; field_type := Scalar "String";
          field_args := [ {| arg_name := "upper"; arg_type := NonNull (Scalar "Boolean") |} ] |}
     = Ok ("name" ++ ": Resolver<" ++ "Cat" ++ "," ++ "string | null" ++ ","
             ++ "{| +upper: boolean |}" ++ ">,").
Proof.
  split.
  - apply (proj1 (proj1 (field_signature (ObjectType "Query" [] [userField]) userField)
                        (StringValue "User | null") eq_refl
                        ltac:(discriminate) ltac:(discriminate))).
    reflexivity.
  - apply (proj2 (proj1 (field_signature
                           catType
                           {| field_name := "name"; field_type := Scalar "String";
                              field_args := [ {| arg_name := "upper";
                                                 arg_type := NonNull (Scalar "Boolean") |} ] |})
                        (StringValue "string | null") eq_refl
                        ltac:(discriminate) ltac:(discriminate))).
    + discriminate.
    + reflexivity.
Defined.

Section OwnFields.

Lemma emittedFor_keys (names : list string) (entries : list Line) :
  emittedFor names entries -> map line_key entries = map Some names.
Proof.
  induction 1 as [|name line names entries Hk _ IH]; simpl; [reflexivity|].
  now rewrite Hk, IH.
Qed.

Lemma ownLines_keys (node : NamedType) :
  forallb fieldOk (getFields node) = true ->
  exists own,
    ownLines node = Ok own
    /\ emittedFor
         (filter (fun f => negb (existsb (declares f) (getInterfaces node)))
                 (Object_keys (getFields node)))
         own.
Proof.
  intros Hall. unfold ownLines.
  rewrite (filter_ext (fun name => negb (Set_has name (seenFields node)))
                      (fun f => negb (existsb (declares f) (getInterfaces node))))
    by (intros f; now rewrite seenFields_declares).
  apply fieldLines_ok; [exact Hall|].
  intros name Hin. apply filter_In in Hin. tauto.
Qed.

End OwnFields.

(** X6: for an Object type whose field and argument types are well formed,
    the emitted text is the opening line, the sections of the interfaces,
    the lines of the own fields and the closing line, in that order.  The
    own lines are those of the fields that no implemented interface
    declares, one line each in the order of their declaration, and the text
    of each starts with the name of its field.  No field of the type is
    lost: every field name of the Object has at least one line in the shape,
    and a field that no interface declares has as many lines as the Object
    declares it. *)
Theorem own_fields_in_resolver_shape :
  forall (name : string) (ifaces : list InterfaceDef) (fields : FieldMap),
    shapeOk (ObjectType name ifaces fields) = true ->
    exists (sections : list (list Line)) (own : list Line),
      sectionLines (ObjectType name ifaces fields) = Ok sections
      /\ ownLines (ObjectType name ifaces fields) = Ok own
      /\ toResolverTypeDefinition (ObjectType name ifaces fields)
         = Ok (shapeText name sections own)
      /\ Forall signatureLine own
      /\ map line_key own
         = map Some (filter (fun f => negb (existsb (declares f) ifaces))
                            (Object_keys fields))
      /\ (forall f : string,
             In f (Object_keys fields) ->
             1 <= occurrences f (concat sections ++ own))
      /\ (forall f : string,
             existsb (declares f) ifaces = false ->
             occurrences f (concat sections ++ own)
             = count_occ string_dec (Object_keys fields) f).
Proof.
  intros name ifaces fields Hok.
  apply andb_prop in Hok. destruct Hok as [Hifaces Hfields].
  destruct (sectionLines_ok (ObjectType name ifaces fields) ifaces Hifaces)
    as (sections & Hsections & _ & Hcount).
  destruct (ownLines_keys (ObjectType name ifaces fields) Hfields) as (own & Hown & Hem).
  simpl getInterfaces in Hem. simpl getFields in Hem.
  assert (forall f, existsb (declares f) ifaces = false ->
                    occurrences f (concat sections ++ own)
                    = count_occ string_dec (Object_keys fields) f) as Hfree.
  { intros f Hf. rewrite occurrences_app, Hcount, (occurrences_emittedFor f _ _ Hem).
    assert (filter (declares f) ifaces = []) as ->.
    { apply filter_empty. intros iface Hin.
      destruct (declares f iface) eqn:Hd; [|reflexivity].
      assert (existsb (declares f) ifaces = true) as Hex
          by (apply existsb_exists; eauto).
      congruence. }
    simpl. clear Hem.
    induction (Object_keys fields) as [|k keys IH]; simpl; [reflexivity|].
    destruct (existsb (declares k) ifaces) eqn:Hk; simpl.
    - destruct (string_dec k f) as [->|_]; [congruence | exact IH].
    - destruct (string_dec k f); now rewrite IH. }
  exists sections, own. split; [exact Hsections|]. split; [exact Hown|].
  split.
  { change (toResolverTypeDefinition (ObjectType name ifaces fields))
      with (objectResolverDefinition (ObjectType name ifaces fields)).
    unfold objectResolverDefinition, sectionLines.
    simpl getInterfaces. rewrite Hsections. simpl bindR. rewrite Hown. reflexivity. }
  split; [exact (fieldLines_text _ _ _ _ Hown)|].
  split; [now apply emittedFor_keys|]. split; [|exact Hfree].
  intros f Hin.
  destruct (existsb (declares f) ifaces) eqn:Hdecl.
  - rewrite occurrences_app, Hcount.
    apply existsb_exists in Hdecl. destruct Hdecl as (iface & Hiface & Hd).
    assert (In iface (filter (declares f) ifaces)) as Hfi by (apply filter_In; tauto).
    destruct (filter (declares f) ifaces); [contradiction | simpl; lia].
  - rewrite (Hfree f Hdecl). apply count_occ_In. exact Hin.
Qed.

Lemma own_fields_in_resolver_shape_witness :
  exists (sections : list (list Line)) (own : list Line),
    sectionLines catType = Ok sections
    /\ ownLines catType = Ok own
    /\ toResolverTypeDefinition catType = Ok (shapeText "Cat" sections own)
    /\ map line_key own = [Some "name"]
    /\ 1 <= occurrences "id" (concat sections ++ own)
    /\ occurrences "name" (concat sections ++ own) = 1.
Proof.
  destruct (own_fields_in_resolver_shape "Cat" [nodeInterface] [idField; nameField] eq_refl)
    as (sections & own & Hsections & Hown & Htext & _ & Hkeys & Hsome & Hfree).
  exists sections, own. repeat split; try assumption.
  - apply Hsome. simpl. auto.
  - exact (Hfree "name" eq_refl).
Defined.

Section Definitions.

Lemma lookup_key {V : Type} (name : string) (m : list (string * V)) :
  In name (map fst m) -> exists v, lookup name m = Some v.
Proof.
  induction m as [|[k v] m IH]; simpl; [intros []|].
  intros [->|Hin].
  - rewrite String.eqb_refl. eauto.
  - destruct (String.eqb k name); [eauto | now apply IH].
Qed.

Lemma index_getType (schema : GraphQLSchema) (name : string) :
  In name (namedTypesFromSchema schema) -> exists node, getType schema name = Some node.
Proof.
  intros Hin. apply index_In in Hin. destruct Hin as [Hin _].
  now apply lookup_key.
Qed.

Lemma fieldLine_error (node : NamedType) (fields : FieldMap) (name : string) (e : Error) :
  In name (Object_keys fields) ->
  fieldLine node fields name = Err e -> referenceError e.
Proof.
  intros Hin. destruct (getField_some name fields Hin) as (field & Hget & _).
  unfold fieldLine. rewrite Hget.
  destruct (toFieldTypeDefinition node field) as [text|e'] eqn:Ht; simpl; [discriminate|].
  intros H. injection H as <-. exact (toFieldTypeDefinition_error _ _ _ Ht).
Qed.

Lemma fieldLines_error (node : NamedType) (fields : FieldMap) (names : list string)
      (e : Error) :
  incl names (Object_keys fields) ->
  mapR (fieldLine node fields) names = Err e -> referenceError e.
Proof.
  intros Hincl Hm. apply mapR_err in Hm. destruct Hm as (name & Hin & Hname).
  exact (fieldLine_error node fields name e (Hincl _ Hin) Hname).
Qed.

Lemma objectResolverDefinition_error (node : NamedType) (e : Error) :
  objectResolverDefinition node = Err e -> referenceError e.
Proof.
  unfold objectResolverDefinition.
  destruct (sectionLines node) as [sections|e'] eqn:Hs; simpl.
  - destruct (ownLines node) as [own|e'] eqn:Ho; simpl; [discriminate|].
    intros H. injection H as <-. unfold ownLines in Ho.
    apply (fieldLines_error _ _ _ _ (fun name Hin => proj1 (proj1 (filter_In _ _ _) Hin)) Ho).
  - intros H. injection H as <-. unfold sectionLines in Hs.
    apply mapR_err in Hs. destruct Hs as (iface & _ & Hi).
    unfold interfaceLines in Hi.
    destruct (mapR _ (Object_keys (iface_fields iface))) as [entries|e''] eqn:Hm;
      simpl in Hi; [discriminate|].
    injection Hi as <-. exact (fieldLines_error _ _ _ _ (incl_refl _) Hm).
Qed.

Lemma objectResolverDefinition_truthy (node : NamedType) (def : string) :
  objectResolverDefinition node = Ok def -> JsString.truthy def = true.
Proof.
  unfold objectResolverDefinition.
  destruct (sectionLines node); simpl; [|discriminate].
  destruct (ownLines node); simpl; [|discriminate].
  assert (forall l,
             JsString.truthy
               (JsString.join JsString.newline
                  (("export type " ++ type_name node ++ "Resolver = {|") :: l)) = true)
    as Htruthy by (intros [|x l]; reflexivity).
  intros H. injection H as <-. exact (Htruthy _).
Qed.

(** What [toResolverTypeDefinition] gives for each class of named type. *)
Lemma toResolverTypeDefinition_cases (node : NamedType) :
  toResolverTypeDefinition node
  = match node with
    | ScalarType _ _ | InterfaceType _ | UnionType _ _ => Ok ""
    | ObjectType _ _ _ => objectResolverDefinition node
    | EnumType _ _ => enumDefinition node
    | InputObjectType name _ => Err (NotImplemented name)
    end.
Proof. destruct node; reflexivity. Qed.

Lemma toFlowInputTypeDefinition_error (name : string) (fields : list GraphQLInputField)
      (e : Error) :
  toFlowInputTypeDefinition (InputObjectType name fields) = Err e -> referenceError e.
Proof.
  change (toFlowInputTypeDefinition (InputObjectType name fields))
    with (bindR (mapR (fun field =>
                         bindR (toFlowInputTypeRef (input_field_type field))
                               (fun t => Ok ("+" ++ input_field_name field ++ ": "
                                               ++ JsValue_toString t ++ ",")))
                      fields)
                (fun lines => Ok (JsString.join JsString.newline ("{|" :: lines ++ ["|}"])))).
  destruct (mapR _ fields) as [lines|e'] eqn:Hm; simpl; [discriminate|].
  intros H. injection H as <-.
  apply mapR_err in Hm. destruct Hm as (field & _ & Hf).
  rewrite renderInput_eq in Hf.
  destruct (toFlowOutputTypeRef (input_field_type field)) as [t|e''] eqn:Hr; simpl in Hf;
    [discriminate|].
  injection Hf as <-. exact (render_error _ _ Hr).
Qed.

Lemma resolverDefStep_ok (schema : GraphQLSchema) (name : string) (o : option string) :
  resolverDefStep schema name = Ok o ->
  (hasResolverDefinition schema name = true
   /\ exists def, o = Some def /\ JsString.truthy def = true
                  /\ definitionOf schema name = Ok def)
  \/ (hasResolverDefinition schema name = false
      /\ forall rest, filterBoolean (o :: rest) = filterBoolean rest).
Proof.
  unfold resolverDefStep, hasResolverDefinition, instanceOfType, definitionOf.
  destruct (getType schema name) as [node|]; [|discriminate].
  destruct node as [n d|n ifs fds|i|n ts|n vs|n fds];
    rewrite ?toResolverTypeDefinition_cases; cbn [bindR].
  - intros H. injection H as <-. right. split; reflexivity.
  - destruct (objectResolverDefinition (ObjectType n ifs fds)) as [def|e] eqn:Hdef;
      cbn [bindR]; [|discriminate].
    intros H. injection H as <-. left. split; [reflexivity|].
    exists def. repeat split. exact (objectResolverDefinition_truthy _ _ Hdef).
  - intros H. injection H as <-. right. split; reflexivity.
  - intros H. injection H as <-. right. split; reflexivity.
  - intros H. injection H as <-. left. split; [reflexivity|].
    eexists. repeat split.
  - intros H. injection H as <-. right. split; reflexivity.
Qed.

(** The resolver definitions are those of the names that have one, in the
    order of the list. *)
Lemma resolverDefs_of (schema : GraphQLSchema) (names : list string)
      (defs : list (option string)) :
  mapR (resolverDefStep schema) names = Ok defs ->
  mapR (definitionOf schema) (filter (hasResolverDefinition schema) names)
  = Ok (filterBoolean defs).
Proof.
  revert defs. induction names as [|name names IH]; simpl; intros defs H.
  - injection H as <-. reflexivity.
  - destruct (resolverDefStep schema name) as [o|e] eqn:Hstep; simpl in H; [|discriminate].
    destruct (mapR (resolverDefStep schema) names) as [rest|e] eqn:Hrest; simpl in H;
      [|discriminate].
    injection H as <-. specialize (IH rest eq_refl).
    destruct (resolverDefStep_ok schema name o Hstep)
      as [(Hhas & def & -> & Htruthy & Hdef)|(Hhas & Hdrop)]; rewrite Hhas.
    + simpl. rewrite Hdef, IH. simpl. now rewrite Htruthy.
    + now rewrite IH, Hdrop.
Qed.

Lemma resolverDefStep_error (schema : GraphQLSchema) (name : string) (e : Error) :
  In name (map fst schema) ->
  resolverDefStep schema name = Err e -> referenceError e.
Proof.
  intros Hin. destruct (lookup_key name schema Hin) as [node Hnode].
  unfold resolverDefStep, getType. rewrite Hnode.
  destruct node as [n d|n ifs fds|i|n ts|n vs|n fds];
    rewrite ?toResolverTypeDefinition_cases; cbn [bindR]; try discriminate.
  destruct (objectResolverDefinition (ObjectType n ifs fds)) as [def|e'] eqn:Hdef;
    cbn [bindR]; [discriminate|].
  intros H. injection H as <-. exact (objectResolverDefinition_error _ _ Hdef).
Qed.

Lemma inputDefStep_ok (schema : GraphQLSchema) (name : string) (o : option string) :
  inputDefStep schema name = Ok o ->
  (instanceOfType schema name GraphQLInputObjectType = true
   /\ exists def, o = Some def /\ JsString.truthy def = true
                  /\ inputDefinitionOf schema name = Ok def)
  \/ (instanceOfType schema name GraphQLInputObjectType = false /\ o = None).
Proof.
  unfold inputDefStep, instanceOfType, inputDefinitionOf.
  destruct (getType schema name) as [node|].
  - destruct node as [n d|n ifs fds|i|n ts|n vs|n fds];
      try (intros H; injection H as <-; right; split; reflexivity).
    destruct (toFlowInputTypeDefinition (InputObjectType n fds)) as [def|e];
      cbn [bindR]; [|discriminate].
    intros H. injection H as <-. left. split; [reflexivity|].
    eexists. repeat split.
  - intros H. injection H as <-. right. split; reflexivity.
Qed.

Lemma inputTypeDefs_of (schema : GraphQLSchema) (names : list string)
      (defs : list (option string)) :
  mapR (inputDefStep schema) names = Ok defs ->
  mapR (inputDefinitionOf schema)
       (filter (fun name => instanceOfType schema name GraphQLInputObjectType) names)
  = Ok (filterBoolean defs).
Proof.
  revert defs. induction names as [|name names IH]; simpl; intros defs H.
  - injection H as <-. reflexivity.
  - destruct (inputDefStep schema name) as [o|e] eqn:Hstep; simpl in H; [|discriminate].
    destruct (mapR (inputDefStep schema) names) as [rest|e] eqn:Hrest; simpl in H;
      [|discriminate].
    injection H as <-. specialize (IH rest eq_refl).
    destruct (inputDefStep_ok schema name o Hstep)
      as [(Hhas & def & -> & Htruthy & Hdef)|(Hhas & ->)]; rewrite Hhas.
    + simpl. rewrite Hdef, IH. simpl. now rewrite Htruthy.
    + rewrite IH. reflexivity.
Qed.

Lemma inputDefStep_error (schema : GraphQLSchema) (name : string) (e : Error) :
  inputDefStep schema name = Err e -> referenceError e.
Proof.
  unfold inputDefStep. destruct (getType schema name) as [node|]; [|discriminate].
  destruct node as [n d|n ifs fds|i|n ts|n vs|n fds]; try discriminate.
  destruct (toFlowInputTypeDefinition (InputObjectType n fds)) as [def|e'] eqn:Hdef;
    cbn [bindR]; [discriminate|].
  intros H. injection H as <-. exact (toFlowInputTypeDefinition_error _ _ _ Hdef).
Qed.

Lemma filter_idle {A : Type} (p q : A -> bool) (l : list A) :
  (forall x, q x = true -> p x = true) -> filter q (filter p l) = filter q l.
Proof.
  intros H. induction l as [|x l IH]; simpl; [reflexivity|].
  destruct (p x) eqn:Hp; simpl.
  - now rewrite IH.
  - destruct (q x) eqn:Hq; [|exact IH]. rewrite (H x Hq) in Hp. discriminate.
Qed.

End Definitions.

Section TypesFile.

Lemma hasResolverDefinition_not_union (schema : GraphQLSchema) (name : string) :
  hasResolverDefinition schema name = true ->
  negb (instanceOfType schema name GraphQLUnionType) = true.
Proof.
  unfold hasResolverDefinition, instanceOfType.
  destruct (getType schema name) as [node|]; [|discriminate].
  destruct node; simpl; intros H; try discriminate; reflexivity.
Qed.

Lemma resolverDefs_unfold (schema : GraphQLSchema) :
  resolverDefs schema
  = bindR (mapR (resolverDefStep schema)
                (filter (fun name => negb (instanceOfType schema name GraphQLUnionType))
                        (namedTypesFromSchema schema)))
          (fun defs => Ok (filterBoolean defs)).
Proof. reflexivity. Qed.

Lemma inputTypeDefs_unfold (schema : GraphQLSchema) :
  inputTypeDefs schema
  = bindR (mapR (inputDefStep schema) (namedTypesFromSchema schema))
          (fun defs => Ok (filterBoolean defs)).
Proof. reflexivity. Qed.

Lemma resolverDefs_error (schema : GraphQLSchema) (e : Error) :
  resolverDefs schema = Err e -> referenceError e.
Proof.
  rewrite resolverDefs_unfold.
  destruct (mapR _ _) as [defs|e'] eqn:Hm; simpl; [discriminate|].
  intros H. injection H as <-.
  apply mapR_err in Hm. destruct Hm as (name & Hin & Hstep).
  apply filter_In in Hin. destruct Hin as [Hin _].
  apply index_In in Hin. destruct Hin as [Hin _].
  exact (resolverDefStep_error schema name _ Hin Hstep).
Qed.

Lemma inputTypeDefs_error (schema : GraphQLSchema) (e : Error) :
  inputTypeDefs schema = Err e -> referenceError e.
Proof.
  rewrite inputTypeDefs_unfold.
  destruct (mapR _ _) as [defs|e'] eqn:Hm; simpl; [discriminate|].
  intros H. injection H as <-.
  apply mapR_err in Hm. destruct Hm as (name & _ & Hstep).
  exact (inputDefStep_error schema name _ Hstep).
Qed.

Lemma addTypeImports_wf (from_ : string) (identifiers : list string) (m : ModuleBuilder.t) :
  wfBuilder m = true ->
  wfBuilder (fold_left (fun mod_ imp => ModuleBuilder.addTypeImport imp from_ mod_)
                       identifiers m) = true.
Proof.
  revert m. induction identifiers as [|imp identifiers IH]; intros m Hwf; simpl.
  - exact Hwf.
  - apply IH. now apply addTypeImport_wf.
Qed.

Lemma emit_wf (code : string) (m : ModuleBuilder.t) :
  wfBuilder (ModuleBuilder.emit code m) = wfBuilder m.
Proof. reflexivity. Qed.

Lemma writeCode_result (prettify : string -> Result string) (code outputFile : string)
      (fs : FileSystem) :
  writeCode prettify code outputFile fs
  = match prettify code with
    | Ok formatted =>
        (Ok tt,
         {| fs_files := ModuleBuilder.Map_set outputFile formatted (fs_files fs);
            fs_dirs := Set_add (Path.dirname outputFile) (fs_dirs fs) |})
    | Err e => (Err e, fs)
    end.
Proof.
  unfold writeCode, bindIO, lift. destruct (prettify code); reflexivity.
Qed.

End TypesFile.

(** X7: the types file holds one resolver definition for each Object and
    Enum type of the canonical type index and one input definition for each
    InputObject type, in the order of the index; scalars, interfaces, unions
    and input objects get no resolver definition. *)
Theorem definitions_follow_the_index :
  forall schema : GraphQLSchema,
    (forall defs : list string,
        resolverDefs schema = Ok defs ->
        mapR (definitionOf schema)
             (filter (hasResolverDefinition schema) (namedTypesFromSchema schema))
        = Ok defs)
    /\ (forall defs : list string,
           inputTypeDefs schema = Ok defs ->
           mapR (inputDefinitionOf schema)
                (filter (fun name => instanceOfType schema name GraphQLInputObjectType)
                        (namedTypesFromSchema schema))
           = Ok defs).
Proof.
  intros schema. split; intros defs.
  - rewrite resolverDefs_unfold.
    destruct (mapR _ _) as [opts|e] eqn:Hm; simpl; [|discriminate].
    intros H. injection H as <-.
    apply resolverDefs_of in Hm. rewrite filter_idle in Hm; [exact Hm|].
    apply hasResolverDefinition_not_union.
  - rewrite inputTypeDefs_unfold.
    destruct (mapR _ _) as [opts|e] eqn:Hm; simpl; [|discriminate].
    intros H. injection H as <-.
    now apply inputTypeDefs_of.
Qed.

Lemma definitions_follow_the_index_witness :
  mapR (definitionOf schema_union)
       (filter (hasResolverDefinition schema_union) (namedTypesFromSchema schema_union))
  = Ok [ template [ "export type BirdResolver = {|";
                    "";
                    "// From Node";
                    "id: Resolver<Bird,string | number>,";
                    "|}" ];
         template [ "export type CatResolver = {|";
                    "";
                    "// From Node";
                    "id: Resolver<Cat,string | number>,";
                    "name: Resolver<Cat,string | null>,";
                    "|}" ] ].
Proof.
  apply (proj1 (definitions_follow_the_index schema_union)). reflexivity.
Defined.

(** X8: writing the types file is the generation of its code followed by
    [writeCode].  The generation fails only when a type reference of the
    schema cannot be rendered: a missing name, a malformed nullable
    expression, or the type error of a non-null scalar whose name is
    inherited from [Object.prototype]; nothing is written then.  The
    not-implemented default of [toResolverTypeDefinition] and the
    serialisation of the module never fail there: when the definitions
    render, the code is generated and the outcome is the one of
    [writeCode]. *)
Theorem types_file_errors :
  forall (prettify : string -> Result string) (schema : GraphQLSchema)
         (outputFile : string) (fs : FileSystem),
    exists generated : Result string,
      writeResolverTypes prettify schema outputFile fs
      = match generated with
        | Ok code => writeCode prettify code outputFile fs
        | Err e => (Err e, fs)
        end
      /\ (forall e : Error,
             generated = Err e ->
             (exists node, e = MissingTypeName node)
             \/ (exists s, e = MalformedNullableExpr s)
             \/ e = TypeError "baseTypeExpr.endsWith is not a function")
      /\ (forall inputs resolvers : list string,
             inputTypeDefs schema = Ok inputs ->
             resolverDefs schema = Ok resolvers ->
             exists code, generated = Ok code).
Proof.
  intros prettify schema outputFile fs.
  unfold writeResolverTypes, bindIO, lift.
  destruct (inputTypeDefs schema) as [inputs|e1] eqn:Hin.
  2:{ exists (Err e1). split; [reflexivity|]. split.
      - intros e H. injection H as <-. exact (inputTypeDefs_error schema e1 Hin).
      - intros ? ? H. discriminate H. }
  destruct (resolverDefs schema) as [resolvers|e1] eqn:Hres.
  2:{ exists (Err e1). split; [reflexivity|]. split.
      - intros e H. injection H as <-. exact (resolverDefs_error schema e1 Hres).
      - intros ? ? _ H. discriminate H. }
  unfold ModuleBuilder.emitWith. cbn [bindR].
  match goal with
  | |- context [ModuleBuilder.toString ?m] =>
      assert (wfBuilder m = true) as Hwf; [|exists (ModuleBuilder.toString m)]
  end.
  { rewrite emit_wf. apply addTypeImports_wf, addTypeImports_wf.
    apply addTypeImport_wf, addTypeImport_wf, new_wf. }
  destruct (toString_ok _ Hwf) as [code Hcode]. rewrite Hcode.
  split; [reflexivity|]. split.
  - intros e H. discriminate H.
  - intros _ _ _ _. now exists code.
Qed.

Lemma types_file_errors_witness :
  exists generated : Result string,
    writeResolverTypes
      (fun code => Ok code)
      [("Query", ObjectType "Query" []
                   [{| field_name := "made"; field_type := NonNull (Scalar "constructor");
                       field_args := [] |}]);
       ("constructor", ScalarType "constructor" None)]
      "/api/types/index.js" {| fs_files := []; fs_dirs := [] |}
    = match generated with
      | Ok code =>
          writeCode (fun code => Ok code) code "/api/types/index.js"
            {| fs_files := []; fs_dirs := [] |}
      | Err e => (Err e, {| fs_files := []; fs_dirs := [] |})
      end
    /\ generated = Err (TypeError "baseTypeExpr.endsWith is not a function").
Proof.
  destruct (types_file_errors
              (fun code => Ok code)
              [("Query", ObjectType "Query" []
                           [{| field_name := "made";
                               field_type := NonNull (Scalar "constructor");
                               field_args := [] |}]);
               ("constructor", ScalarType "constructor" None)]
              "/api/types/index.js" {| fs_files := []; fs_dirs := [] |})
    as (generated & Hrun & _ & _).
  exists generated. split; [exact Hrun|].
  destruct generated as [code|e]; vm_compute in Hrun; [discriminate Hrun|].
  now injection Hrun as <-.
Defined.

(* ------------------------------------------------------------------------- *)
(** ** Further properties: the name lists of the generators *)

Section NameLists.

Lemma filter_comm {A : Type} (p q : A -> bool) (l : list A) :
  filter p (filter q l) = filter q (filter p l).
Proof.
  induction l as [|x l IH]; simpl; [reflexivity|].
  destruct (p x) eqn:Hp, (q x) eqn:Hq; simpl; rewrite ?Hp, ?Hq, IH; reflexivity.
Qed.

Lemma index_not_builtin (schema : GraphQLSchema) :
  filter (fun name => negb (Set_has name BUILTINS)) (namedTypesFromSchema schema)
  = namedTypesFromSchema schema.
Proof.
  apply forallb_filter_id, forallb_forall. intros name Hin.
  apply index_In in Hin. destruct Hin as (_ & _ & Hb). now rewrite Hb.
Qed.

Lemma index_NoDup (schema : GraphQLSchema) :
  NoDup (map fst schema) -> NoDup (namedTypesFromSchema schema).
Proof.
  intros Hnd. rewrite index_unfold.
  eapply Permutation_NoDup; [apply Permutation_sym, sortBy_perm|].
  now apply NoDup_filter, NoDup_filter.
Qed.

Lemma instanceOfType_exclusive (schema : GraphQLSchema) (name : string) (c c' : Variant) :
  instanceOfType schema name c = true -> instanceOfType schema name c' = true -> c = c'.
Proof.
  unfold instanceOfType, instanceof.
  destruct (getType schema name) as [node|]; [|discriminate].
  destruct (classOf node), c, c'; simpl; intros H H'; try discriminate; reflexivity.
Qed.

End NameLists.

(** X9: the generators agree on their lists of names.  The models that the
    types file imports from [../models] are the ones the models scaffold is
    extended with, namely the Object types that are not root types; the
    scalars that the types file imports from [../scalars] and that the
    scalars index re-exports are the ones that get an implementation
    scaffold: the second filter on the builtin names changes nothing, the
    index holds no builtin. *)
Theorem generators_agree_on_names :
  forall schema : GraphQLSchema,
    modelNames schema
    = filter (fun name => negb (Set_has name ROOT_TYPES))
        (filter (fun name => instanceOfType schema name GraphQLObjectType)
           (namedTypesFromSchema schema))
    /\ (forall name : string,
           In name (modelNames schema)
           <-> In name (resolverNames schema) /\ ~ In name ROOT_TYPES)
    /\ scalarTypeNames schema = scalarNames schema
    /\ filter (fun name => negb (Set_has name BUILTINS))
         (filter (fun name => instanceOfType schema name GraphQLScalarType)
            (namedTypesFromSchema schema))
       = scalarNames schema.
Proof.
  intros schema. split; [|split; [|split]].
  - unfold modelNames. apply filter_comm.
  - intros name. unfold modelNames, resolverNames. rewrite !filter_In.
    rewrite negb_true_iff, <- (Set_has_In name ROOT_TYPES).
    destruct (Set_has name ROOT_TYPES); intuition congruence.
  - unfold scalarTypeNames, scalarNames. now rewrite index_not_builtin.
  - rewrite filter_comm, index_not_builtin. reflexivity.
Qed.

(** X10: when the names of the type map are distinct, no name occurs twice
    in the canonical type index nor in a list of scaffolds, and whatever the
    type map no name is in two of the lists of scalar, interface-or-union
    and resolver scaffolds: a type gets at most one scaffold file per
    directory and lands in one directory only. *)
Theorem scaffolds_are_distinct :
  forall schema : GraphQLSchema,
    (NoDup (map fst (getTypeMap schema)) ->
     NoDup (namedTypesFromSchema schema)
     /\ NoDup (scalarNames schema)
     /\ NoDup (interfaceNames schema)
     /\ NoDup (resolverNames schema))
    /\ (forall name : string,
           ~ (In name (scalarNames schema) /\ In name (interfaceNames schema))
           /\ ~ (In name (scalarNames schema) /\ In name (resolverNames schema))
           /\ ~ (In name (interfaceNames schema) /\ In name (resolverNames schema))).
Proof.
  intros schema. split.
  - intros Hnd. pose proof (index_NoDup schema Hnd) as Hidx.
    unfold scalarNames, interfaceNames, resolverNames.
    repeat split; try apply NoDup_filter; exact Hidx.
  - intros name. unfold scalarNames, interfaceNames, resolverNames, isUnionOrInterfaceType.
    repeat split; rewrite !filter_In; intros [[_ H1] [_ H2]];
      try (apply orb_true_iff in H2; destruct H2 as [H2|H2]);
      try (apply orb_true_iff in H1; destruct H1 as [H1|H1]);
      pose proof (instanceOfType_exclusive schema name _ _ H1 H2) as Hc;
      discriminate Hc.
Qed.

Lemma scaffolds_are_distinct_witness :
  NoDup (namedTypesFromSchema schema_scalars)
  /\ NoDup (scalarNames schema_scalars)
  /\ NoDup (interfaceNames schema_scalars)
  /\ NoDup (resolverNames schema_scalars).
Proof.
  apply (proj1 (scaffolds_are_distinct schema_scalars)).
  vm_compute. repeat constructor; simpl; intuition discriminate.
Defined.

(* ------------------------------------------------------------------------- *)
(** ** Further properties: the module builder *)

Section SingleBindings.
Import ModuleBuilder.

Lemma Map_set_overwrite {V : Type} (k : string) (v v' : V) (m : list (string * V)) :
  Map_set k v (Map_set k v' m) = Map_set k v m.
Proof.
  induction m as [|[k0 v0] m IH]; simpl.
  - now rewrite String.eqb_refl.
  - destruct (String.eqb k0 k) eqn:E; simpl; rewrite E; [reflexivity | now rewrite IH].
Qed.

Lemma Map_set_other {V : Type} (k k' : string) (v : V) (m : list (string * V)) :
  k <> k' -> Map_get k' (Map_set k v m) = Map_get k' m.
Proof.
  intros Hne. rewrite Map_get_set. apply String.eqb_neq in Hne. now rewrite Hne.
Qed.

Lemma Map_set_length {V : Type} (k : string) (v : V) (m : list (string * V)) :
  List.length (Map_set k v m)
  = if Set_has k (map fst m) then List.length m else S (List.length m).
Proof.
  unfold Set_has. induction m as [|[k0 v0] m IH]; simpl; [reflexivity|].
  rewrite (String.eqb_sym k k0).
  destruct (String.eqb k0 k); simpl; [reflexivity|].
  rewrite IH. now destruct (existsb (String.eqb k) (map fst m)).
Qed.

End SingleBindings.

(** X11: a namespace import and a default import are one binding per source
    module: registering a module again replaces the identifier and keeps the
    place of the module among the imports, so the builder is the one that
    only the last registration would have produced; the bindings of the
    other modules are untouched and no second line appears for the
    module. *)
Theorem last_binding_wins :
  forall (m : ModuleBuilder.t) (a b from_ : string),
    ModuleBuilder.addNamespaceImport b from_ (ModuleBuilder.addNamespaceImport a from_ m)
    = ModuleBuilder.addNamespaceImport b from_ m
    /\ ModuleBuilder.addDefaultImport b from_ (ModuleBuilder.addDefaultImport a from_ m)
       = ModuleBuilder.addDefaultImport b from_ m
    /\ ModuleBuilder.Map_get from_
         (ModuleBuilder._namespaceImports (ModuleBuilder.addNamespaceImport b from_ m))
       = Some b
    /\ ModuleBuilder.Map_get from_
         (ModuleBuilder._defaultImports (ModuleBuilder.addDefaultImport b from_ m))
       = Some b
    /\ (forall other : string,
           from_ <> other ->
           ModuleBuilder.Map_get other
             (ModuleBuilder._namespaceImports (ModuleBuilder.addNamespaceImport b from_ m))
           = ModuleBuilder.Map_get other (ModuleBuilder._namespaceImports m)
           /\ ModuleBuilder.Map_get other
                (ModuleBuilder._defaultImports (ModuleBuilder.addDefaultImport b from_ m))
              = ModuleBuilder.Map_get other (ModuleBuilder._defaultImports m))
    /\ List.length
         (ModuleBuilder._namespaceImports
            (ModuleBuilder.addNamespaceImport b from_
               (ModuleBuilder.addNamespaceImport a from_ m)))
       = List.length
           (ModuleBuilder._namespaceImports (ModuleBuilder.addNamespaceImport a from_ m)).
Proof.
  intros m a b from_.
  split; [|split; [|split; [|split; [|split]]]].
  - unfold ModuleBuilder.addNamespaceImport. simpl. now rewrite Map_set_overwrite.
  - unfold ModuleBuilder.addDefaultImport. simpl. now rewrite Map_set_overwrite.
  - simpl. now rewrite Map_get_set, String.eqb_refl.
  - simpl. now rewrite Map_get_set, String.eqb_refl.
  - intros other Hne. simpl. split; now apply Map_set_other.
  - simpl. rewrite Map_set_length, Map_set_keys.
    now rewrite (proj2 (Set_has_In from_ _) (Set_add_In from_ _)).
Qed.

Lemma last_binding_wins_witness :
  ModuleBuilder.Map_get "../scalars/Time"
    (ModuleBuilder._namespaceImports
       (ModuleBuilder.addNamespaceImport "Time" "../scalars/Date"
          (ModuleBuilder.addNamespaceImport "Time" "../scalars/Time"
             (ModuleBuilder.new "// @flow"))))
  = Some "Time".
Proof.
  rewrite (proj1 (proj1 (proj2 (proj2 (proj2 (proj2
             (last_binding_wins
                (ModuleBuilder.addNamespaceImport "Time" "../scalars/Time"
                   (ModuleBuilder.new "// @flow"))
                "Date" "Time" "../scalars/Date")))))
             "../scalars/Time" ltac:(discriminate))).
  reflexivity.
Defined.

Section Groups.
Import ModuleBuilder.

Lemma criteria_line (tuple : ImportTuple) (keyed : nat * string * string) :
  criteria tuple = Ok keyed ->
  snd keyed = snd tuple /\ fst (fst keyed) = fst (fst tuple).
Proof.
  destruct tuple as [[priority [m|]] line]; simpl; [|discriminate].
  intros H. injection H as <-. split; reflexivity.
Qed.

Lemma criteria_lines (tuples : list ImportTuple) (keyed : list (nat * string * string)) :
  mapR criteria tuples = Ok keyed -> map snd keyed = map snd tuples.
Proof.
  intros H. apply mapR_Forall2 in H.
  induction H as [|tuple k tuples keyed Hk _ IH]; simpl; [reflexivity|].
  destruct (criteria_line _ _ Hk) as [-> _]. now rewrite IH.
Qed.

Lemma criteria_leb_priority (a b : nat * string) :
  criteria_leb a b = true -> fst a <= fst b.
Proof.
  unfold criteria_leb. intros H. apply orb_true_iff in H.
  destruct H as [H|H].
  - apply Nat.ltb_lt in H. lia.
  - apply andb_prop in H. destruct H as [H _]. apply Nat.eqb_eq in H. lia.
Qed.

Lemma Reachable_wf (m : t) : Reachable m -> wfBuilder m = true.
Proof.
  induction 1 as [comment|code m _ IH|i f m _ IH|i f m _ IH|i f m _ IH|i f m _ IH].
  - reflexivity.
  - exact IH.
  - exact IH.
  - exact IH.
  - now apply addNamedImport_wf.
  - now apply addTypeImport_wf.
Qed.

End Groups.

(** X12: the serialised import lines are the lines of the registered
    imports, none lost and none added, in the fixed order of the groups:
    along the output the priority never decreases, so the namespace imports
    come first, then the named, the default and the type-only imports. *)
Theorem import_lines_grouped :
  forall m : ModuleBuilder.t,
    wfBuilder m = true ->
    exists keyed : list (nat * string * string),
      mapR ModuleBuilder.criteria (ModuleBuilder.iterImports m) = Ok keyed
      /\ ModuleBuilder.importLines m = Ok (map snd (ModuleBuilder.sortImports keyed))
      /\ Permutation (map snd (ModuleBuilder.sortImports keyed))
                     (map snd (ModuleBuilder.iterImports m))
      /\ StronglySorted (fun x y => priorityOf x <= priorityOf y)
                        (ModuleBuilder.sortImports keyed)
      /\ (forall tuple,
             In tuple (ModuleBuilder.sortImports keyed) -> priorityOf tuple <= 3).
Proof.
  intros m Hwf.
  destruct (mapR_ok ModuleBuilder.criteria (ModuleBuilder.iterImports m)
                    (criteria_ok m Hwf)) as (keyed & Hkeyed & _).
  exists keyed. split; [exact Hkeyed|]. split; [|split; [|split]].
  - unfold ModuleBuilder.importLines. now rewrite Hkeyed.
  - rewrite <- (criteria_lines _ _ Hkeyed).
    apply Permutation_map. unfold ModuleBuilder.sortImports. apply sortWith_perm.
  - apply (sorted_weaken
             (fun x y => ModuleBuilder.criteria_leb (fst x) (fst y) = true) _
             (fun _ => True)).
    + intros x y _ _. apply criteria_leb_priority.
    + apply Forall_forall. auto.
    + apply sortImports_sorted.
  - intros tuple Hin. unfold ModuleBuilder.sortImports in Hin.
    rewrite sortWith_In in Hin.
    destruct (mapR_In_inv _ _ _ _ Hkeyed Hin) as (raw & Hraw & Hcrit).
    destruct (criteria_line _ _ Hcrit) as [_ Hprio].
    unfold priorityOf. rewrite Hprio.
    unfold ModuleBuilder.iterImports in Hraw. rewrite !in_app_iff, !in_map_iff in Hraw.
    destruct Hraw as [Hraw|[Hraw|[Hraw|Hraw]]]; destruct Hraw as ([from_ x] & <- & _);
      simpl; lia.
Qed.

Lemma import_lines_grouped_witness :
  exists keyed : list (nat * string * string),
    ModuleBuilder.importLines
      (ModuleBuilder.addNamespaceImport "Date" "../scalars/Date"
         (ModuleBuilder.addTypeImport "Context" "../context"
            (ModuleBuilder.addDefaultImport "User" "./UserResolver"
               (ModuleBuilder.addNamedImport "makeScalar" "lib/graphql-tools"
                  (ModuleBuilder.new "// @flow")))))
    = Ok (map snd (ModuleBuilder.sortImports keyed))
    /\ StronglySorted (fun x y => priorityOf x <= priorityOf y)
                      (ModuleBuilder.sortImports keyed).
Proof.
  destruct (import_lines_grouped
              (ModuleBuilder.addNamespaceImport "Date" "../scalars/Date"
                 (ModuleBuilder.addTypeImport "Context" "../context"
                    (ModuleBuilder.addDefaultImport "User" "./UserResolver"
                       (ModuleBuilder.addNamedImport "makeScalar" "lib/graphql-tools"
                          (ModuleBuilder.new "// @flow")))))
              eq_refl)
    as (keyed & _ & Hlines & _ & Hsorted & _).
  exists keyed. split; assumption.
Defined.

(** X13: the module serialises whenever it was built from a new builder with
    the methods of the class: the set of a named or type-only import is
    never empty there, so the first identifier that orders its line always
    exists and [toString] does not throw. *)
Theorem reachable_builder_serialises :
  forall m : ModuleBuilder.t,
    Reachable m ->
    wfBuilder m = true /\ exists code : string, ModuleBuilder.toString m = Ok code.
Proof.
  intros m Hm. pose proof (Reachable_wf m Hm) as Hwf.
  split; [exact Hwf | now apply toString_ok].
Qed.

Lemma reachable_builder_serialises_witness :
  exists code : string,
    ModuleBuilder.toString
      (ModuleBuilder.emit "export default 1;"
         (ModuleBuilder.addTypeImport "Decoder" "decoders"
            (ModuleBuilder.addNamedImport "string" "decoders"
               (ModuleBuilder.new "// @flow"))))
    = Ok code.
Proof.
  apply (reachable_builder_serialises
           (ModuleBuilder.emit "export default 1;"
              (ModuleBuilder.addTypeImport "Decoder" "decoders"
                 (ModuleBuilder.addNamedImport "string" "decoders"
                    (ModuleBuilder.new "// @flow"))))).
  repeat constructor.
Defined.

(** X14: two different identifiers imported from one module end on one
    import line.  When their lower-case forms differ, the module text does
    not depend on the order of the two registrations; when they differ only
    in case, the sort is stable and the line lists them in the order of
    registration. *)
Theorem named_import_order :
  forall comment a b from_ : string,
    a <> b ->
    (JsString.toLowerCase a <> JsString.toLowerCase b ->
     ModuleBuilder.toString
       (ModuleBuilder.addNamedImport b from_
          (ModuleBuilder.addNamedImport a from_ (ModuleBuilder.new comment)))
     = ModuleBuilder.toString
         (ModuleBuilder.addNamedImport a from_
            (ModuleBuilder.addNamedImport b from_ (ModuleBuilder.new comment))))
    /\ (JsString.toLowerCase a = JsString.toLowerCase b ->
        ModuleBuilder.toString
          (ModuleBuilder.addNamedImport b from_
             (ModuleBuilder.addNamedImport a from_ (ModuleBuilder.new comment)))
        = Ok (JsString.join JsString.newline
                [ comment; "";
                  "import { " ++ a ++ ", " ++ b ++ " } from "
                    ++ JsString.JSON_stringify from_;
                  ""; "" ])).
Proof.
  intros comment a b from_ Hne. split.
  - intros Hlower.
    rewrite (toString_two comment a b from_ Hne).
    rewrite (toString_two comment b a from_ (not_eq_sym Hne)).
    assert (Hsort : ModuleBuilder.sortIdentifiers [a; b]
                    = ModuleBuilder.sortIdentifiers [b; a]).
    { unfold ModuleBuilder.sortIdentifiers. simpl.
      destruct (String.leb (JsString.toLowerCase a) (JsString.toLowerCase b)) eqn:Hab;
        destruct (String.leb (JsString.toLowerCase b) (JsString.toLowerCase a)) eqn:Hba;
        try reflexivity.
      - destruct Hlower. now apply String.leb_antisym.
      - destruct (String.leb_total (JsString.toLowerCase a) (JsString.toLowerCase b));
          congruence. }
    now rewrite Hsort.
  - intros Hlower.
    rewrite (toString_two comment a b from_ Hne).
    assert (Hrefl : String.leb (JsString.toLowerCase b) (JsString.toLowerCase b) = true).
    { destruct (String.leb_total (JsString.toLowerCase b) (JsString.toLowerCase b));
        assumption. }
    unfold ModuleBuilder.sortIdentifiers.
    cbn [Lodash.sortWith Lodash.insertBy]. rewrite Hlower, Hrefl.
    change (JsString.join ", " [a; b]) with (a ++ ", " ++ b).
    now rewrite !append_assoc.
Qed.

Lemma named_import_order_witness :
  ModuleBuilder.toString
    (ModuleBuilder.addNamedImport "string" "decoders"
       (ModuleBuilder.addNamedImport "object" "decoders" (ModuleBuilder.new "// @flow")))
  = ModuleBuilder.toString
      (ModuleBuilder.addNamedImport "object" "decoders"
         (ModuleBuilder.addNamedImport "string" "decoders" (ModuleBuilder.new "// @flow")))
  /\ ModuleBuilder.toString
       (ModuleBuilder.addNamedImport "Node" "./types"
          (ModuleBuilder.addNamedImport "node" "./types" (ModuleBuilder.new "// @flow")))
     = Ok (JsString.join JsString.newline
             [ "// @flow"; "";
               "import { node, Node } from " ++ JsString.JSON_stringify "./types";
               ""; "" ]).
Proof.
  split.
  - apply (proj1 (named_import_order "// @flow" "object" "string" "decoders"
                    ltac:(discriminate))).
    vm_compute. discriminate.
  - apply (proj2 (named_import_order "// @flow" "node" "Node" "./types"
                    ltac:(discriminate))).
    reflexivity.
Defined.

(* ------------------------------------------------------------------------- *)
(** ** Further properties: registered definitions *)

Section Registered.
Variable Producer : Type.
Variable call : Producer -> Registry.t Producer -> Registry.Call Producer string.

Lemma registerDef_ok (key : string) (callback : Producer) (b b' : Registry.t Producer) :
  Registry.registerDef key callback b = (inl tt, b') ->
  ModuleBuilder.Map_get key (Registry._defs b) = None
  /\ Registry._defs b' = ModuleBuilder.Map_set key callback (Registry._defs b)
  /\ Registry._typeDefs b' = Registry._typeDefs b
  /\ Registry._emittedDefs b' = Registry._emittedDefs b
  /\ Registry._emittedTypeDefs b' = Registry._emittedTypeDefs b
  /\ Registry.module_ b' = Registry.module_ b.
Proof.
  unfold Registry.registerDef.
  destruct (ModuleBuilder.Map_get key (Registry._defs b)); [discriminate|].
  intros H. injection H as <-. simpl. repeat split; reflexivity.
Qed.

Lemma registerTypeDef_ok (key : string) (callback : Producer) (b b' : Registry.t Producer) :
  Registry.registerTypeDef key callback b = (inl tt, b') ->
  ModuleBuilder.Map_get key (Registry._typeDefs b) = None
  /\ Registry._typeDefs b' = ModuleBuilder.Map_set key callback (Registry._typeDefs b)
  /\ Registry._defs b' = Registry._defs b
  /\ Registry._emittedDefs b' = Registry._emittedDefs b
  /\ Registry._emittedTypeDefs b' = Registry._emittedTypeDefs b
  /\ Registry.module_ b' = Registry.module_ b.
Proof.
  unfold Registry.registerTypeDef.
  destruct (ModuleBuilder.Map_get key (Registry._typeDefs b)); [discriminate|].
  intros H. injection H as <-. simpl. repeat split; reflexivity.
Qed.

Lemma Set_has_add_same (key : string) (s : list string) :
  Set_has key (Set_add key s) = true.
Proof. apply Set_has_In, Set_add_In. Qed.

End Registered.

Arguments registerDef_ok {Producer} key callback b b' _.
Arguments registerTypeDef_ok {Producer} key callback b b' _.

(** X15: a definition is registered once.  After a successful
    [registerDef] the key is bound to its producer, the other keys are
    bound as before, and a second registration of the key throws and
    changes nothing, whatever the producer.  Definitions and type
    definitions are separate name spaces: whether the key can be registered
    as a type definition is not affected. *)
Theorem definitions_register_once :
  forall (Producer : Type) (key : string) (first second : Producer)
         (b b' : Registry.t Producer),
    Registry.registerDef key first b = (inl tt, b') ->
    ModuleBuilder.Map_get key (Registry._defs b') = Some first
    /\ Registry.registerDef key second b' = (inr (Registry.DuplicateDef key), b')
    /\ (forall other : string,
           other <> key ->
           ModuleBuilder.Map_get other (Registry._defs b')
           = ModuleBuilder.Map_get other (Registry._defs b))
    /\ fst (Registry.registerTypeDef key second b')
       = fst (Registry.registerTypeDef key second b)
    /\ Registry.module_ b' = Registry.module_ b.
Proof.
  intros Producer key first second b b' H.
  destruct (registerDef_ok key first b b' H) as (Hnone & Hdefs & Htypes & _ & _ & Hmod).
  assert (Hget : ModuleBuilder.Map_get key (Registry._defs b') = Some first).
  { rewrite Hdefs, Map_get_set. now rewrite String.eqb_refl. }
  split; [exact Hget|]. split; [|split; [|split]].
  - unfold Registry.registerDef. now rewrite Hget.
  - intros other Hne. rewrite Hdefs. apply Map_set_other. congruence.
  - unfold Registry.registerTypeDef. rewrite Htypes.
    now destruct (ModuleBuilder.Map_get key (Registry._typeDefs b)).
  - exact Hmod.
Qed.

Lemma definitions_register_once_witness :
  Registry.registerDef "decoders" (Throws (TypeError "producer"))
    (snd (Registry.registerDef "decoders" (Constant "const decoders = {};")
            (Registry.new ExampleProducer "// @flow")))
  = (inr (Registry.DuplicateDef "decoders"),
     snd (Registry.registerDef "decoders" (Constant "const decoders = {};")
            (Registry.new ExampleProducer "// @flow"))).
Proof.
  exact (proj1 (proj2 (definitions_register_once ExampleProducer "decoders"
                         (Constant "const decoders = {};") (Throws (TypeError "producer"))
                         (Registry.new ExampleProducer "// @flow") _ eq_refl))).
Defined.

(** X16: a required definition is emitted once.  The key is marked before
    its producer runs, so a producer that requires its own key finds it
    emitted and the call returns at once; when the producer has returned,
    its code is the last entry of the code section, and requiring the key
    again changes nothing. *)
Theorem require_emits_once :
  forall (Producer : Type)
         (call : Producer -> Registry.t Producer -> Registry.Call Producer string)
         (key : string) (callback : Producer) (b b1 : Registry.t Producer)
         (code : string),
    Set_has key (Registry._emittedDefs b) = false ->
    ModuleBuilder.Map_get key (Registry._defs b) = Some callback ->
    call callback (Registry.markDef key b) = (inl code, b1) ->
    Set_has key (Registry._emittedDefs b1) = true ->
    Registry.require call key (Registry.markDef key b) = (inl tt, Registry.markDef key b)
    /\ Registry.require call key b = (inl tt, Registry.pushDefCode code b1)
    /\ ModuleBuilder._defCode (Registry.module_ (Registry.pushDefCode code b1))
       = (ModuleBuilder._defCode (Registry.module_ b1) ++ [code])%list
    /\ Registry.require call key (Registry.pushDefCode code b1)
       = (inl tt, Registry.pushDefCode code b1).
Proof.
  intros Producer call key callback b b1 code Hfresh Hget Hcall Hmarked.
  split; [|split; [|split]].
  - unfold Registry.require. simpl. now rewrite Set_has_add_same.
  - unfold Registry.require. now rewrite Hfresh, Hget, Hcall.
  - reflexivity.
  - unfold Registry.require. simpl. now rewrite Hmarked.
Qed.

Lemma require_emits_once_witness :
  Registry.require exampleCall "decoders" registry_decoders
  = (inl tt,
     Registry.pushDefCode "const decoders = {};"
       (Registry.markDef "decoders" registry_decoders))
  /\ Registry.require exampleCall "decoders"
       (Registry.pushDefCode "const decoders = {};"
          (Registry.markDef "decoders" registry_decoders))
     = (inl tt,
        Registry.pushDefCode "const decoders = {};"
          (Registry.markDef "decoders" registry_decoders)).
Proof.
  pose proof (require_emits_once ExampleProducer exampleCall "decoders"
                (Constant "const decoders = {};") registry_decoders
                (Registry.markDef "decoders" registry_decoders)
                "const decoders = {};" eq_refl eq_refl eq_refl eq_refl)
    as (_ & Hfirst & _ & Hsecond).
  split; assumption.
Defined.

(** X17: how [require] fails.  An unknown key throws and leaves the builder
    as it was.  A producer that throws leaves its key marked as emitted:
    the exception propagates, no code is pushed, and a later [require] of
    the same key returns normally without calling the producer again. *)
Theorem require_failures :
  forall (Producer : Type)
         (call : Producer -> Registry.t Producer -> Registry.Call Producer string)
         (key : string) (b : Registry.t Producer),
    Set_has key (Registry._emittedDefs b) = false ->
    (ModuleBuilder.Map_get key (Registry._defs b) = None ->
     Registry.require call key b = (inr (Registry.UnknownDef key), b))
    /\ (forall (callback : Producer) (failure : Registry.Failure)
               (b1 : Registry.t Producer),
           ModuleBuilder.Map_get key (Registry._defs b) = Some callback ->
           call callback (Registry.markDef key b) = (inr failure, b1) ->
           Set_has key (Registry._emittedDefs b1) = true ->
           Registry.require call key b = (inr failure, b1)
           /\ Registry.require call key b1 = (inl tt, b1)).
Proof.
  intros Producer call key b Hfresh. split.
  - intros Hnone. unfold Registry.require. now rewrite Hfresh, Hnone.
  - intros callback failure b1 Hget Hcall Hmarked. split.
    + unfold Registry.require. now rewrite Hfresh, Hget, Hcall.
    + unfold Registry.require. now rewrite Hmarked.
Qed.

Lemma require_failures_witness :
  Registry.require exampleCall "broken" registry_decoders
  = (inr (Registry.Raised (TypeError "producer")), Registry.markDef "broken" registry_decoders)
  /\ Registry.require exampleCall "broken" (Registry.markDef "broken" registry_decoders)
     = (inl tt, Registry.markDef "broken" registry_decoders)
  /\ Registry.require exampleCall "missing" registry_decoders
     = (inr (Registry.UnknownDef "missing"), registry_decoders).
Proof.
  pose proof (require_failures ExampleProducer exampleCall "broken" registry_decoders
                eq_refl) as [_ Hthrows].
  pose proof (require_failures ExampleProducer exampleCall "missing" registry_decoders
                eq_refl) as [Hunknown _].
  destruct (Hthrows (Throws (TypeError "producer")) (Registry.Raised (TypeError "producer"))
              (Registry.markDef "broken" registry_decoders) eq_refl eq_refl eq_refl)
    as [Hfirst Hsecond].
  split; [exact Hfirst|]. split; [exact Hsecond|]. exact (Hunknown eq_refl).
Defined.

(* ------------------------------------------------------------------------- *)
(** ** Further properties: the scaffold files *)

Section Scaffolds.
Variable prettify : string -> Result string.
Variable exportsOfSource : string -> Result (list string).
Variable lowerCaseFirst : string -> string.

Lemma getExportsFromPath_error (file source : string) (e : Error) (fs : FileSystem) :
  lookup file (fs_files fs) = Some source ->
  exportsOfSource source = Err e ->
  getExportsFromPath exportsOfSource file fs = (Err e, fs).
Proof.
  intros Hl He. unfold getExportsFromPath, bindIO, read, readFile, lift.
  now rewrite Hl, He.
Qed.

Lemma writeInterfaceImpl_existing (schema : GraphQLSchema) (name outputFile source : string)
      (fs : FileSystem) :
  lookup outputFile (fs_files fs) = Some source ->
  writeInterfaceImpl prettify exportsOfSource schema name outputFile fs
  = (match exportsOfSource source with
     | Ok exports =>
         if Set_has "dispatch" exports then Ok tt
         else Err (ContractViolation outputFile "dispatch")
     | Err e => Err e
     end, fs).
Proof.
  intros Hl. unfold writeInterfaceImpl, bindIO. rewrite (existsSync_file _ _ _ Hl).
  destruct (exportsOfSource source) as [exports|e] eqn:He.
  - rewrite (getExportsFromPath_file _ _ _ _ _ Hl He).
    now destruct (Set_has "dispatch" exports).
  - now rewrite (getExportsFromPath_error _ _ _ _ Hl He).
Qed.

Lemma writeScalarImpl_unparsed (schema : GraphQLSchema) (name outputFile source : string)
      (e : Error) (fs : FileSystem) :
  lookup outputFile (fs_files fs) = Some source ->
  exportsOfSource source = Err e ->
  writeScalarImpl prettify exportsOfSource schema name outputFile fs = (Err e, fs).
Proof.
  intros Hl He. unfold writeScalarImpl, bindIO. rewrite (existsSync_file _ _ _ Hl).
  now rewrite (getExportsFromPath_error _ _ _ _ Hl He).
Qed.

Lemma written_lookup (filename contents : string) (fs : FileSystem) :
  lookup filename (fs_files (written filename contents fs)) = Some contents.
Proof.
  simpl. change (@lookup string) with (@ModuleBuilder.Map_get string).
  rewrite Map_get_set. now rewrite String.eqb_refl.
Qed.

Lemma written_others (filename contents other : string) (fs : FileSystem) :
  other <> filename ->
  lookup other (fs_files (written filename contents fs)) = lookup other (fs_files fs).
Proof.
  intros Hne. simpl. change (@lookup string) with (@ModuleBuilder.Map_get string).
  rewrite Map_get_set. apply not_eq_sym, String.eqb_neq in Hne. now rewrite Hne.
Qed.

Lemma writeCode_written (code outputFile : string) (fs : FileSystem) :
  writeCode prettify code outputFile fs
  = match prettify code with
    | Ok formatted => (Ok tt, written outputFile formatted fs)
    | Err e => (Err e, fs)
    end.
Proof. apply writeCode_result. Qed.

Lemma instanceOfType_getType (schema : GraphQLSchema) (name : string) (c : Variant) :
  instanceOfType schema name c = true ->
  exists node, getType schema name = Some node /\ instanceof node c = true.
Proof.
  unfold instanceOfType. destruct (getType schema name) as [node|]; [|discriminate].
  intros H. now exists node.
Qed.

End Scaffolds.

(** X18: a scaffold file that exists is never written.  Whatever they
    return, the writers of the scalar and of the interface scaffold leave
    the file system as it was; the writer of a resolver scaffold returns
    normally without reading the file or looking the type up.  The interface
    writer throws exactly when the file has no export [dispatch], or when
    its exports cannot be read, in which case the scalar writer throws the
    same error. *)
Theorem existing_scaffolds_are_kept :
  forall (prettify : string -> Result string)
         (exportsOfSource : string -> Result (list string))
         (lowerCaseFirst : string -> string)
         (schema : GraphQLSchema) (name outputFile source : string) (fs : FileSystem),
    lookup outputFile (fs_files fs) = Some source ->
    snd (writeScalarImpl prettify exportsOfSource schema name outputFile fs) = fs
    /\ snd (writeInterfaceImpl prettify exportsOfSource schema name outputFile fs) = fs
    /\ writeResolverImpl prettify lowerCaseFirst schema name outputFile fs = (Ok tt, fs)
    /\ (forall exports : list string,
           exportsOfSource source = Ok exports ->
           writeInterfaceImpl prettify exportsOfSource schema name outputFile fs
           = (if Set_has "dispatch" exports then Ok tt
              else Err (ContractViolation outputFile "dispatch"), fs))
    /\ (forall e : Error,
           exportsOfSource source = Err e ->
           writeInterfaceImpl prettify exportsOfSource schema name outputFile fs
           = (Err e, fs)
           /\ writeScalarImpl prettify exportsOfSource schema name outputFile fs
              = (Err e, fs)).
Proof.
  intros prettify exportsOfSource lowerCaseFirst schema name outputFile source fs Hl.
  split; [|split; [|split; [|split]]].
  - destruct (exportsOfSource source) as [exports|e] eqn:He.
    + now rewrite (writeScalarImpl_existing _ _ _ _ _ _ _ _ Hl He).
    + now rewrite (writeScalarImpl_unparsed _ _ _ _ _ _ _ _ Hl He).
  - now rewrite (writeInterfaceImpl_existing _ _ _ _ _ _ _ Hl).
  - unfold writeResolverImpl, bindIO. now rewrite (existsSync_file _ _ _ Hl).
  - intros exports He. rewrite (writeInterfaceImpl_existing _ _ _ _ _ _ _ Hl). now rewrite He.
  - intros e He. split.
    + rewrite (writeInterfaceImpl_existing _ _ _ _ _ _ _ Hl). now rewrite He.
    + exact (writeScalarImpl_unparsed _ _ _ _ _ _ _ _ Hl He).
Qed.

Lemma existing_scaffolds_are_kept_witness :
  writeResolverImpl (fun code => Ok code) (fun s => s) schema_scalars "Ghost"
    "/api/interfaces/Old.js" fs_interface_orphan
  = (Ok tt, fs_interface_orphan)
  /\ writeInterfaceImpl (fun code => Ok code) exampleScanner schema_scalars "Node"
       "/api/schema.graphql" fs_interface_orphan
     = (Err (ContractViolation "/api/schema.graphql" "dispatch"), fs_interface_orphan).
Proof.
  split.
  - exact (proj1 (proj2 (proj2
             (existing_scaffolds_are_kept (fun code => Ok code) exampleScanner (fun s => s)
                schema_scalars "Ghost" "/api/interfaces/Old.js" "dispatch"
                fs_interface_orphan eq_refl)))).
  - exact (proj1 (proj2 (proj2 (proj2
             (existing_scaffolds_are_kept (fun code => Ok code) exampleScanner (fun s => s)
                schema_scalars "Node" "/api/schema.graphql" "scalar Date"
                fs_interface_orphan eq_refl))))
             (words "scalar Date") eq_refl).
Defined.

(** X19: the resolver scaffold of an object type of the schema, when no
    file or directory has its path.  The two invariants hold, so the only
    failure is the one of the formatter, and nothing is written then.
    Otherwise the file holds the formatted module, every other file is as
    before, and a second call changes nothing: the scaffold is written
    once. *)
Theorem resolver_scaffold_written_once :
  forall (prettify : string -> Result string) (lowerCaseFirst : string -> string)
         (schema : GraphQLSchema) (name outputFile : string) (fs : FileSystem),
    In name (resolverNames schema) ->
    existsSync outputFile fs = (Ok false, fs) ->
    exists code : string,
      writeResolverImpl prettify lowerCaseFirst schema name outputFile fs
      = match prettify code with
        | Ok formatted => (Ok tt, written outputFile formatted fs)
        | Err e => (Err e, fs)
        end
      /\ (forall formatted : string,
             prettify code = Ok formatted ->
             lookup outputFile (fs_files (written outputFile formatted fs)) = Some formatted
             /\ (forall other : string,
                    other <> outputFile ->
                    lookup other (fs_files (written outputFile formatted fs))
                    = lookup other (fs_files fs))
             /\ writeResolverImpl prettify lowerCaseFirst schema name outputFile
                  (written outputFile formatted fs)
                = (Ok tt, written outputFile formatted fs)).
Proof.
  intros prettify lowerCaseFirst schema name outputFile fs Hin Hnew.
  unfold resolverNames in Hin. apply filter_In in Hin. destruct Hin as [_ Hobj].
  destruct (instanceOfType_getType _ _ _ Hobj) as (node & Hget & _).
  destruct (toString_ok
              (ModuleBuilder.emit
                 ("export default " ++ lowerCaseFirst (name ++ "Resolver") ++ ";")
                 (ModuleBuilder.emit
                    ("const " ++ lowerCaseFirst (name ++ "Resolver") ++ ": "
                       ++ (name ++ "Resolver") ++ " = "
                       ++ resolverImplCode name (lowerCaseFirst name) node ++ ";")
                    (ModuleBuilder.addTypeImport (name ++ "Resolver") "../types"
                       (ModuleBuilder.new "// @flow"))))
              eq_refl) as [code Hcode].
  exists code. split.
  - unfold writeResolverImpl, bindIO. rewrite Hnew.
    unfold invariant. rewrite Hget, Hobj. unfold ret, lift. cbv zeta.
    rewrite Hcode. apply writeCode_written.
  - intros formatted _. split; [apply written_lookup|]. split.
    + intros other Hne. now apply written_others.
    + unfold writeResolverImpl, bindIO.
      now rewrite (existsSync_file _ _ _ (written_lookup outputFile formatted fs)).
Qed.

Lemma resolver_scaffold_written_once_witness :
  exists code : string,
    writeResolverImpl (fun code => Ok code) (fun s => s) schema_scalars "User"
      "/api/resolvers/UserResolver.js" fs_clean
    = (Ok tt, written "/api/resolvers/UserResolver.js" code fs_clean).
Proof.
  destruct (resolver_scaffold_written_once (fun code => Ok code) (fun s => s)
              schema_scalars "User" "/api/resolvers/UserResolver.js" fs_clean
              ltac:(vm_compute; auto) eq_refl) as (code & Hrun & _).
  exists code. exact Hrun.
Defined.

Section ScaffoldSources.
Variable prettify : string -> Result string.
Variable exportsOfSource : string -> Result (list string).

Lemma append_nonempty (s suffix : string) :
  suffix <> "" -> String.eqb (s ++ suffix) s = false.
Proof.
  intros Hne. apply String.eqb_neq. intros Heq.
  apply (f_equal String.length) in Heq. rewrite length_append in Heq.
  destruct suffix; [congruence | simpl in Heq; lia].
Qed.

(** The three reads at the head of the two scaffold writers. *)
Lemma scaffoldSource_reads (outputFile origCode : string) (exports : list string)
      (fs : FileSystem) :
  scaffoldSource exportsOfSource outputFile origCode exports fs ->
  exists exists_ : bool,
    existsSync outputFile fs = (Ok exists_, fs)
    /\ (if negb exists_
        then ret ("// @flow" ++ JsString.newline ++ JsString.newline)
        else read outputFile) fs = (Ok origCode, fs)
    /\ (if exists_ then getExportsFromPath exportsOfSource outputFile else ret [])
         fs = (Ok exports, fs).
Proof.
  intros [(Hnew & -> & ->)|(Hl & He)].
  - exists false. repeat split; assumption || reflexivity.
  - exists true. split; [exact (existsSync_file _ _ _ Hl)|]. split.
    + simpl. unfold read, readFile. now rewrite Hl.
    + exact (getExportsFromPath_file _ _ _ _ _ Hl He).
Qed.

End ScaffoldSources.

(** X20: the context scaffold is rewritten exactly when an export is
    missing.  When the file exports both [Context] and [makeContext]
    nothing is written; otherwise the formatter receives the original code
    followed by a non-empty block, so what the file held is kept in front
    of what is added. *)
Theorem context_scaffold_appends :
  forall (prettify : string -> Result string)
         (exportsOfSource : string -> Result (list string))
         (schema : GraphQLSchema) (outputFile origCode : string)
         (exports : list string) (fs : FileSystem),
    scaffoldSource exportsOfSource outputFile origCode exports fs ->
    (Set_has "Context" exports && Set_has "makeContext" exports = true ->
     writeContextScaffold prettify exportsOfSource schema outputFile fs = (Ok tt, fs))
    /\ (Set_has "Context" exports && Set_has "makeContext" exports = false ->
        exists block : string,
          block <> ""
          /\ writeContextScaffold prettify exportsOfSource schema outputFile fs
             = writeCode prettify (origCode ++ block) outputFile fs).
Proof.
  intros prettify exportsOfSource schema outputFile origCode exports fs Hsrc.
  destruct (scaffoldSource_reads exportsOfSource _ _ _ _ Hsrc)
    as (exists_ & Hexists & Hread & Hexports).
  unfold writeContextScaffold, bindIO. rewrite Hexists, Hread, Hexports. cbv zeta.
  split.
  - intros Hboth. apply andb_prop in Hboth. destruct Hboth as [-> ->].
    cbn [negb]. now rewrite String.eqb_refl.
  - intros Hmissing.
    destruct (Set_has "Context" exports); cbn [negb].
    + simpl in Hmissing. rewrite Hmissing. cbn [negb].
      eexists. split; [|rewrite append_nonempty; [reflexivity|]]; discriminate.
    + destruct (Set_has "makeContext" exports); cbn [negb].
      * eexists. split; [|rewrite append_nonempty; [reflexivity|]]; discriminate.
      * rewrite append_assoc.
        eexists. split; [|rewrite append_nonempty; [reflexivity|]]; discriminate.
Qed.

Lemma context_scaffold_appends_witness :
  writeContextScaffold (fun code => Ok code) exampleScanner schema_scalars
    "/api/schema.graphql"
    {| fs_files := [("/api/schema.graphql", "Context makeContext")]; fs_dirs := ["/api"] |}
  = (Ok tt,
     {| fs_files := [("/api/schema.graphql", "Context makeContext")];
        fs_dirs := ["/api"] |})
  /\ exists block : string,
       block <> ""
       /\ writeContextScaffold (fun code => Ok code) exampleScanner schema_scalars
            "/api/context/index.js" fs_clean
          = writeCode (fun code => Ok code)
              (("// @flow" ++ JsString.newline ++ JsString.newline) ++ block)
              "/api/context/index.js" fs_clean.
Proof.
  split.
  - apply (proj1 (context_scaffold_appends (fun code => Ok code) exampleScanner
                    schema_scalars "/api/schema.graphql" "Context makeContext"
                    (words "Context makeContext")
                    {| fs_files := [("/api/schema.graphql", "Context makeContext")];
                       fs_dirs := ["/api"] |}
                    (or_intror (conj eq_refl eq_refl)))).
    reflexivity.
  - apply (proj2 (context_scaffold_appends (fun code => Ok code) exampleScanner
                    schema_scalars "/api/context/index.js"
                    ("// @flow" ++ JsString.newline ++ JsString.newline) []
                    fs_clean
                    (or_introl (conj eq_refl (conj eq_refl eq_refl))))).
    reflexivity.
Defined.

(** X21: the models scaffold covers the models of the types file.  Every
    name the types file imports from the models module is exported by the
    models file already or is among the aliases that are appended, in the
    order of the index; nothing is written when none is missing. *)
Theorem models_scaffold_covers_models :
  forall (prettify : string -> Result string)
         (exportsOfSource : string -> Result (list string))
         (schema : GraphQLSchema) (outputFile origCode : string)
         (exports : list string) (fs : FileSystem),
    scaffoldSource exportsOfSource outputFile origCode exports fs ->
    exists missing : list string,
      missing = filter (fun name => negb (Set_has name exports)) (modelNames schema)
      /\ (forall name : string,
             In name (modelNames schema) ->
             Set_has name exports = true \/ In name missing)
      /\ alphabetical missing
      /\ writeModelsScaffold prettify exportsOfSource schema outputFile fs
         = match missing with
           | [] => (Ok tt, fs)
           | _ :: _ => writeCode prettify (modelsScaffoldCode origCode missing) outputFile fs
           end.
Proof.
  intros prettify exportsOfSource schema outputFile origCode exports fs Hsrc.
  exists (filter (fun name => negb (Set_has name exports)) (modelNames schema)).
  split; [reflexivity|]. split; [|split].
  - intros name Hin. destruct (Set_has name exports) eqn:Hhas; [now left|].
    right. apply filter_In. split; [exact Hin | now rewrite Hhas].
  - unfold modelNames. do 3 apply alphabetical_filter. apply index_alphabetical.
  - destruct (scaffoldSource_reads exportsOfSource _ _ _ _ Hsrc)
      as (exists_ & Hexists & Hread & Hexports).
    unfold writeModelsScaffold, bindIO. rewrite Hexists, Hread, Hexports. cbv zeta.
    rewrite (filter_comm (fun name => negb (Set_has name ROOT_TYPES))
               (fun name => instanceOfType schema name GraphQLObjectType)).
    fold (modelNames schema).
    destruct (filter (fun name => negb (Set_has name exports)) (modelNames schema));
      reflexivity.
Qed.

Lemma models_scaffold_covers_models_witness :
  exists missing : list string,
    missing = ["User"]
    /\ writeModelsScaffold (fun code => Ok code) exampleScanner schema_scalars
         "/api/models/index.js" fs_clean
       = writeCode (fun code => Ok code)
           (modelsScaffoldCode ("// @flow" ++ JsString.newline ++ JsString.newline) missing)
           "/api/models/index.js" fs_clean.
Proof.
  destruct (models_scaffold_covers_models (fun code => Ok code) exampleScanner
              schema_scalars "/api/models/index.js"
              ("// @flow" ++ JsString.newline ++ JsString.newline) [] fs_clean
              (or_introl (conj eq_refl (conj eq_refl eq_refl))))
    as (missing & Hmissing & _ & _ & Hrun).
  exists missing. split.
  - rewrite Hmissing. reflexivity.
  - rewrite Hrun, Hmissing. reflexivity.
Defined.

(* ------------------------------------------------------------------------- *)
(** ** Further properties: the run *)

(** X22: a schema without interface and union types.  No scaffold is
    written, so nothing creates the output directory of the interfaces:
    when it cannot be listed, the error of [readdir] is the result of
    [writeInterfaceImpls]; when it can, every file matching the pattern is
    unexpected, and the check passes exactly when there is none. *)
Theorem no_interfaces_no_directory :
  forall (cwd : string) (prettify : string -> Result string)
         (exportsOfSource : string -> Result (list string))
         (schema : GraphQLSchema) (outputDir : string) (fs : FileSystem),
    interfaceNames schema = [] ->
    (forall e : Error,
        readdir outputDir fs = (Err e, fs) ->
        writeInterfaceImpls cwd prettify exportsOfSource schema outputDir fs = (Err e, fs))
    /\ (forall entries : list string,
           readdir outputDir fs = (Ok entries, fs) ->
           writeInterfaceImpls cwd prettify exportsOfSource schema outputDir fs
           = (Ok (forallb (fun entry => negb (js_pattern (Path.resolve cwd outputDir entry)))
                          entries), fs)).
Proof.
  intros cwd prettify exportsOfSource schema outputDir fs Hnone.
  unfold writeInterfaceImpls, bindIO. rewrite Hnone. cbn [mapIO ret].
  split.
  - intros e Hdir. unfold checkOutputDir, bindIO. now rewrite Hdir.
  - intros entries Hdir. rewrite (checkOutputDir_result _ _ _ _ _ _ Hdir).
    f_equal. f_equal.
    destruct (forallb _ entries) eqn:Hall.
    + apply Nat.eqb_eq, unexpectedFiles_empty.
      intros entry Hin Hmatch. rewrite forallb_forall in Hall.
      specialize (Hall entry Hin). rewrite Hmatch in Hall. discriminate.
    + apply Nat.eqb_neq. intros Hlen.
      rewrite unexpectedFiles_empty in Hlen.
      assert (forallb (fun entry => negb (js_pattern (Path.resolve cwd outputDir entry)))
                      entries = true); [|congruence].
      apply forallb_forall. intros entry Hin.
      destruct (js_pattern (Path.resolve cwd outputDir entry)) eqn:Hmatch; [|reflexivity].
      destruct (Hlen entry Hin Hmatch).
Qed.

Lemma no_interfaces_no_directory_witness :
  exists e : Error,
    writeInterfaceImpls "/" (fun code => Ok code) exampleScanner schema_roots
      "/api/interfaces" fs_clean
    = (Err e, fs_clean).
Proof.
  eexists.
  apply (proj1 (no_interfaces_no_directory "/" (fun code => Ok code) exampleScanner
                  schema_roots "/api/interfaces" fs_clean eq_refl)).
  reflexivity.
Defined.



(** X24: a schema without custom scalars.  The index of the scalars is not
    written and there is no scaffold, so nothing creates the output
    directory of the scalars: when it cannot be listed, [writeScalarImpls]
    throws the error of [readdir]; when it can, the function returns
    normally whatever the directory holds. *)
Theorem no_scalars_no_directory :
  forall (cwd : string) (prettify : string -> Result string)
         (exportsOfSource : string -> Result (list string))
         (schema : GraphQLSchema) (outputDir : string) (fs : FileSystem),
    scalarNames schema = [] ->
    writeScalarsIndex prettify schema (Path.resolve cwd outputDir "index.js") fs
    = (Ok (Path.resolve cwd outputDir "index.js"), fs)
    /\ (forall e : Error,
           readdir outputDir fs = (Err e, fs) ->
           writeScalarImpls cwd prettify exportsOfSource schema outputDir fs = (Err e, fs))
    /\ (forall entries : list string,
           readdir outputDir fs = (Ok entries, fs) ->
           writeScalarImpls cwd prettify exportsOfSource schema outputDir fs = (Ok tt, fs)).
Proof.
  intros cwd prettify exportsOfSource schema outputDir fs Hnone.
  assert (Hindex : writeScalarsIndex prettify schema (Path.resolve cwd outputDir "index.js") fs
                   = (Ok (Path.resolve cwd outputDir "index.js"), fs)).
  { unfold writeScalarsIndex, bindIO.
    rewrite filter_comm, index_not_builtin. fold (scalarNames schema). now rewrite Hnone. }
  split; [exact Hindex|]. split.
  - intros e Hdir. unfold writeScalarImpls, bindIO. rewrite Hindex, Hnone. cbn [mapIO ret].
    unfold checkOutputDir, bindIO. now rewrite Hdir.
  - intros entries Hdir. unfold writeScalarImpls, bindIO. rewrite Hindex, Hnone.
    cbn [mapIO ret]. now rewrite (checkOutputDir_result _ _ _ _ _ _ Hdir).
Qed.

Lemma no_scalars_no_directory_witness :
  exists e : Error,
    writeScalarImpls "/" (fun code => Ok code) exampleScanner schema_union
      "/api/scalars" fs_clean
    = (Err e, fs_clean).
Proof.
  eexists.
  apply (proj1 (proj2 (no_scalars_no_directory "/" (fun code => Ok code) exampleScanner
                         schema_union "/api/scalars" fs_clean eq_refl))).
  reflexivity.
Defined.

(* ------------------------------------------------------------------------- *)
(** ** Further properties: the root resolver map *)

Section RootImports.
Import ModuleBuilder.

Lemma append_cancel_r (a b s : string) : a ++ s = b ++ s -> a = b.
Proof.
  revert b. induction a as [|c a IH]; intros [|d b] H.
  - reflexivity.
  - apply (f_equal String.length) in H. simpl in H. rewrite length_append in H. lia.
  - apply (f_equal String.length) in H. simpl in H. rewrite length_append in H. lia.
  - simpl in H. injection H as -> H. f_equal. now apply IH.
Qed.

(** A map filled by [map.set(f(name), name)] for the names of a list, with
    [f] injective: a key is bound to the name it was made from. *)
Lemma fold_set_get (f : string -> string) (l : list string) (m0 : list (string * string))
      (k v : string) :
  (forall a b, f a = f b -> a = b) ->
  Map_get k (fold_left (fun m n => Map_set (f n) n m) l m0) = Some v
  <-> (In v l /\ k = f v)
      \/ (Map_get k m0 = Some v /\ forall n, In n l -> f n <> k).
Proof.
  intros Hinj. revert m0. induction l as [|x l IH]; intros m0; simpl.
  - split; [intros H; right; split; [exact H | intros n []] | intros [[[] _]|[H _]]; exact H].
  - rewrite IH, Map_get_set. destruct (String.eqb (f x) k) eqn:Hk.
    + apply String.eqb_eq in Hk. split.
      * intros [[Hin ->]|[Hv _]]; [left; auto|]. injection Hv as <-. left; auto.
      * intros [[[<-|Hin] ->]|[_ Hno]].
        -- destruct (in_dec string_dec x l) as [Hin|Hout]; [left; auto|].
           right. split; [reflexivity|]. intros n Hn Hfn.
           apply Hinj in Hfn. congruence.
        -- left; auto.
        -- destruct (Hno x (or_introl eq_refl) Hk).
    + apply String.eqb_neq in Hk. split.
      * intros [[Hin ->]|[Hv Hno]]; [left; auto|].
        right. split; [exact Hv|]. intros n [<-|Hn]; auto.
      * intros [[[<-|Hin] ->]|[Hv Hno]]; [congruence | left; auto |].
        right. split; [exact Hv | intros n Hn; apply Hno; now right].
Qed.

Lemma scalarStep_fold (l : list string) (m : t) :
  _namespaceImports (fold_left scalarStep l m)
  = fold_left (fun ns n => Map_set ("../scalars/" ++ n) n ns) l (_namespaceImports m)
  /\ _defaultImports (fold_left scalarStep l m) = _defaultImports m
  /\ _namedImports (fold_left scalarStep l m)
     = match l with
       | [] => _namedImports m
       | _ :: _ => addToSet "makeScalar" "lib/graphql-tools" (_namedImports m)
       end.
Proof.
  revert m. induction l as [|x l IH]; intros m; [repeat split|].
  cbn [fold_left]. destruct (IH (scalarStep m x)) as (Hns & Hdef & Hnamed).
  rewrite Hns, Hdef, Hnamed. repeat split.
  destruct l; [reflexivity|]. cbn [scalarStep addNamespaceImport addNamedImport
                                   _namedImports].
  apply addToSet_idem.
Qed.

Lemma interfaceStep_fold (l : list string) (m : t) :
  _namespaceImports (fold_left interfaceStep l m)
  = fold_left (fun ns n => Map_set ("../interfaces/" ++ n) n ns) l (_namespaceImports m)
  /\ _defaultImports (fold_left interfaceStep l m) = _defaultImports m
  /\ _namedImports (fold_left interfaceStep l m) = _namedImports m.
Proof.
  revert m. induction l as [|x l IH]; intros m; [repeat split|].
  cbn [fold_left]. destruct (IH (interfaceStep m x)) as (Hns & Hdef & Hnamed).
  rewrite Hns, Hdef, Hnamed. repeat split.
Qed.

Lemma resolverStep_fold (l : list string) (m : t) :
  _defaultImports (fold_left resolverStep l m)
  = fold_left (fun ds n => Map_set ("./" ++ n ++ "Resolver") n ds) l (_defaultImports m)
  /\ _namespaceImports (fold_left resolverStep l m) = _namespaceImports m
  /\ _namedImports (fold_left resolverStep l m) = _namedImports m.
Proof.
  revert m. induction l as [|x l IH]; intros m; [repeat split|].
  cbn [fold_left]. destruct (IH (resolverStep m x)) as (Hdef & Hns & Hnamed).
  rewrite Hns, Hdef, Hnamed. repeat split.
Qed.

Lemma fold_Reachable (step : t -> string -> t) (l : list string) (m : t) :
  (forall m0 n, Reachable m0 -> Reachable (step m0 n)) ->
  Reachable m -> Reachable (fold_left step l m).
Proof.
  intros Hstep. revert m. induction l as [|x l IH]; intros m Hm; simpl; auto.
Qed.

End RootImports.

(** X25: the imports of the root resolver module are the ones its resolver
    map uses.  A default import binds a name exactly when it is an object
    type of the index, from the module of its resolver; a namespace import
    binds a name exactly when it is a scalar of the index, from its module
    in the scalars directory, or an interface or union, from its module in
    the interfaces directory; [makeScalar] is the only named import, present
    exactly when the index has a scalar.  The module always serialises. *)
Theorem root_resolver_imports :
  forall schema : GraphQLSchema,
    exists (code : string) (mod_ : ModuleBuilder.t),
      rootResolverCallback schema (ModuleBuilder.new HEADER_COMMENT) = Ok (code, mod_)
      /\ (forall from_ name : string,
             ModuleBuilder.Map_get from_ (ModuleBuilder._defaultImports mod_) = Some name
             <-> In name (resolverNames schema) /\ from_ = "./" ++ name ++ "Resolver")
      /\ (forall from_ name : string,
             ModuleBuilder.Map_get from_ (ModuleBuilder._namespaceImports mod_) = Some name
             <-> (In name (scalarNames schema) /\ from_ = "../scalars/" ++ name)
                 \/ (In name (interfaceNames schema) /\ from_ = "../interfaces/" ++ name))
      /\ ModuleBuilder._namedImports mod_
         = match scalarNames schema with
           | [] => []
           | _ :: _ => [("lib/graphql-tools", ["makeScalar"])]
           end
      /\ exists text : string,
           ModuleBuilder.toString (ModuleBuilder.emit code mod_) = Ok text.
Proof.
  intros schema. unfold rootResolverCallback. cbv zeta.
  fold scalarStep interfaceStep resolverStep.
  eexists. eexists. split; [reflexivity|].
  pose proof (scalarStep_fold (scalarNames schema) (ModuleBuilder.new HEADER_COMMENT))
    as (Hs_ns & Hs_def & Hs_named).
  pose proof (interfaceStep_fold (interfaceNames schema)
                (fold_left scalarStep (scalarNames schema)
                   (ModuleBuilder.new HEADER_COMMENT)))
    as (Hi_ns & Hi_def & Hi_named).
  pose proof (resolverStep_fold (resolverNames schema)
                (fold_left interfaceStep (interfaceNames schema)
                   (fold_left scalarStep (scalarNames schema)
                      (ModuleBuilder.new HEADER_COMMENT))))
    as (Hr_def & Hr_ns & Hr_named).
  split; [|split; [|split]].
  - intros from_ name. rewrite Hr_def, Hi_def, Hs_def.
    rewrite (fold_set_get (fun n => "./" ++ n ++ "Resolver")).
    + simpl. split; [intros [H|[H _]]; [exact H | discriminate] | intros H; now left].
    + intros a b H. simpl in H. injection H as H. exact (append_cancel_r _ _ _ H).
  - intros from_ name. rewrite Hr_ns, Hi_ns, Hs_ns.
    rewrite (fold_set_get (fun n => "../interfaces/" ++ n)).
    + rewrite (fold_set_get (fun n => "../scalars/" ++ n)).
      * simpl. split.
        -- intros [H|[[H|[H _]] _]]; [now right | now left | discriminate].
        -- intros [[Hin ->]|H]; [|now left].
           right. split; [left; split; [exact Hin | reflexivity]|].
           intros n _ Hn. discriminate Hn.
      * intros a b H. simpl in H. now injection H.
    + intros a b H. simpl in H. now injection H.
  - rewrite Hr_named, Hi_named, Hs_named. now destruct (scalarNames schema).
  - apply toString_ok. rewrite emit_wf. apply Reachable_wf.
    apply fold_Reachable; [intros m0 n Hm0; now apply Reachable_default|].
    apply fold_Reachable; [intros m0 n Hm0; now apply Reachable_namespace|].
    apply fold_Reachable;
      [intros m0 n Hm0; now apply Reachable_namespace, Reachable_named|].
    apply Reachable_new.
Qed.
